(** * Authentication, sessions and role checks of the NodeJS notes

    The repository is a set of course notes; its executable content is the
    JavaScript of the notes' code blocks.  This development embeds the
    authentication code of three of them:

    - "Authentication System Setup" (PostgreSQL backed users, sessions,
      audit log, JWT and role middleware): [verifyUser], [createSession],
      [validateSession], [invalidateSession], [cleanupSessions],
      [logAuthEvent], [login], [authorize]  -- module [PgAuth];
    - "Simple Authentication Server" (express-session controller and
      middleware): [login], [logout], [isAuthenticated], [hasRole]
      -- module [SessionAuth];
    - the rate limiter configurations [loginLimiter] and [authLimiter]
      -- module [RateLimit];
    - of "Authentication System Setup" besides: [validatePassword]
      -- module [Password]; [authenticate] and the guarded routes, with
      [authenticateJWT] of the middleware notes -- module [Bearer];
      [registerUser], [createPasswordReset], [resetPassword],
      [createRole], [assignRole] -- module [Accounts].

    JavaScript [async] functions are embedded in a state-and-exception monad
    over a [World]: the PostgreSQL tables, the clock, the libraries the code
    calls (bcrypt, jsonwebtoken, uuid) and a log of the calls made. *)

From Stdlib Require Import Ascii String ZArith List Bool Lia.
Import ListNotations.

Local Open Scope string_scope.
Local Open Scope list_scope.
Local Open Scope Z_scope.

(* ================================================================== *)
(** * The database schema *)
(* ================================================================== *)

(** [CREATE TABLE users]: [id SERIAL PRIMARY KEY], [username], [email],
    [password_hash], [created_at], [last_login], [is_active]. *)
Record user_row := mkUser {
  u_id : Z;
  u_username : string;
  u_email : string;
  u_password_hash : string;
  u_created_at : Z;
  u_last_login : option Z;
  u_is_active : bool
}.

(** [CREATE TABLE roles]. *)
Record role_row := mkRole {
  r_id : Z;
  r_name : string
}.

(** [CREATE TABLE user_roles]. *)
Record user_role_row := mkUserRole {
  ur_user_id : Z;
  ur_role_id : Z
}.

(** [CREATE TABLE sessions]: [id UUID DEFAULT gen_random_uuid()],
    [user_id], [token], [ip_address], [user_agent], [created_at],
    [expires_at], [is_valid BOOLEAN DEFAULT true]. *)
Record session_row := mkSession {
  s_id : string;
  s_user_id : Z;
  s_token : string;
  s_ip_address : string;
  s_user_agent : string;
  s_created_at : Z;
  s_expires_at : Z;
  s_is_valid : bool
}.

(** [CREATE TABLE auth_logs]. *)
Record auth_log_row := mkAuthLog {
  l_user_id : option Z;
  l_event_type : string;
  l_ip_address : string;
  l_user_agent : string;
  l_created_at : Z;
  l_details : list (string * string)   (* the JSONB object *)
}.

Record Db := mkDb {
  users : list user_row;
  roles : list role_row;
  user_roles : list user_role_row;
  sessions : list session_row;
  auth_logs : list auth_log_row;
  (* how many defaults [gen_random_uuid()] has produced so far *)
  sessions_seq : nat
}.

Definition set_users (us : list user_row) (d : Db) : Db :=
  mkDb us (roles d) (user_roles d) (sessions d) (auth_logs d) (sessions_seq d).

Definition set_sessions (ss : list session_row) (d : Db) : Db :=
  mkDb (users d) (roles d) (user_roles d) ss (auth_logs d) (sessions_seq d).

Definition set_auth_logs (ls : list auth_log_row) (d : Db) : Db :=
  mkDb (users d) (roles d) (user_roles d) (sessions d) ls (sessions_seq d).

Definition set_session_valid (b : bool) (s : session_row) : session_row :=
  mkSession (s_id s) (s_user_id s) (s_token s) (s_ip_address s)
            (s_user_agent s) (s_created_at s) (s_expires_at s) b.

Definition set_user_active (b : bool) (u : user_row) : user_row :=
  mkUser (u_id u) (u_username u) (u_email u) (u_password_hash u)
         (u_created_at u) (u_last_login u) b.

Definition set_user_last_login (t : Z) (u : user_row) : user_row :=
  mkUser (u_id u) (u_username u) (u_email u) (u_password_hash u)
         (u_created_at u) (Some t) (u_is_active u).

(* ================================================================== *)
(** * Column types *)
(* ================================================================== *)

(** A string is the UTF-8 text the driver sends to the server.  A byte
    [10xxxxxx] continues a character begun before it. *)
Definition continues (c : ascii) : bool :=
  match c with
  | Ascii _ _ _ _ _ _ b6 b7 => b7 && negb b6
  end.

(** The number of characters, as VARCHAR(n) counts them. *)
Fixpoint chars (s : string) : nat :=
  match s with
  | EmptyString => O
  | String c r => if continues c then chars r else S (chars r)
  end.

(** A value of at most n characters fits a VARCHAR(n) column. *)
Definition fits (n : nat) (s : string) : bool :=
  (chars s <=? n)%nat.

(** The first [n] characters of [s], and what follows them. *)
Fixpoint cut (n : nat) (s : string) : string * string :=
  match s with
  | EmptyString => (EmptyString, EmptyString)
  | String c r =>
      if continues c then
        let (a, b) := cut n r in (String c a, b)
      else
        match n with
        | O => (EmptyString, s)
        | S k => let (a, b) := cut k r in (String c a, b)
        end
  end.

Fixpoint blank (s : string) : bool :=
  match s with
  | EmptyString => true
  | String c r => Ascii.eqb c " " && blank r
  end.

(** A parameter assigned to a VARCHAR(n) column: a value that fits is
    stored as it is; a longer one is cut to n characters when all that is
    cut off is spaces, and refused otherwise. *)
Definition varchar (n : nat) (s : string) : option string :=
  if fits n s then Some s
  else let (kept, rest) := cut n s in
       if blank rest then Some kept else None.

(** INTEGER: the numbers from -2^31 to 2^31 - 1. *)
Definition int4 (z : Z) : bool :=
  (-2147483648 <=? z) && (z <=? 2147483647).

(* ================================================================== *)
(** * The world an [async] function runs in *)
(* ================================================================== *)

Inductive table := Users | Roles | UserRoles | Sessions | AuthLogs.

(** What an awaited promise can reject with. *)
Inductive exn :=
| DbError (t : table)              (* the query on table [t] failed *)
| ForeignKeyViolation (t : table)  (* a REFERENCES constraint of [t] *)
| StringTooLong (n : nat)          (* value too long for VARCHAR(n) *)
| IntegerOutOfRange                (* value out of range for INTEGER *)
| TypeError (msg : string).        (* property read on [undefined] *)

Inductive outcome (A : Type) :=
| Ok (a : A)
| Throw (e : exn).
Arguments Ok {A} a.
Arguments Throw {A} e.

(** The SQL statements of the notes, named for the call log. *)
Inductive stmt :=
| SelectUserByEmail
| SelectUserWithRoles
| UpdateUserInactive
| InsertSession
| SelectSessionJoinUser
| UpdateSessionInvalid
| DeleteStaleSessions
| InsertAuthLog
| UpdateLastLogin.

(** The payload [generateToken] signs. *)
Record jwt_claims := mkClaims {
  jc_id : Z;
  jc_username : string;
  jc_roles : list string
}.

(** Calls that leave the process, in the order they were made. *)
Inductive call :=
| PoolQuery (q : stmt)
| BcryptCompare (password hash : string)
| JwtSign (c : jwt_claims)
| Uuidv4.

(** The npm packages and the PostgreSQL function the code relies on; their
    results are left open. *)
Record Libs := mkLibs {
  bcrypt_compare : string -> string -> bool;   (* bcrypt.compare *)
  jwt_sign : jwt_claims -> Z -> string;        (* jwt.sign, at a time *)
  uuidv4 : nat -> string;                      (* n-th draw of uuidv4() *)
  gen_random_uuid : nat -> string;             (* n-th column default *)
  json_agg : list string -> list string        (* the order json_agg gives *)
}.

(** [x] taken out of a list once. *)
Fixpoint remove_one (x : string) (l : list string) : option (list string) :=
  match l with
  | [] => None
  | y :: r =>
      if (x =? y)%string then Some r
      else match remove_one x r with
           | Some r' => Some (y :: r')
           | None => None
           end
  end.

(** [a] holds the elements of [b], each as often, in some order. *)
Fixpoint rearranges (a b : list string) : bool :=
  match a with
  | [] => match b with [] => true | _ :: _ => false end
  | x :: a' =>
      match remove_one x b with
      | Some b' => rearranges a' b'
      | None => false
      end
  end.

(** An aggregate without ORDER BY returns the values it is handed in an
    order the query does not fix.  [order] picks it; whatever it picks is
    a rearrangement of the values. *)
Definition arranged (order : list string -> list string)
    (names : list string) : list string :=
  if rearranges (order names) names then order names else names.

Record World := mkWorld {
  libs : Libs;
  db : Db;
  clock : Z;                 (* Date.now(), NOW(), CURRENT_TIMESTAMP *)
  down : table -> bool;      (* tables whose queries currently fail *)
  uuid_ctr : nat;            (* draws of uuidv4() made so far *)
  calls : list call
}.

Definition set_db (d : Db) (w : World) : World :=
  mkWorld (libs w) d (clock w) (down w) (uuid_ctr w) (calls w).

Definition set_clock (t : Z) (w : World) : World :=
  mkWorld (libs w) (db w) t (down w) (uuid_ctr w) (calls w).

Definition set_down (f : table -> bool) (w : World) : World :=
  mkWorld (libs w) (db w) (clock w) f (uuid_ctr w) (calls w).

Definition log (c : call) (w : World) : World :=
  mkWorld (libs w) (db w) (clock w) (down w) (uuid_ctr w) (calls w ++ [c]).

(** ** The monad of awaited computations *)

Definition Async (A : Type) : Type := World -> outcome A * World.

Definition ret {A} (a : A) : Async A := fun w => (Ok a, w).

Definition throw {A} (e : exn) : Async A := fun w => (Throw e, w).

Definition bind {A B} (m : Async A) (k : A -> Async B) : Async B :=
  fun w =>
    match m w with
    | (Ok a, w') => k a w'
    | (Throw e, w') => (Throw e, w')
    end.

Declare Scope async_scope.
Delimit Scope async_scope with async.
Notation "x <- m ;; k" := (bind m (fun x => k))
  (at level 100, m at next level, right associativity) : async_scope.
Notation "m ;;; k" := (bind m (fun _ => k))
  (at level 100, right associativity) : async_scope.
Local Open Scope async_scope.

(** A property of worlds kept by every run of a computation. *)
Definition stable (P : World -> Prop) {A} (m : Async A) : Prop :=
  forall w, P w -> P (snd (m w)).

(** A computation that never resolves from a world satisfying [P]. *)
Definition rejecting (P : World -> Prop) {A} (m : Async A) : Prop :=
  forall w, P w -> exists e, fst (m w) = Throw e.

(** [await pool.query(text, params)]: the call is logged; it rejects when
    a table it touches is down or a constraint fails, and otherwise applies
    the statement to the tables. *)
Definition pool_query {A} (q : stmt) (touches : list table)
    (run : Z -> Db -> exn + (A * Db)) : Async A :=
  fun w =>
    let w1 := log (PoolQuery q) w in
    match find (down w1) touches with
    | Some t => (Throw (DbError t), w1)
    | None =>
        match run (clock w1) (db w1) with
        | inl e => (Throw e, w1)
        | inr (a, d) => (Ok a, set_db d w1)
        end
    end.

(** [Date.now()]. *)
Definition date_now : Async Z := fun w => (Ok (clock w), w).

(** [try { ... } catch (error) { ... }]. *)
Definition catch {A} (m : Async A) (handler : exn -> Async A) : Async A :=
  fun w =>
    match m w with
    | (Ok a, w') => (Ok a, w')
    | (Throw e, w') => handler e w'
    end.

(** What an Express middleware does with a request: call [next()] or end
    the request with [res.status(s).json({ message })]. *)
Inductive mw_result :=
| Next
| Respond (status : Z) (message : string).

(* ================================================================== *)
(** * Module PgAuth: "Authentication System Setup" *)
(* ================================================================== *)

Module PgAuth.

(** What [verifyUser] returns: the user without the password hash. *)
Record user_public := mkPublic {
  id : Z;
  username : string
}.

(** [SELECT id, username, password_hash FROM users WHERE email = $1]. *)
Definition sql_select_user_by_email (email : string) (d : Db)
  : list user_row :=
  filter (fun u => (u_email u =? email)%string) (users d).

(** [await bcrypt.compare(password, hash)]. *)
Definition bcrypt_compare_call (password hash : string) : Async bool :=
  fun w =>
    (Ok (bcrypt_compare (libs w) password hash),
     log (BcryptCompare password hash) w).

(** [verifyUser(email, password)]. *)
Definition verifyUser (email password : string)
  : Async (option user_public) :=
  rows <- pool_query SelectUserByEmail [Users]
            (fun _ d => inr (sql_select_user_by_email email d, d)) ;;
  match rows with
  | [] => ret None                                 (* if (!user) *)
  | user :: _ =>
      passwordValid <- bcrypt_compare_call password (u_password_hash user) ;;
      if negb passwordValid then ret None
      else ret (Some (mkPublic (u_id user) (u_username user)))
  end.

(** The row [getUserWithRoles] returns. *)
Record user_with_roles := mkUserWithRoles {
  uw_id : Z;
  uw_username : string;
  uw_email : string;
  uw_created_at : Z;
  uw_last_login : option Z;
  uw_is_active : bool;
  uw_roles : list string
}.

(** [users.id] is INTEGER, and so are the columns that reference it: a
    parameter bound to one of them is refused when it lies outside
    INTEGER.  The ids the table holds are values of the column, so a
    number found there binds. *)
Definition user_id_binds (userId : Z) (d : Db) : bool :=
  int4 userId || existsb (fun u => u_id u =? userId) (users d).

(** The names joined to a user through [user_roles] and [roles], row by
    row of [user_roles]. *)
Definition role_names (userId : Z) (d : Db) : list string :=
  flat_map
    (fun ur => map r_name
                 (filter (fun r => r_id r =? ur_role_id ur) (roles d)))
    (filter (fun ur => ur_user_id ur =? userId) (user_roles d)).

(** [SELECT u.id, ..., COALESCE(json_agg(r.name) FILTER (WHERE r.name IS NOT
    NULL), '[]') AS roles FROM users u LEFT JOIN user_roles ur ... LEFT
    JOIN roles r ... WHERE u.id = $1 GROUP BY u.id]: the NULL of a row the
    joins could not complete is filtered out and a user without roles gets
    the empty array; the array of names comes in the order [order]
    gives. *)
Definition sql_select_user_with_roles (order : list string -> list string)
    (userId : Z) (d : Db) : list user_with_roles :=
  map (fun u => mkUserWithRoles (u_id u) (u_username u) (u_email u)
                  (u_created_at u) (u_last_login u) (u_is_active u)
                  (arranged order (role_names userId d)))
      (filter (fun u => u_id u =? userId) (users d)).

(** [getUserWithRoles(userId)]: [result.rows[0]], possibly undefined. *)
Definition getUserWithRoles (userId : Z) : Async (option user_with_roles) :=
  rows <- (fun w =>
             pool_query SelectUserWithRoles [Users; UserRoles; Roles]
               (fun _ d =>
                  if user_id_binds userId d then
                    inr (sql_select_user_with_roles (json_agg (libs w))
                                                    userId d, d)
                  else inl IntegerOutOfRange) w) ;;
  ret (hd_error rows).

(** [UPDATE users SET is_active = false WHERE id = $1]. *)
Definition sql_deactivate_user (userId : Z) (d : Db) : Db :=
  set_users
    (map (fun u => if u_id u =? userId then set_user_active false u else u)
         (users d)) d.

(** [deactivateUser(userId)]. *)
Definition deactivateUser (userId : Z) : Async unit :=
  pool_query UpdateUserInactive [Users]
    (fun _ d => inr (tt, sql_deactivate_user userId d)).

(** ** Session management *)

(** [uuidv4()]: the next draw of the generator. *)
Definition uuidv4_call : Async string :=
  fun w =>
    (Ok (uuidv4 (libs w) (uuid_ctr w)),
     mkWorld (libs w) (db w) (clock w) (down w) (S (uuid_ctr w))
             (calls w ++ [Uuidv4])).

(** 24 hours, the constant of [createSession]. *)
Definition SESSION_TTL : Z := 86400000.

(** What [createSession] returns. *)
Record session_handle := mkHandle {
  token : string;
  expiresAt : Z
}.

(** [INSERT INTO sessions (user_id, token, ip_address, user_agent,
    expires_at) VALUES ($1, $2, $3, $4, $5)]; [id], [created_at] and
    [is_valid] take their defaults.  [user_id] is INTEGER and must
    reference a user, [ip_address] is VARCHAR(45); [token] is
    VARCHAR(255), which the 36 characters of a UUID fit, and [user_agent]
    is TEXT. *)
Definition sql_insert_session (gen : nat -> string)
    (userId : Z) (sessionToken ipAddress userAgent : string)
    (expires : Z) (now : Z) (d : Db) : exn + (unit * Db) :=
  if negb (user_id_binds userId d) then inl IntegerOutOfRange
  else
    match varchar 45 ipAddress with
    | None => inl (StringTooLong 45)
    | Some ip =>
        if existsb (fun u => u_id u =? userId) (users d) then
          inr (tt,
               mkDb (users d) (roles d) (user_roles d)
                    (sessions d ++
                       [mkSession (gen (sessions_seq d)) userId sessionToken
                                  ip userAgent now expires true])
                    (auth_logs d) (S (sessions_seq d)))
        else inl (ForeignKeyViolation Sessions)
    end.

(** [createSession(userId, ipAddress, userAgent)]. *)
Definition createSession (userId : Z) (ipAddress userAgent : string)
  : Async session_handle :=
  sessionToken <- uuidv4_call ;;
  now <- date_now ;;
  let expires := now + SESSION_TTL in
  (fun w =>
     pool_query InsertSession [Sessions; Users]
       (sql_insert_session (gen_random_uuid (libs w)) userId sessionToken
                           ipAddress userAgent expires) w) ;;;
  ret (mkHandle sessionToken expires).

(** The row [createSession] stores when called in [w]. *)
Definition new_session_row (w : World) (userId : Z) (ip ua : string)
  : session_row :=
  mkSession (gen_random_uuid (libs w) (sessions_seq (db w))) userId
            (uuidv4 (libs w) (uuid_ctr w)) ip ua (clock w)
            (clock w + SESSION_TTL) true.

(** [SELECT s.id, s.user_id, s.expires_at, u.username, u.is_active
     FROM sessions s JOIN users u ON s.user_id = u.id
     WHERE s.token = $1 AND s.is_valid = true AND s.expires_at > NOW()]. *)
Definition sql_select_session (sessionToken : string) (now : Z) (d : Db)
  : list (session_row * user_row) :=
  flat_map
    (fun s => map (pair s)
                (filter (fun u => s_user_id s =? u_id u) (users d)))
    (filter (fun s => (s_token s =? sessionToken)%string
                      && s_is_valid s
                      && (now <? s_expires_at s))
            (sessions d)).

(** [UPDATE sessions SET is_valid = false WHERE token = $1]. *)
Definition sql_invalidate_session (sessionToken : string) (d : Db) : Db :=
  set_sessions
    (map (fun s => if (s_token s =? sessionToken)%string
                   then set_session_valid false s else s)
         (sessions d)) d.

(** [invalidateSession(sessionToken)], the logout of this design. *)
Definition invalidateSession (sessionToken : string) : Async unit :=
  pool_query UpdateSessionInvalid [Sessions]
    (fun _ d => inr (tt, sql_invalidate_session sessionToken d)).

(** What [validateSession] returns for a live session. *)
Record session_info := mkInfo {
  si_id : string;
  si_userId : Z;
  si_username : string;
  si_expiresAt : Z
}.

(** [validateSession(sessionToken)]. *)
Definition validateSession (sessionToken : string)
  : Async (option session_info) :=
  rows <- pool_query SelectSessionJoinUser [Sessions; Users]
            (fun now d => inr (sql_select_session sessionToken now d, d)) ;;
  match rows with
  | [] => ret None                          (* result.rows.length === 0 *)
  | (s, u) :: _ =>
      if negb (u_is_active u) then
        invalidateSession sessionToken ;;;
        ret None
      else
        ret (Some (mkInfo (s_id s) (s_user_id s) (u_username u)
                          (s_expires_at s)))
  end.

(** [DELETE FROM sessions WHERE expires_at < NOW() OR is_valid = false];
    the result is the statement's [rowCount]. *)
Definition sql_delete_stale_sessions (now : Z) (d : Db) : Z * Db :=
  let stale s := (s_expires_at s <? now) || negb (s_is_valid s) in
  (Z.of_nat (length (filter stale (sessions d))),
   set_sessions (filter (fun s => negb (stale s)) (sessions d)) d).

(** [cleanupSessions()], the scheduled sweep. *)
Definition cleanupSessions : Async Z :=
  pool_query DeleteStaleSessions [Sessions]
    (fun now d => inr (sql_delete_stale_sessions now d)).

(** ** Tokens, audit log and the login flow *)

(** [generateToken(user)]: [jwt.sign({id, username, roles: user.roles ||
    []}, JWT_SECRET, {expiresIn: '1h'})]; reading [user.id] of an
    undefined row is a TypeError. *)
Definition generateToken (user : option user_with_roles) : Async string :=
  match user with
  | None => throw (TypeError "Cannot read properties of undefined")
  | Some u =>
      fun w =>
        let c := mkClaims (uw_id u) (uw_username u) (uw_roles u) in
        (Ok (jwt_sign (libs w) c (clock w)), log (JwtSign c) w)
  end.

(** [user_id] of [auth_logs]: NULL, or an INTEGER that references a
    user. *)
Definition audit_user_id (userId : option Z) (d : Db) : option exn :=
  match userId with
  | None => None
  | Some z =>
      if existsb (fun u => u_id u =? z) (users d) then None
      else if int4 z then Some (ForeignKeyViolation AuthLogs)
      else Some IntegerOutOfRange
  end.

(** [INSERT INTO auth_logs (user_id, event_type, ip_address, user_agent,
    details) VALUES (...)]; [event_type] is VARCHAR(50), [ip_address]
    VARCHAR(45), [user_agent] TEXT.  A number outside INTEGER is refused
    when the parameters are bound, a value too long when the row is
    formed, a missing user when the row is stored. *)
Definition sql_insert_auth_log (userId : option Z)
    (eventType ipAddress userAgent : string)
    (details : list (string * string)) (now : Z) (d : Db)
  : exn + (unit * Db) :=
  match audit_user_id userId d with
  | Some IntegerOutOfRange => inl IntegerOutOfRange
  | refused =>
      match varchar 50 eventType, varchar 45 ipAddress with
      | None, _ => inl (StringTooLong 50)
      | _, None => inl (StringTooLong 45)
      | Some ev, Some ip =>
          match refused with
          | Some e => inl e
          | None =>
              inr (tt,
                   set_auth_logs
                     (auth_logs d ++
                        [mkAuthLog userId ev ip userAgent now details]) d)
          end
      end
  end.

(** [logAuthEvent(userId, eventType, ipAddress, userAgent, details = {})];
    [details] is the object handed to [JSON.stringify]. *)
Definition logAuthEvent (userId : option Z)
    (eventType ipAddress userAgent : string)
    (details : list (string * string)) : Async unit :=
  pool_query InsertAuthLog [AuthLogs]
    (sql_insert_auth_log userId eventType ipAddress userAgent details).

(** [UPDATE users SET last_login = CURRENT_TIMESTAMP WHERE id = $1]. *)
Definition sql_update_last_login (userId : Z) (now : Z) (d : Db) : Db :=
  set_users
    (map (fun u => if u_id u =? userId then set_user_last_login now u else u)
         (users d)) d.

(** The object [login] resolves to. *)
Inductive login_result :=
| LoginFailure (message : string)
| LoginSuccess (user : option user_with_roles) (token : string)
               (session : session_handle).

(** [login(email, password, ipAddress, userAgent)]. *)
Definition login (email password ipAddress userAgent : string)
  : Async login_result :=
  user <- verifyUser email password ;;
  match user with
  | None =>
      logAuthEvent None "failed_login" ipAddress userAgent
                   [("email", email)] ;;;
      ret (LoginFailure "Invalid credentials")
  | Some user =>
      userWithRoles <- getUserWithRoles (id user) ;;
      token <- generateToken userWithRoles ;;
      session <- createSession (id user) ipAddress userAgent ;;
      pool_query UpdateLastLogin [Users]
        (fun now d => inr (tt, sql_update_last_login (id user) now d)) ;;;
      logAuthEvent (Some (id user)) "login" ipAddress userAgent [] ;;;
      ret (LoginSuccess userWithRoles token session)
  end.

(** The user object and the signed token of a login of the row [u]. *)
Definition login_user (w : World) (u : user_row) : user_with_roles :=
  mkUserWithRoles (u_id u) (u_username u) (u_email u) (u_created_at u)
    (u_last_login u) (u_is_active u)
    (arranged (json_agg (libs w)) (role_names (u_id u) (db w))).

Definition login_claims (w : World) (u : user_row) : jwt_claims :=
  mkClaims (u_id u) (u_username u)
    (arranged (json_agg (libs w)) (role_names (u_id u) (db w))).

(** The tables a login of the row [u] leaves before its audit row is
    written: the session stored, [last_login] stamped. *)
Definition logged_in_db (w : World) (u : user_row) (stored ua : string)
  : Db :=
  mkDb (map (fun x => if u_id x =? u_id u
                      then set_user_last_login (clock w) x else x)
            (users (db w)))
       (roles (db w)) (user_roles (db w))
       (sessions (db w) ++ [new_session_row w (u_id u) stored ua])
       (auth_logs (db w)) (S (sessions_seq (db w))).

(** The password verifications among a list of calls. *)
Definition verifications (cs : list call) : list call :=
  filter (fun c => match c with BcryptCompare _ _ => true | _ => false end)
         cs.

(** ** Role middleware *)

(** [req.user], the verified JWT payload; [roles] may be absent. *)
Record principal := mkPrincipal {
  p_id : Z;
  p_username : string;
  p_roles : option (list string)
}.

(** The part of [req] the role middleware reads. *)
Record request := mkRequest {
  user : option principal
}.

(** [array.includes(x)] on strings. *)
Definition includes (rs : list string) (role : string) : bool :=
  existsb (String.eqb role) rs.

(** [authorize(requiredRoles)], applied to a request. *)
Definition authorize (requiredRoles : list string) (req : request)
  : mw_result :=
  match user req with
  | None => Respond 401 "Authentication required"
  | Some u =>
      (* requiredRoles.some(role => req.user.roles &&
                                     req.user.roles.includes(role)) *)
      let hasRole :=
        existsb (fun role =>
                   match p_roles u with
                   | Some rs => includes rs role
                   | None => false
                   end) requiredRoles in
      if negb hasRole then Respond 403 "Insufficient permissions"
      else Next
  end.

(** ** The operations as steps of a state machine *)

(** One step of the service or of its surroundings.  The last three are
    not functions of the notes: administration of the users table (for
    instance setting [is_active] back to true), time passing, and tables
    becoming unavailable or available again. *)
Inductive action :=
| CreateSession (userId : Z) (ipAddress userAgent : string)
| ValidateSession (sessionToken : string)
| InvalidateSession (sessionToken : string)
| CleanupSessions
| DeactivateUser (userId : Z)
| Login (email password ipAddress userAgent : string)
| AdminSetUsers (us : list user_row)
| Elapse (dt : N)
| Outage (f : table -> bool).

Definition run_action (a : action) (w : World) : World :=
  match a with
  | CreateSession u ip ua => snd (createSession u ip ua w)
  | ValidateSession t => snd (validateSession t w)
  | InvalidateSession t => snd (invalidateSession t w)
  | CleanupSessions => snd (cleanupSessions w)
  | DeactivateUser u => snd (deactivateUser u w)
  | Login e p ip ua => snd (login e p ip ua w)
  | AdminSetUsers us => set_db (set_users us (db w)) w
  | Elapse dt => set_clock (clock w + Z.of_N dt) w
  | Outage f => set_down f w
  end.

Definition run_actions (acts : list action) (w : World) : World :=
  fold_left (fun w a => run_action a w) acts w.

(** The users table with [is_active] of one user set back to true, as
    [AdminSetUsers] may install it. *)
Definition reactivated (userId : Z) (us : list user_row) : list user_row :=
  map (fun x => if u_id x =? userId then set_user_active true x else x) us.

(** ** Predicates the statements use *)

(** Every table the session functions read or write is available. *)
Definition db_up (w : World) : Prop :=
  forall t, down w t = false.

(** The session store is keyed by token: no two rows share one. *)
Definition token_keyed (w : World) : Prop :=
  NoDup (map s_token (sessions (db w))).

(** [users.id] is a primary key. *)
Definition users_keyed (w : World) : Prop :=
  NoDup (map u_id (users (db w))).

(** The row is past its expiry or has its validity flag cleared. *)
Definition expired_or_invalid (now : Z) (s : session_row) : Prop :=
  s_is_valid s = false \/ s_expires_at s <= now.

(** No stored row can make [tok] validate now. *)
Definition dead (tok : string) (w : World) : Prop :=
  forall s, In s (sessions (db w)) -> s_token s = tok ->
            expired_or_invalid (clock w) s.

(** [uuidv4()] does not hand out [tok] from now on. *)
Definition never_reissued (tok : string) (w : World) : Prop :=
  forall n, (uuid_ctr w <= n)%nat -> uuidv4 (libs w) n <> tok.

(** The rows of a table among which none can make [tok] validate. *)
Definition dead_rows (tok : string) (now : Z) (ss : list session_row)
  : Prop :=
  forall s, In s ss -> s_token s = tok -> expired_or_invalid now s.

(** The token is dead and stays out of the generator's future draws. *)
Definition quarantined (tok : string) (w : World) : Prop :=
  never_reissued tok w /\ dead tok w.

(** The tables that are down are exactly those of [f]. *)
Definition outage_is (f : table -> bool) (w : World) : Prop := down w = f.

(** [validateSession] hands out no session for [tok]: it resolves to
    [null] or rejects. *)
Definition rejects (tok : string) (w : World) : Prop :=
  fst (validateSession tok w) = Ok None \/
  exists e, fst (validateSession tok w) = Throw e.

End PgAuth.

(* ================================================================== *)
(** * Module SessionAuth: "Simple Authentication Server" *)
(* ================================================================== *)

Module SessionAuth.

(** A row of [users] in 01-schema.sql, which has a [role] column. *)
Record account := mkAccount {
  id : Z;
  username : string;
  email : string;
  password_hash : string;
  first_name : option string;
  last_name : option string;
  is_active : bool;
  role : string;
  created_at : Z;
  updated_at : Z
}.

(** [const { password_hash, ...userWithoutPassword } = user]. *)
Record account_public := mkAccountPublic {
  ap_id : Z;
  ap_username : string;
  ap_email : string;
  ap_first_name : option string;
  ap_last_name : option string;
  ap_is_active : bool;
  ap_role : string;
  ap_created_at : Z;
  ap_updated_at : Z
}.

Definition without_password (a : account) : account_public :=
  mkAccountPublic (id a) (username a) (email a) (first_name a) (last_name a)
                  (is_active a) (role a) (created_at a) (updated_at a).

(** [req.session]. *)
Record session_data := mkSessionData {
  userId : option Z;
  session_role : option string
}.

(** The parts of [req] the controller and the middleware read. *)
Record request := mkRequest {
  body_email : option string;
  body_password : option string;
  session : option session_data
}.

(** [res.status(s).json({ message, user })]. *)
Record response := mkResponse {
  status : Z;
  message : string;
  body_user : option account_public
}.

(** [!x] for a string that may be undefined. *)
Definition falsy (x : option string) : bool :=
  match x with
  | None => true
  | Some v => (v =? "")%string
  end.

(** [login(req, res)] of the controller.  [findByEmail] stands for
    [userService.findByEmail], whose file the notes do not show.  The
    result is the response and [req.session] as the handler leaves it. *)
Definition login (findByEmail : string -> Async (option account))
    (req : request) : Async (response * option session_data) :=
  catch
    (match body_email req, body_password req with
     | Some email, Some password =>
         if falsy (Some email) || falsy (Some password) then
           ret (mkResponse 400 "Email and password are required" None,
                session req)
         else
           user <- findByEmail email ;;
           match user with
           | None =>
               ret (mkResponse 401 "Invalid credentials" None, session req)
           | Some user =>
               if negb (is_active user) then
                 ret (mkResponse 401 "Account is inactive" None, session req)
               else
                 isPasswordValid <-
                   PgAuth.bcrypt_compare_call password (password_hash user) ;;
                 if negb isPasswordValid then
                   ret (mkResponse 401 "Invalid credentials" None,
                        session req)
                 else
                   match session req with
                   | None =>
                       throw (TypeError "Cannot set properties of undefined")
                   | Some _ =>
                       ret (mkResponse 200 "Login successful"
                              (Some (without_password user)),
                            Some (mkSessionData (Some (id user))
                                                (Some (role user))))
                   end
           end
     | _, _ =>
         ret (mkResponse 400 "Email and password are required" None,
              session req)
     end)
    (fun _ =>
       ret (mkResponse 500 "An error occurred during login" None,
            session req)).

(** [!req.session || !req.session.userId]; the number 0 is falsy. *)
Definition no_session_user (req : request) : bool :=
  match session req with
  | None => true
  | Some sd =>
      match userId sd with
      | None => true
      | Some n => n =? 0
      end
  end.

(** [isAuthenticated(req, res, next)]. *)
Definition isAuthenticated (req : request) : mw_result :=
  if no_session_user req then Respond 401 "Authentication required"
  else Next.

(** [req.session.role !== role]. *)
Definition role_differs (r : option string) (role : string) : bool :=
  match r with
  | None => true
  | Some v => negb (v =? role)%string
  end.

(** [hasRole(role)], applied to a request. *)
Definition hasRole (role : string) (req : request) : mw_result :=
  if no_session_user req then Respond 401 "Authentication required"
  else
    let r := match session req with
             | Some sd => session_role sd
             | None => None
             end in
    if role_differs r role && role_differs r "admin"
    then Respond 403 "Insufficient permissions"
    else Next.

Definition set_session (s : option session_data) (req : request) : request :=
  mkRequest (body_email req) (body_password req) s.

(** [logout(req, res)] of the controller.  [req.session.destroy] belongs to
    express-session: [destroy] gives the error it hands to its callback, if
    any, and the session the client's next request carries.  Without a
    session the call throws before it answers. *)
Definition logout (destroy : session_data -> option string * option session_data)
    (req : request) : outcome response * option session_data :=
  match session req with
  | None =>
      (Throw (TypeError "Cannot read properties of undefined"), session req)
  | Some sd =>
      match destroy sd with
      | (Some _, next) => (Ok (mkResponse 500 "Could not log out" None), next)
      | (None, next) =>
          (Ok (mkResponse 200 "Logged out successfully" None), next)
      end
  end.

(** [router.post('/logout', isAuthenticated, authController.logout)]. *)
Definition post_logout
    (destroy : session_data -> option string * option session_data)
    (req : request) : outcome response * option session_data :=
  match isAuthenticated req with
  | Next => logout destroy req
  | Respond st msg => (Ok (mkResponse st msg None), session req)
  end.

End SessionAuth.

(* ================================================================== *)
(** * The authorizer as the specification words it *)
(* ================================================================== *)

(** Following the specification's words: access is allowed when the union
    of the permissions granted by the principal's roles contains every
    required permission.  [grants] maps a role name to its permissions. *)
Definition spec_authorize (grants : string -> list string)
    (principalRoles required : list string) : bool :=
  forallb
    (fun perm =>
       existsb (fun r => PgAuth.includes (grants r) perm) principalRoles)
    required.

(* ================================================================== *)
(** * Module RateLimit: the limiters in front of the login routes *)
(* ================================================================== *)

Module RateLimit.

(** The options object handed to [rateLimit]. *)
Record options := mkOptions {
  windowMs : Z;
  max : Z;
  message : option string
}.

(** [loginLimiter] of "Authentication System Setup". *)
Definition loginLimiter : options :=
  mkOptions (15 * 60 * 1000) 5
            (Some "Too many login attempts, please try again later").

(** [authLimiter] of the middleware notes ([limit: 5]). *)
Definition authLimiter : options :=
  mkOptions (15 * 60 * 1000) 5 None.

(** The counter kept for one identity. *)
Record window := mkWindow {
  hits : Z;
  resetTime : Z
}.

Definition store : Type := string -> option window.

Definition store_set (st : store) (key : string) (wd : window) : store :=
  fun k => if (k =? key)%string then Some wd else st k.

Inductive decision :=
| Allowed
| Throttled (retryAfter : Z).

(** Modelled from the spec: the body of [rateLimit] belongs to the
    express-rate-limit package and is not in the notes.  Section 4.6 gives
    [checkAndRecord(identityKey) -> Allowed | Throttled(retryAfter)], a
    fixed-window counter per identity with a window and a max-attempts
    threshold: an attempt opens a window when the identity has none that
    is still running, is counted in the running window otherwise, and is
    throttled when the count exceeds the threshold. *)
Definition checkAndRecord (o : options) (identityKey : string) (now : Z)
    (st : store) : decision * store :=
  let opened := mkWindow 1 (now + windowMs o) in
  let wd :=
    match st identityKey with
    | Some wd =>
        if now <? resetTime wd then mkWindow (hits wd + 1) (resetTime wd)
        else opened
    | None => opened
    end in
  (if max o <? hits wd then Throttled (resetTime wd - now) else Allowed,
   store_set st identityKey wd).

(** A run of attempts by one identity, at the given times. *)
Fixpoint attempts (o : options) (identityKey : string) (times : list Z)
    (st : store) : list decision * store :=
  match times with
  | [] => ([], st)
  | t :: rest =>
      let (d, st1) := checkAndRecord o identityKey t st in
      let (ds, st2) := attempts o identityKey rest st1 in
      (d :: ds, st2)
  end.

(** The process: the limiter's counters and the world of the handlers. *)
Record App := mkApp {
  limiter_store : store;
  world : World
}.

(** [rateLimit(options)] as a middleware; [keyGenerator] names the
    identity of a request (the client IP unless configured). *)
Definition rateLimit (o : options) {Req : Type}
    (keyGenerator : Req -> string) (req : Req) (app : App)
  : mw_result * App :=
  let (d, st) := checkAndRecord o (keyGenerator req) (clock (world app))
                                (limiter_store app) in
  (match d with
   | Allowed => Next
   | Throttled _ =>
       Respond 429
         (match message o with
          | Some m => m
          | None => "Too many requests, please try again later."
          end)
   end,
   mkApp st (world app)).

(** How a request to a route ends. *)
Inductive served (Res : Type) :=
| Rejected (status : Z) (message : string)
| Handled (r : Res).
Arguments Rejected {Res} status message.
Arguments Handled {Res} r.

(** [app.post('/api/login', loginLimiter, loginHandler)]: the handler runs
    only when the limiter calls [next()]. *)
Definition app_post {Req Res : Type}
    (limiter : Req -> App -> mw_result * App)
    (handler : Req -> World -> Res * World) (req : Req) (app : App)
  : served Res * App :=
  match limiter req app with
  | (Next, app1) =>
      let (r, w) := handler req (world app1) in
      (Handled r, mkApp (limiter_store app1) w)
  | (Respond st msg, app1) => (Rejected st msg, app1)
  end.

(** Requests reaching the route one after another, each at its time. *)
Fixpoint posts {Req Res : Type}
    (limiter : Req -> App -> mw_result * App)
    (handler : Req -> World -> Res * World) (arrivals : list (Z * Req))
    (app : App) : list (served Res) * App :=
  match arrivals with
  | [] => ([], app)
  | (t, req) :: rest =>
      let (r, app1) :=
        app_post limiter handler req
                 (mkApp (limiter_store app) (set_clock t (world app))) in
      let (rs, app2) := posts limiter handler rest app1 in
      (r :: rs, app2)
  end.

(** A request answered as the limiter decided: by the handler when it was
    admitted, with 429 when it was throttled. *)
Definition answered {Res : Type} (d : decision) (r : served Res) : Prop :=
  match d with
  | Allowed => exists x : Res, r = Handled x
  | Throttled _ => exists msg : string, r = Rejected 429 msg
  end.

End RateLimit.

(* ================================================================== *)
(** * Concrete data for the examples *)
(* ================================================================== *)

Module Demo.

Import PgAuth.

Fixpoint tally (n : nat) : string :=
  match n with
  | O => EmptyString
  | S k => ("i" ++ tally k)%string
  end.

(** Stand-ins for the libraries: a hash that is the password behind a
    prefix, and identifiers numbered by strokes. *)
Definition demo_libs : Libs :=
  mkLibs (fun password hash => (hash =? "bcrypt$" ++ password)%string)
         (fun c _ => ("jwt." ++ jc_username c)%string)
         (fun n => ("uuid-" ++ tally n)%string)
         (fun n => ("row-" ++ tally n)%string)
         (fun names => rev names).

Definition alice : user_row :=
  mkUser 1 "alice" "alice@example.com" "bcrypt$Secret123!" 0 None true.

Definition bob : user_row :=
  mkUser 2 "bob" "bob@example.com" "bcrypt$hunter2" 0 None false.

Definition s_alice : session_row :=
  mkSession "row-a" 1 "tok-alice" "10.0.0.1" "curl" 1000 86401000 true.

Definition s_bob : session_row :=
  mkSession "row-b" 2 "tok-bob" "10.0.0.2" "curl" 1000 86401000 true.

Definition s_old : session_row :=
  mkSession "row-o" 1 "tok-old" "10.0.0.1" "curl" 100 500 true.

Definition demo_db : Db :=
  mkDb [alice; bob] [mkRole 1 "viewer"; mkRole 2 "admin"]
       [mkUserRole 1 1] [s_alice; s_bob; s_old] [] 0.

Definition all_up : table -> bool := fun _ => false.

Definition audit_down : table -> bool :=
  fun t => match t with AuthLogs => true | _ => false end.

Definition demo : World := mkWorld demo_libs demo_db 1000 all_up 0 [].

Definition demo_acts : list action :=
  [CleanupSessions;
   Login "alice@example.com" "Secret123!" "10.0.0.1" "curl";
   AdminSetUsers (reactivated 2 [alice; bob]);
   Elapse 5;
   ValidateSession "tok-bob"].

Definition vera : PgAuth.request :=
  PgAuth.mkRequest (Some (mkPrincipal 7 "vera" (Some ["viewer"]))).

Definition ed : PgAuth.request :=
  PgAuth.mkRequest (Some (mkPrincipal 8 "ed" (Some ["editor"]))).

(** [viewer] grants [read], nothing else is granted. *)
Definition viewer_grants (r : string) : list string :=
  if (r =? "viewer")%string then ["read"] else [].

Definition no_accounts : string -> Async (option SessionAuth.account) :=
  fun _ => ret None.

Definition carol : SessionAuth.account :=
  SessionAuth.mkAccount 3 "carol" "carol@example.com" "bcrypt$pw" None None
                        true "user" 0 0.

Definition only_carol : string -> Async (option SessionAuth.account) :=
  fun e => ret (if (e =? "carol@example.com")%string then Some carol
                else None).

Definition login_request (e p : string) : SessionAuth.request :=
  SessionAuth.mkRequest (Some e) (Some p)
                        (Some (SessionAuth.mkSessionData None None)).

(** A request of carol's session after her login. *)
Definition carol_session : SessionAuth.request :=
  SessionAuth.mkRequest None None
    (Some (SessionAuth.mkSessionData (Some 3) (Some "user"))).

(** [destroy] succeeding: the client's next request carries a session
    without a user. *)
Definition destroyed (_ : SessionAuth.session_data)
  : option string * option SessionAuth.session_data :=
  (None, Some (SessionAuth.mkSessionData None None)).

(** Six requests of one address, a millisecond apart. *)
Definition six_logins : list (Z * string) :=
  [(0, "10.0.0.9"); (1, "10.0.0.9"); (2, "10.0.0.9"); (3, "10.0.0.9");
   (4, "10.0.0.9"); (5, "10.0.0.9")].

(** The demo world a day and more later: every stored session is past its
    expiry. *)
Definition demo_later : World := set_clock 90000000 demo.

End Demo.


(* ================================================================== *)
(** * What a run of the service can do to the world *)
(* ================================================================== *)

Module Steps.

Import PgAuth.

(** [uuidv4()] was called: one more draw, one more logged call. *)
Definition drawn (w : World) : World :=
  mkWorld (libs w) (db w) (clock w) (down w) (S (uuid_ctr w))
          (calls w ++ [Uuidv4]).

(** The single effects the functions of [PgAuth] are made of.  First
    those of the functions that read and issue: a logged call, a draw of
    [uuidv4], a query that only reads, the insert of [createSession]
    (which comes with the draw of its token), the audit row and the
    [last_login] stamp. *)
Inductive issue_step : World -> World -> Prop :=
| step_log (c : call) (w : World) :
    issue_step w (log c w)
| step_draw (w : World) :
    issue_step w (drawn w)
| step_read (w : World) :
    issue_step w (set_db (db w) w)
| step_last_login (userId : Z) (w : World) :
    issue_step w
      (set_db (sql_update_last_login userId (clock w) (db w)) w)
| step_session (userId : Z) (ip ua : string) (d' : Db) (w : World) :
    sql_insert_session (gen_random_uuid (libs w)) userId
      (uuidv4 (libs w) (uuid_ctr w)) ip ua (clock w + SESSION_TTL)
      (clock w) (db w)
    = inr (tt, d') ->
    issue_step w (set_db d' (log (PoolQuery InsertSession) (drawn w)))
| step_audit (userId : option Z) (ev ip ua : string)
    (details : list (string * string)) (d' : Db) (w : World) :
    sql_insert_auth_log userId ev ip ua details (clock w) (db w)
    = inr (tt, d') ->
    issue_step w (set_db d' w).

(** Then those that take something away: a user deactivated, a token
    invalidated, the sweep. *)
Inductive revoke_step : World -> World -> Prop :=
| step_deactivate (userId : Z) (w : World) :
    revoke_step w (set_db (sql_deactivate_user userId (db w)) w)
| step_invalidate (tok : string) (w : World) :
    revoke_step w (set_db (sql_invalidate_session tok (db w)) w)
| step_sweep (w : World) :
    revoke_step w
      (set_db (snd (sql_delete_stale_sessions (clock w) (db w))) w).

Definition service_step (w w' : World) : Prop :=
  issue_step w w' \/ revoke_step w w'.

(** What the surroundings do besides: time passes, tables go down or come
    back. *)
Inductive weather_step : World -> World -> Prop :=
| step_elapse (dt : N) (w : World) :
    weather_step w (set_clock (clock w + Z.of_N dt) w)
| step_outage (f : table -> bool) (w : World) :
    weather_step w (set_down f w).

(** Administration of the users table from outside the service. *)
Inductive admin_step : World -> World -> Prop :=
| step_admin (us : list user_row) (w : World) :
    admin_step w (set_db (set_users us (db w)) w).

(** The steps of a run without outside administration, and of any run. *)
Definition own_step (w w' : World) : Prop :=
  service_step w w' \/ weather_step w w'.

Definition any_step (w w' : World) : Prop :=
  own_step w w' \/ admin_step w w'.

(** Worlds reached by finitely many steps. *)
Inductive reach (R : World -> World -> Prop) : World -> World -> Prop :=
| reach_refl (w : World) : reach R w w
| reach_then (w1 w2 w3 : World) :
    reach R w1 w2 -> R w2 w3 -> reach R w1 w3.

(** A computation whose every run is made of steps of [R]. *)
Definition stepwise (R : World -> World -> Prop) {A} (m : Async A) : Prop :=
  forall w, reach R w (snd (m w)).

(** An action other than [AdminSetUsers]. *)
Definition own_action (a : action) : Prop :=
  match a with
  | AdminSetUsers _ => False
  | _ => True
  end.

(** What the service may do to a stored user: clear [is_active], set
    [last_login]; the identity and the credentials stay. *)
Definition same_credentials (u u' : user_row) : Prop :=
  u_id u' = u_id u /\ u_username u' = u_username u /\
  u_email u' = u_email u /\ u_password_hash u' = u_password_hash u /\
  u_created_at u' = u_created_at u /\
  (u_is_active u' = true -> u_is_active u = true).

(** What the service may do to a stored session: clear [is_valid]. *)
Definition same_session (s s' : session_row) : Prop :=
  s' = s \/ s' = set_session_valid false s.

(** A session row inserted by [createSession] during a run that started
    in [w0]: its token is a draw of [uuidv4] made during the run, it was
    created during the run and lives 24 hours. *)
Definition issued_since (w0 w : World) (s : session_row) : Prop :=
  (exists n, (uuid_ctr w0 <= n < uuid_ctr w)%nat /\
             s_token s = uuidv4 (libs w0) n) /\
  clock w0 <= s_created_at s /\
  s_expires_at s = s_created_at s + SESSION_TTL.

(** What [validateSession] reads of a row its query returns. *)
Definition session_view (r : session_row * user_row)
  : session_row * string * bool :=
  (fst r, u_username (snd r), u_is_active (snd r)).

(** A computation that never rejects with a TypeError. *)
Definition no_type_error {A} (m : Async A) : Prop :=
  forall w msg, fst (m w) <> Throw (TypeError msg).

End Steps.

(* ================================================================== *)
(** * Module Password: the password policy *)
(* ================================================================== *)

Module Password.

(** A JavaScript string as the regular expression sees it: its UTF-16
    code units. *)
Definition jsstring : Type := list Z.

(** An ASCII text as a JavaScript string. *)
Fixpoint units (s : string) : jsstring :=
  match s with
  | EmptyString => []
  | String c r => Z.of_nat (nat_of_ascii c) :: units r
  end.

(** The classes [[a-z]], [[A-Z]] and [\d]. *)
Definition lower (c : Z) : bool := (97 <=? c) && (c <=? 122).
Definition upper (c : Z) : bool := (65 <=? c) && (c <=? 90).
Definition digit (c : Z) : bool := (48 <=? c) && (c <=? 57).

(** [.] without the s flag: any code unit but a line terminator (line
    feed, carriage return, line separator, paragraph separator). *)
Definition dot (c : Z) : bool :=
  negb ((c =? 10) || (c =? 13) || (c =? 8232) || (c =? 8233)).

(** The lookahead [(?=.*[class])] tried at the head of [s]: [.*] runs
    over code units matched by [.], then one of the class must follow. *)
Fixpoint lookahead (class : Z -> bool) (s : jsstring) : bool :=
  match s with
  | [] => false
  | c :: r => class c || (dot c && lookahead class r)
  end.

(** [.{n,}$] tried at the head of [s]: [.] up to the end of the input,
    at least [n] times. *)
Fixpoint dots_to_end (n : nat) (s : jsstring) : bool :=
  match s with
  | [] => match n with O => true | S _ => false end
  | c :: r => dot c && dots_to_end (Nat.pred n) r
  end.

(** [validatePassword(password)]:
    [/^(?=.*[a-z])(?=.*[A-Z])(?=.*\d).{8,}$/.test(password)]. *)
Definition validatePassword (password : jsstring) : bool :=
  lookahead lower password && lookahead upper password
  && lookahead digit password && dots_to_end 8 password.

End Password.

(* ================================================================== *)
(** * Module Bearer: the token middleware *)
(* ================================================================== *)

Module Bearer.

Import PgAuth.

(** [s.split(' ')]: the pieces between single spaces; never empty. *)
Fixpoint split_space (s : string) : list string :=
  match s with
  | EmptyString => [EmptyString]
  | String c r =>
      match split_space r with
      | [] => [String c EmptyString]
      | piece :: pieces =>
          if Ascii.eqb c " " then EmptyString :: piece :: pieces
          else String c piece :: pieces
      end
  end.

(** [s.startsWith(prefix)]. *)
Definition startsWith (s prefix : string) : bool := String.prefix prefix s.

(** What the middleware reads of a request, and [req.user] which it
    sets. *)
Record request := mkRequest {
  authorization : option string;     (* req.headers.authorization *)
  user : option principal
}.

Definition set_user (p : principal) (req : request) : request :=
  mkRequest (authorization req) (Some p).

(** The request as [authorize] reads it. *)
Definition for_authorize (req : request) : PgAuth.request :=
  PgAuth.mkRequest (user req).

(** [authenticate(req, res, next)] of "Authentication System Setup".
    [verify] stands for [verifyToken], which is [jwt.verify] with its
    exceptions turned into null; a payload that verifies is an object, so
    it is truthy.  The argument is undefined when the caller has no token
    to give. *)
Definition authenticate (verify : option string -> option principal)
    (req : request) : mw_result * request :=
  match authorization req with
  | None => (Respond 401 "Authentication required", req)
  | Some authHeader =>
      if (authHeader =? "")%string || negb (startsWith authHeader "Bearer ")
      then (Respond 401 "Authentication required", req)
      else
        let token := nth_error (split_space authHeader) 1 in
        match verify token with
        | None => (Respond 401 "Invalid or expired token", req)
        | Some payload => (Next, set_user payload req)
        end
  end.

(** [authenticateJWT(req, res, next)] of the middleware notes: no check
    of the scheme, and 403 for a token that does not verify. *)
Definition authenticateJWT (verify : option string -> option principal)
    (req : request) : mw_result * request :=
  match authorization req with
  | None => (Respond 401 "Authentication required", req)
  | Some authHeader =>
      if (authHeader =? "")%string
      then (Respond 401 "Authentication required", req)
      else
        let token := nth_error (split_space authHeader) 1 in
        match verify token with
        | None => (Respond 403 "Invalid token", req)
        | Some user => (Next, set_user user req)
        end
  end.

(** How a request to a guarded route ends. *)
Inductive routed :=
| Answered (status : Z) (message : string)
| Reached (req : request).         (* the route's handler runs on [req] *)

(** [app.get(path, m1, m2, ..., handler)]: the middleware run in order,
    each on the request the one before left, until one answers. *)
Fixpoint through (stack : list (request -> mw_result * request))
    (req : request) : routed :=
  match stack with
  | [] => Reached req
  | m :: rest =>
      match m req with
      | (Next, req') => through rest req'
      | (Respond st msg, _) => Answered st msg
      end
  end.

(** [authorize(requiredRoles)] as a member of such a stack. *)
Definition authorize_mw (requiredRoles : list string) (req : request)
  : mw_result * request :=
  (authorize requiredRoles (for_authorize req), req).

(** [app.get('/api/users', authenticate, authorize(['admin']), ...)]. *)
Definition api_users (verify : option string -> option principal)
  : request -> routed :=
  through [authenticate verify; authorize_mw ["admin"]].

(** [app.get('/api/profile', authenticate, ...)]. *)
Definition api_profile (verify : option string -> option principal)
  : request -> routed :=
  through [authenticate verify].

(** The token a well-formed header carries: what follows ["Bearer "] up
    to the next space. *)
Fixpoint until_space (s : string) : string :=
  match s with
  | EmptyString => EmptyString
  | String c r => if Ascii.eqb c " " then EmptyString
                  else String c (until_space r)
  end.

End Bearer.

(* ================================================================== *)
(** * Module Accounts: registration, password reset and role management *)
(* ================================================================== *)

Module Accounts.

Import PgAuth.

(** What the functions of this part can reject with: the errors of the
    session part, a UNIQUE or PRIMARY KEY constraint, a value longer than
    its VARCHAR(n) column, and [throw new Error(message)]. *)
Inductive failure :=
| Base (e : exn)
| UniqueViolation (constraint : string)
| ValueTooLong (n : nat)
| JsError (message : string).

Inductive result (A : Type) :=
| Done (a : A)
| Failed (f : failure).
Arguments Done {A} a.
Arguments Failed {A} f.

(** The world of the session part together with what this part needs
    besides: the columns [reset_token] and [reset_token_expires] of
    [users] and [description] of [roles], kept by the row's primary key
    ([None] is NULL), the two SERIAL sequences, and the randomness of
    [bcrypt.hash] and [crypto.randomBytes].  The columns
    [verification_token] of [users] and [granted_at] of [user_roles] are
    written with their defaults and read by no function; they are left
    out. *)
Record Vault := mkVault {
  world : World;
  reset_token : Z -> option string;
  reset_token_expires : Z -> option Z;
  description : Z -> option string;
  users_id_seq : Z;                  (* last value handed out *)
  roles_id_seq : Z;
  bcrypt_hash : string -> Z -> nat -> string;
                                     (* bcrypt.hash(text, rounds), n-th salt *)
  salts_drawn : nat;
  randomBytes_hex : nat -> string;   (* n-th randomBytes(32).toString('hex') *)
  random_drawn : nat
}.

Definition set_world (w : World) (v : Vault) : Vault :=
  mkVault w (reset_token v) (reset_token_expires v) (description v)
          (users_id_seq v) (roles_id_seq v) (bcrypt_hash v) (salts_drawn v)
          (randomBytes_hex v) (random_drawn v).

Definition Op (A : Type) : Type := Vault -> result A * Vault.

Definition done {A} (a : A) : Op A := fun v => (Done a, v).

Definition fail {A} (f : failure) : Op A := fun v => (Failed f, v).

Definition andThen {A B} (m : Op A) (k : A -> Op B) : Op B :=
  fun v =>
    match m v with
    | (Done a, v') => k a v'
    | (Failed f, v') => (Failed f, v')
    end.

(** A function of the session part, run in this part. *)
Definition lift {A} (m : Async A) : Op A :=
  fun v =>
    match m (world v) with
    | (Ok a, w) => (Done a, set_world w v)
    | (Throw e, w) => (Failed (Base e), set_world w v)
    end.

(** [await pool.query(...)] for the statements of this part: it rejects
    when a table it touches is down or a constraint fails.  The call log
    of the session part keeps no entry for these statements. *)
Definition query {A} (touches : list table)
    (run : Z -> Vault -> failure + (A * Vault)) : Op A :=
  fun v =>
    match find (down (world v)) touches with
    | Some t => (Failed (Base (DbError t)), v)
    | None =>
        match run (clock (world v)) v with
        | inl f => (Failed f, v)
        | inr (a, v') => (Done a, v')
        end
    end.

Definition set_users_of (us : list user_row) (v : Vault) : Vault :=
  set_world (set_db (set_users us (db (world v))) (world v)) v.

Definition set_user_password_hash (h : string) (u : user_row) : user_row :=
  mkUser (u_id u) (u_username u) (u_email u) h (u_created_at u)
         (u_last_login u) (u_is_active u).

(** [await bcrypt.hash(text, saltRounds)]: a new salt each call. *)
Definition bcrypt_hash_call (text : string) (saltRounds : Z) : Op string :=
  fun v =>
    (Done (bcrypt_hash v text saltRounds (salts_drawn v)),
     mkVault (world v) (reset_token v) (reset_token_expires v)
             (description v) (users_id_seq v) (roles_id_seq v)
             (bcrypt_hash v) (S (salts_drawn v)) (randomBytes_hex v)
             (random_drawn v)).

(** [crypto.randomBytes(32).toString('hex')]. *)
Definition randomBytes_call : Op string :=
  fun v =>
    (Done (randomBytes_hex v (random_drawn v)),
     mkVault (world v) (reset_token v) (reset_token_expires v)
             (description v) (users_id_seq v) (roles_id_seq v)
             (bcrypt_hash v) (salts_drawn v) (randomBytes_hex v)
             (S (random_drawn v))).


(** [INSERT INTO users (username, email, password_hash) VALUES ($1, $2,
    $3) RETURNING id].  The three values are assigned to columns of
    VARCHAR(100), VARCHAR(255) and VARCHAR(255).  The id is the next
    value of the sequence, which is spent whether or not a row that was
    formed passes the constraints; [id] is the primary key, [username] and
    [email] are UNIQUE; the other columns take their defaults. *)
Definition sql_insert_user (username email passwordHash : string)
    (now : Z) (v : Vault) : failure * Vault + Z * Vault :=
  let newId := users_id_seq v + 1 in
  let us := users (db (world v)) in
  let v1 := mkVault (world v) (reset_token v) (reset_token_expires v)
                    (description v) newId (roles_id_seq v) (bcrypt_hash v)
                    (salts_drawn v) (randomBytes_hex v) (random_drawn v) in
  match varchar 100 username, varchar 255 email, varchar 255 passwordHash
  with
  | None, _, _ => inl (ValueTooLong 100, v)
  | _, None, _ => inl (ValueTooLong 255, v)
  | _, _, None => inl (ValueTooLong 255, v)
  | Some username', Some email', Some passwordHash' =>
      if existsb (fun u => u_id u =? newId) us then
        inl (UniqueViolation "users_pkey", v1)
      else if existsb (fun u => (u_username u =? username')%string) us then
        inl (UniqueViolation "users_username_key", v1)
      else if existsb (fun u => (u_email u =? email')%string) us then
        inl (UniqueViolation "users_email_key", v1)
      else
        inr (newId,
             mkVault
               (set_db (set_users
                          (us ++ [mkUser newId username' email' passwordHash'
                                         now None true])
                          (db (world v))) (world v))
               (fun i => if i =? newId then None else reset_token v i)
               (fun i => if i =? newId then None
                         else reset_token_expires v i)
               (description v) newId (roles_id_seq v) (bcrypt_hash v)
               (salts_drawn v) (randomBytes_hex v) (random_drawn v))
  end.

(** [registerUser(username, email, password)]. *)
Definition registerUser (username email password : string) : Op Z :=
  let saltRounds := 12 in
  andThen (bcrypt_hash_call password saltRounds) (fun passwordHash =>
  fun v =>
    match find (down (world v)) [Users] with
    | Some t => (Failed (Base (DbError t)), v)
    | None =>
        match sql_insert_user username email passwordHash
                              (clock (world v)) v with
        | inl (f, v') => (Failed f, v')
        | inr (newId, v') => (Done newId, v')
        end
    end).

(** One hour, the lifetime of a reset token. *)
Definition RESET_TTL : Z := 3600000.

(** [UPDATE users SET reset_token = $1, reset_token_expires = $2
     WHERE email = $3]. *)
Definition sql_set_reset_token (resetToken : string) (expires : Z)
    (email : string) (v : Vault) : Vault :=
  let hit i := existsb (fun u => (u_id u =? i) && (u_email u =? email)%string)
                       (users (db (world v))) in
  mkVault (world v)
          (fun i => if hit i then Some resetToken else reset_token v i)
          (fun i => if hit i then Some expires else reset_token_expires v i)
          (description v) (users_id_seq v) (roles_id_seq v) (bcrypt_hash v)
          (salts_drawn v) (randomBytes_hex v) (random_drawn v).

(** [createPasswordReset(email)].  [reset_token] is VARCHAR(255). *)
Definition createPasswordReset (email : string) : Op string :=
  andThen randomBytes_call (fun resetToken =>
  andThen (lift date_now) (fun now =>
  let resetTokenExpires := now + RESET_TTL in
  andThen (query [Users]
             (fun _ v =>
                match varchar 255 resetToken with
                | Some stored =>
                    inr (tt, sql_set_reset_token stored resetTokenExpires
                               email v)
                | None => inl (ValueTooLong 255)
                end))
          (fun _ => done resetToken))).

(** [SELECT id FROM users WHERE reset_token = $1
     AND reset_token_expires > NOW()]. *)
Definition sql_select_by_reset_token (token : string) (now : Z) (v : Vault)
  : list Z :=
  map u_id
    (filter
       (fun u =>
          match reset_token v (u_id u), reset_token_expires v (u_id u) with
          | Some t, Some e => (t =? token)%string && (now <? e)
          | _, _ => false
          end)
       (users (db (world v)))).

(** [UPDATE users SET password_hash = $1, reset_token = NULL,
     reset_token_expires = NULL WHERE id = $2]. *)
Definition sql_update_password (passwordHash : string) (userId : Z)
    (v : Vault) : Vault :=
  let hit i := existsb (fun u => u_id u =? i) (users (db (world v)))
               && (i =? userId) in
  mkVault
    (set_db (set_users
               (map (fun u => if u_id u =? userId
                              then set_user_password_hash passwordHash u
                              else u)
                    (users (db (world v))))
               (db (world v))) (world v))
    (fun i => if hit i then None else reset_token v i)
    (fun i => if hit i then None else reset_token_expires v i)
    (description v) (users_id_seq v) (roles_id_seq v) (bcrypt_hash v)
    (salts_drawn v) (randomBytes_hex v) (random_drawn v).

(** What [resetPassword] resolves to. *)
Inductive reset_result :=
| ResetRefused (message : string)    (* { success: false, message } *)
| ResetDone.                         (* { success: true } *)

(** [resetPassword(token, newPassword)]. *)
Definition resetPassword (token newPassword : string) : Op reset_result :=
  andThen (query [Users]
             (fun now v => inr (sql_select_by_reset_token token now v, v)))
          (fun rows =>
  match rows with
  | [] => done (ResetRefused "Invalid or expired token")
  | userId :: _ =>
      let saltRounds := 12 in
      andThen (bcrypt_hash_call newPassword saltRounds) (fun passwordHash =>
      andThen (query [Users]
                 (fun _ v =>
                    match varchar 255 passwordHash with
                    | Some stored =>
                        inr (tt, sql_update_password stored userId v)
                    | None => inl (ValueTooLong 255)
                    end))
              (fun _ => done ResetDone))
  end).

(** [INSERT INTO roles (name, description) VALUES ($1, $2) RETURNING id];
    [name] is VARCHAR(50) and UNIQUE, [description] is TEXT. *)
Definition sql_insert_role (name : string) (descr : option string)
    (v : Vault) : failure * Vault + Z * Vault :=
  let newId := roles_id_seq v + 1 in
  let d := db (world v) in
  let v1 := mkVault (world v) (reset_token v) (reset_token_expires v)
                    (description v) (users_id_seq v) newId (bcrypt_hash v)
                    (salts_drawn v) (randomBytes_hex v) (random_drawn v) in
  match varchar 50 name with
  | None => inl (ValueTooLong 50, v)
  | Some name' =>
      if existsb (fun r => r_id r =? newId) (roles d) then
        inl (UniqueViolation "roles_pkey", v1)
      else if existsb (fun r => (r_name r =? name')%string) (roles d) then
        inl (UniqueViolation "roles_name_key", v1)
      else
        inr (newId,
             mkVault
               (set_db (mkDb (users d) (roles d ++ [mkRole newId name'])
                             (user_roles d) (sessions d) (auth_logs d)
                             (sessions_seq d)) (world v))
               (reset_token v) (reset_token_expires v)
               (fun i => if i =? newId then descr else description v i)
               (users_id_seq v) newId (bcrypt_hash v) (salts_drawn v)
               (randomBytes_hex v) (random_drawn v))
  end.

(** [createRole(name, description)]. *)
Definition createRole (name : string) (descr : option string) : Op Z :=
  fun v =>
    match find (down (world v)) [Roles] with
    | Some t => (Failed (Base (DbError t)), v)
    | None =>
        match sql_insert_role name descr v with
        | inl (f, v') => (Failed f, v')
        | inr (newId, v') => (Done newId, v')
        end
    end.

(** [INSERT INTO user_roles (user_id, role_id) VALUES ($1, $2)
     ON CONFLICT DO NOTHING]: a pair already there is skipped; a new pair
    must reference a user and a role. *)
Definition sql_insert_user_role (userId roleId : Z) (v : Vault)
  : failure + (unit * Vault) :=
  let d := db (world v) in
  if existsb (fun ur => (ur_user_id ur =? userId) && (ur_role_id ur =? roleId))
             (user_roles d)
  then inr (tt, v)
  else if negb (existsb (fun u => u_id u =? userId) (users d)) then
    inl (Base (ForeignKeyViolation UserRoles))
  else if negb (existsb (fun r => r_id r =? roleId) (roles d)) then
    inl (Base (ForeignKeyViolation UserRoles))
  else
    inr (tt,
         set_world
           (set_db (mkDb (users d) (roles d)
                         (user_roles d ++ [mkUserRole userId roleId])
                         (sessions d) (auth_logs d) (sessions_seq d))
                   (world v)) v).

(** [assignRole(userId, roleName)]. *)
Definition assignRole (userId : Z) (roleName : string) : Op unit :=
  andThen (query [Roles]
             (fun _ v =>
                inr (map r_id
                         (filter (fun r => (r_name r =? roleName)%string)
                                 (roles (db (world v)))), v)))
          (fun roleResult =>
  match roleResult with
  | [] => fail (JsError ("Role " ++ roleName ++ " not found"))
  | roleId :: _ =>
      query [UserRoles; Users; Roles]
            (fun _ v => sql_insert_user_role userId roleId v)
  end).

(** Time passing between two calls. *)
Definition later (dt : Z) (v : Vault) : Vault :=
  set_world (set_clock (clock (world v) + dt) (world v)) v.

(** Every user has an id, a username and an email of its own. *)
Definition users_unique (v : Vault) : Prop :=
  NoDup (map u_id (users (db (world v))))
  /\ NoDup (map u_username (users (db (world v))))
  /\ NoDup (map u_email (users (db (world v)))).

End Accounts.

(* ================================================================== *)
(** * Module Samples: concrete data for the later parts *)
(* ================================================================== *)

Module Samples.

Import PgAuth.
Import Demo.

(** A run of the service alone: no outside administration. *)
Definition own_acts : list action :=
  [CleanupSessions;
   Login "alice@example.com" "Secret123!" "10.0.0.1" "curl";
   DeactivateUser 2;
   Elapse 5;
   ValidateSession "tok-bob"].

(** What alice's login resolves to in the demo world. *)
Definition alice_login : login_result :=
  match fst (login "alice@example.com" "Secret123!" "10.0.0.1" "curl" demo)
  with
  | Ok r => r
  | Throw _ => LoginFailure EmptyString
  end.

(** The demo world with the columns, sequences and randomness of the
    accounts part; the hash is the one [demo_libs] verifies. *)
Definition vault : Accounts.Vault :=
  Accounts.mkVault demo (fun _ => None) (fun _ => None) (fun _ => None) 2 2
    (fun text _ _ => ("bcrypt$" ++ text)%string) 0
    (fun n => ("hex-" ++ tally n)%string) 0.

(** A verifier that knows one token, of an administrator. *)
Definition root : principal := mkPrincipal 1 "alice" (Some ["admin"]).

Definition verify_good (t : option string) : option principal :=
  match t with
  | Some s => if (s =? "good")%string then Some root else None
  | None => None
  end.

Definition bearer_good : Bearer.request :=
  Bearer.mkRequest (Some "Bearer good") None.

Definition bearer_bad : Bearer.request :=
  Bearer.mkRequest (Some "Bearer stale") None.

Definition basic_good : Bearer.request :=
  Bearer.mkRequest (Some "Basic good") None.

(** An address of 46 characters. *)
Definition long_address : string :=
  "1234567890123456789012345678901234567890123456".

(** The demo world with alice assigned both roles. *)
Definition staffed : World :=
  set_db (mkDb [alice; bob] [mkRole 1 "viewer"; mkRole 2 "admin"]
               [mkUserRole 1 1; mkUserRole 1 2] [s_alice; s_bob; s_old] [] 0)
         demo.

End Samples.

(* ================================================================== *)
(** * Properties *)
(* ================================================================== *)

Import PgAuth.

(** ** The monad and [pool.query] *)

Lemma pool_query_eq {A} (q : stmt) (touches : list table)
    (run : Z -> Db -> exn + (A * Db)) (w : World) :
  pool_query q touches run w =
  match find (down w) touches with
  | Some t => (Throw (DbError t), log (PoolQuery q) w)
  | None =>
      match run (clock w) (db w) with
      | inl e => (Throw e, log (PoolQuery q) w)
      | inr (a, d) => (Ok a, set_db d (log (PoolQuery q) w))
      end
  end.
Proof. reflexivity. Qed.

(** ** Column types *)

Lemma varchar_fits (n : nat) (s : string) :
  fits n s = true -> varchar n s = Some s.
Proof. intros H. unfold varchar. rewrite H. reflexivity. Qed.

Lemma user_id_binds_stored (userId : Z) (d : Db) :
  existsb (fun u => u_id u =? userId) (users d) = true ->
  user_id_binds userId d = true.
Proof. intros H. unfold user_id_binds. rewrite H. apply orb_true_r. Qed.

(** What an insert of [createSession] yields when it succeeds. *)
Lemma insert_session_inr gen userId tok ip ua exp now d a d' :
  sql_insert_session gen userId tok ip ua exp now d = inr (a, d') ->
  exists stored : string,
    varchar 45 ip = Some stored
    /\ existsb (fun u => u_id u =? userId) (users d) = true
    /\ d' = mkDb (users d) (roles d) (user_roles d)
                 (sessions d ++ [mkSession (gen (sessions_seq d)) userId tok
                                           stored ua now exp true])
                 (auth_logs d) (S (sessions_seq d)).
Proof.
  unfold sql_insert_session.
  destruct (negb (user_id_binds userId d)); [discriminate|].
  destruct (varchar 45 ip) as [stored|]; [|discriminate].
  destruct (existsb _ _) eqn:Ex; [|discriminate].
  intros E. injection E as _ <-. exists stored. auto.
Qed.

Lemma insert_session_stored gen userId tok ip stored ua exp now d :
  varchar 45 ip = Some stored ->
  existsb (fun u => u_id u =? userId) (users d) = true ->
  sql_insert_session gen userId tok ip ua exp now d
  = inr (tt, mkDb (users d) (roles d) (user_roles d)
                  (sessions d ++ [mkSession (gen (sessions_seq d)) userId tok
                                            stored ua now exp true])
                  (auth_logs d) (S (sessions_seq d))).
Proof.
  intros Hv Hex. unfold sql_insert_session.
  rewrite (user_id_binds_stored _ _ Hex), Hv, Hex. reflexivity.
Qed.

(** What an insert of [logAuthEvent] yields when it succeeds. *)
Lemma insert_auth_log_inr userId ev ip ua details now d a d' :
  sql_insert_auth_log userId ev ip ua details now d = inr (a, d') ->
  exists ev' ip' : string,
    varchar 50 ev = Some ev' /\ varchar 45 ip = Some ip'
    /\ audit_user_id userId d = None
    /\ d' = set_auth_logs
              (auth_logs d ++ [mkAuthLog userId ev' ip' ua now details]) d.
Proof.
  unfold sql_insert_auth_log.
  destruct (audit_user_id userId d) as [[| | | |]|];
    destruct (varchar 50 ev) as [ev'|]; try discriminate;
    destruct (varchar 45 ip) as [ip'|]; try discriminate.
  intros E. injection E as _ <-. exists ev', ip'. auto.
Qed.

Lemma insert_auth_log_stored userId ev ev' ip ip' ua details now d :
  varchar 50 ev = Some ev' -> varchar 45 ip = Some ip' ->
  audit_user_id userId d = None ->
  sql_insert_auth_log userId ev ip ua details now d
  = inr (tt, set_auth_logs
               (auth_logs d ++ [mkAuthLog userId ev' ip' ua now details]) d).
Proof.
  intros H1 H2 H3. unfold sql_insert_auth_log. rewrite H3, H1, H2.
  reflexivity.
Qed.

Ltac insert_cases :=
  repeat match goal with
         | E : sql_insert_session _ _ _ _ _ _ _ _ = inr _ |- _ =>
             apply insert_session_inr in E;
             destruct E as [? [? [? ?]]]; subst
         | E : sql_insert_auth_log _ _ _ _ _ _ _ = inr _ |- _ =>
             apply insert_auth_log_inr in E;
             destruct E as [? [? [? [? [? ?]]]]]; subst
         end.

Lemma find_down_up (w : World) (touches : list table) :
  db_up w -> find (down w) touches = None.
Proof.
  intros Hup. induction touches as [|t ts IH]; simpl; [reflexivity|].
  rewrite (Hup t). exact IH.
Qed.

Lemma stable_ret (P : World -> Prop) {A} (a : A) : stable P (ret a).
Proof. intros w H. exact H. Qed.

Lemma stable_throw (P : World -> Prop) {A} (e : exn) :
  stable P (@throw A e).
Proof. intros w H. exact H. Qed.

Lemma stable_bind (P : World -> Prop) {A B} (m : Async A)
    (k : A -> Async B) :
  stable P m -> (forall a, stable P (k a)) -> stable P (bind m k).
Proof.
  intros Hm Hk w H. unfold bind.
  specialize (Hm w H). destruct (m w) as [[a|e] w']; simpl in *.
  - apply Hk. exact Hm.
  - exact Hm.
Qed.

(** ** Rows that cannot validate *)

Lemma dead_rows_filter tok now f ss :
  dead_rows tok now ss -> dead_rows tok now (filter f ss).
Proof.
  intros H s Hin. apply filter_In in Hin. apply H. tauto.
Qed.

Lemma dead_rows_invalidate tok tok' now ss :
  dead_rows tok now ss ->
  dead_rows tok now
    (map (fun s => if (s_token s =? tok')%string
                   then set_session_valid false s else s) ss).
Proof.
  intros H s Hin Htok. apply in_map_iff in Hin.
  destruct Hin as [s0 [Heq Hin0]].
  destruct (s_token s0 =? tok')%string; subst s.
  - left. reflexivity.
  - apply H; assumption.
Qed.

Lemma dead_rows_snoc tok now ss s :
  dead_rows tok now ss -> s_token s <> tok ->
  dead_rows tok now (ss ++ [s]).
Proof.
  intros H Hne s' Hin Htok. apply in_app_or in Hin.
  destruct Hin as [Hin|[Heq|[]]].
  - apply H; assumption.
  - subst s'. contradiction.
Qed.

Lemma dead_rows_later tok now now' ss :
  now <= now' -> dead_rows tok now ss -> dead_rows tok now' ss.
Proof.
  intros Hle H s Hin Htok. destruct (H s Hin Htok) as [Hv|He].
  - left. exact Hv.
  - right. lia.
Qed.

(** No row of a dead token passes the WHERE clause of [validateSession]. *)
Lemma dead_rows_select tok now (d : Db) :
  dead_rows tok now (sessions d) -> sql_select_session tok now d = [].
Proof.
  intros H. unfold sql_select_session.
  assert (Hf : filter
                 (fun s => (s_token s =? tok)%string && s_is_valid s
                           && (now <? s_expires_at s)) (sessions d) = []).
  { revert H. induction (sessions d) as [|s ss IH]; intros H; simpl.
    - reflexivity.
    - rewrite IH by (intros s' Hin; apply H; right; exact Hin).
      destruct (String.eqb_spec (s_token s) tok) as [Heq|Hne]; simpl.
      + destruct (H s (or_introl eq_refl) Heq) as [Hv|He].
        * rewrite Hv. reflexivity.
        * destruct (s_is_valid s); simpl; [|reflexivity].
          destruct (Z.ltb_spec now (s_expires_at s)); [lia|reflexivity].
      + reflexivity. }
  rewrite Hf. reflexivity.
Qed.

Lemma quarantined_step tok (w w' : World) :
  libs w' = libs w ->
  clock w <= clock w' ->
  (uuid_ctr w <= uuid_ctr w')%nat ->
  (dead_rows tok (clock w) (sessions (db w)) ->
   dead_rows tok (clock w) (sessions (db w'))) ->
  quarantined tok w -> quarantined tok w'.
Proof.
  intros Hl Hc Hu Hs [Hn Hd]. split.
  - intros n Hle. rewrite Hl. apply Hn. lia.
  - unfold dead. apply (dead_rows_later tok (clock w)); [exact Hc|].
    apply Hs. exact Hd.
Qed.

Lemma quarantined_log tok c w :
  quarantined tok w -> quarantined tok (log c w).
Proof.
  apply quarantined_step; simpl; try reflexivity; try lia; auto.
Qed.

(** A statement keeps the quarantine when it keeps dead rows dead. *)
Lemma stable_pool_query tok {A} (q : stmt) (touches : list table)
    (run : Z -> Db -> exn + (A * Db)) :
  (forall now now' d a d',
      run now d = inr (a, d') ->
      dead_rows tok now' (sessions d) -> dead_rows tok now' (sessions d')) ->
  stable (quarantined tok) (pool_query q touches run).
Proof.
  intros Hrun w H. rewrite pool_query_eq.
  destruct (find (down w) touches); [apply quarantined_log; exact H|].
  destruct (run (clock w) (db w)) as [e|[a d]] eqn:E;
    [apply quarantined_log; exact H|].
  simpl. revert H.
  apply quarantined_step; simpl; try reflexivity; try lia.
  apply (Hrun _ _ _ _ _ E).
Qed.

Lemma stable_bcrypt tok p h :
  stable (quarantined tok) (bcrypt_compare_call p h).
Proof. intros w H. apply quarantined_log. exact H. Qed.

Lemma stable_verifyUser tok email password :
  stable (quarantined tok) (verifyUser email password).
Proof.
  unfold verifyUser. apply stable_bind.
  - apply stable_pool_query. intros now now' d a d' E. injection E as _ <-.
    auto.
  - intros [|u rows]; [apply stable_ret|].
    apply stable_bind; [apply stable_bcrypt|].
    intros b. destruct (negb b); apply stable_ret.
Qed.

Lemma stable_getUserWithRoles tok userId :
  stable (quarantined tok) (getUserWithRoles userId).
Proof.
  unfold getUserWithRoles. apply stable_bind.
  - intros w. apply stable_pool_query. intros now now' d a d' E.
    destruct (user_id_binds userId d); [|discriminate].
    injection E as _ <-. auto.
  - intros rows. apply stable_ret.
Qed.

Lemma stable_generateToken tok u :
  stable (quarantined tok) (generateToken u).
Proof.
  destruct u as [u|]; simpl.
  - intros w H. apply quarantined_log. exact H.
  - apply stable_throw.
Qed.

Lemma stable_deactivateUser tok userId :
  stable (quarantined tok) (deactivateUser userId).
Proof.
  apply stable_pool_query. intros now now' d a d' E. injection E as _ <-.
  auto.
Qed.

Lemma stable_invalidateSession tok tok' :
  stable (quarantined tok) (invalidateSession tok').
Proof.
  apply stable_pool_query. intros now now' d a d' E. injection E as _ <-.
  simpl. apply dead_rows_invalidate.
Qed.

Lemma stable_cleanupSessions tok :
  stable (quarantined tok) cleanupSessions.
Proof.
  apply stable_pool_query. intros now now' d a d' E.
  unfold sql_delete_stale_sessions in E. injection E as _ <-.
  simpl. apply dead_rows_filter.
Qed.

Lemma stable_logAuthEvent tok userId ev ip ua details :
  stable (quarantined tok) (logAuthEvent userId ev ip ua details).
Proof.
  apply stable_pool_query. intros now now' d a d' E. insert_cases. auto.
Qed.

Lemma stable_validateSession tok tok' :
  stable (quarantined tok) (validateSession tok').
Proof.
  unfold validateSession. apply stable_bind.
  - apply stable_pool_query. intros now now' d a d' E. injection E as _ <-.
    auto.
  - intros [|[s u] rows]; [apply stable_ret|].
    destruct (negb (u_is_active u)); [|apply stable_ret].
    apply stable_bind; [apply stable_invalidateSession|].
    intros _. apply stable_ret.
Qed.

Lemma stable_createSession tok userId ip ua :
  stable (quarantined tok) (createSession userId ip ua).
Proof.
  intros w H. unfold createSession, bind, uuidv4_call, date_now. simpl.
  set (w1 := mkWorld (libs w) (db w) (clock w) (down w) (S (uuid_ctr w))
                     (calls w ++ [Uuidv4])).
  assert (H1 : quarantined tok w1).
  { revert H. apply quarantined_step; simpl; try reflexivity; try lia; auto. }
  assert (Hne : uuidv4 (libs w) (uuid_ctr w) <> tok).
  { destruct H as [Hn _]. apply Hn. lia. }
  pose proof (stable_pool_query tok InsertSession [Sessions; Users]
                (sql_insert_session (gen_random_uuid (libs w1)) userId
                   (uuidv4 (libs w) (uuid_ctr w)) ip ua
                   (clock w + SESSION_TTL))) as Hq.
  assert (Hrun : forall now now' d (a : unit) d',
             sql_insert_session (gen_random_uuid (libs w1)) userId
               (uuidv4 (libs w) (uuid_ctr w)) ip ua (clock w + SESSION_TTL)
               now d = inr (a, d') ->
             dead_rows tok now' (sessions d) ->
             dead_rows tok now' (sessions d')).
  { intros now now' d a d' E. insert_cases. simpl.
    intros Hd. apply dead_rows_snoc; [exact Hd|exact Hne]. }
  specialize (Hq Hrun w1 H1).
  destruct (pool_query InsertSession [Sessions; Users] _ w1) as [[a|e] w2];
    exact Hq.
Qed.

Lemma stable_login tok email password ip ua :
  stable (quarantined tok) (login email password ip ua).
Proof.
  unfold login. apply stable_bind; [apply stable_verifyUser|].
  intros [u|].
  - apply stable_bind; [apply stable_getUserWithRoles|]. intros uw.
    apply stable_bind; [apply stable_generateToken|]. intros jwt.
    apply stable_bind; [apply stable_createSession|]. intros sess.
    apply stable_bind.
    { apply stable_pool_query. intros now now' d a d' E.
      injection E as _ <-. auto. }
    intros _. apply stable_bind; [apply stable_logAuthEvent|].
    intros _. apply stable_ret.
  - apply stable_bind; [apply stable_logAuthEvent|].
    intros _. apply stable_ret.
Qed.

Lemma run_action_quarantined tok a w :
  quarantined tok w -> quarantined tok (run_action a w).
Proof.
  destruct a; simpl.
  - apply stable_createSession.
  - apply stable_validateSession.
  - apply stable_invalidateSession.
  - apply stable_cleanupSessions.
  - apply stable_deactivateUser.
  - apply stable_login.
  - apply quarantined_step; simpl; try reflexivity; try lia; auto.
  - apply quarantined_step; simpl; try reflexivity; try lia; auto.
  - apply quarantined_step; simpl; try reflexivity; try lia; auto.
Qed.

Lemma run_actions_quarantined tok acts w :
  quarantined tok w -> quarantined tok (run_actions acts w).
Proof.
  revert w. induction acts as [|a acts IH]; intros w H; simpl.
  - exact H.
  - apply IH. apply run_action_quarantined. exact H.
Qed.

(** What [validateSession] does with a dead token. *)
Lemma validateSession_dead tok w :
  dead tok w ->
  validateSession tok w =
  match find (down w) [Sessions; Users] with
  | Some t => (Throw (DbError t), log (PoolQuery SelectSessionJoinUser) w)
  | None => (Ok None, log (PoolQuery SelectSessionJoinUser) w)
  end.
Proof.
  intros H. unfold validateSession, bind. rewrite pool_query_eq.
  destruct (find (down w) [Sessions; Users]); [reflexivity|].
  rewrite (dead_rows_select tok (clock w) (db w) H). reflexivity.
Qed.

Lemma dead_rejects tok w : dead tok w -> rejects tok w.
Proof.
  intros H. unfold rejects. rewrite (validateSession_dead tok w H).
  destruct (find (down w) [Sessions; Users]) as [t|]; simpl.
  - right. eexists. reflexivity.
  - left. reflexivity.
Qed.

Lemma dead_up_null tok w :
  dead tok w -> db_up w -> fst (validateSession tok w) = Ok None.
Proof.
  intros H Hup. rewrite (validateSession_dead tok w H).
  rewrite (find_down_up w _ Hup). reflexivity.
Qed.

(** ** Keyed tables *)

Lemma filter_keyed {A K} (f : A -> K) (p : A -> bool) (l : list A) (x : A) :
  NoDup (map f l) -> In x l -> p x = true ->
  (forall y, In y l -> p y = true -> f y = f x) ->
  filter p l = [x].
Proof.
  induction l as [|a l IH]; intros Hnd Hin Hpx Hkey; [destruct Hin|].
  simpl in Hnd. apply NoDup_cons_iff in Hnd. destruct Hnd as [Hna Hnd].
  assert (Hnone : forall l', (forall y, In y l' -> p y = true -> False) ->
                             filter p l' = []).
  { induction l' as [|b l' IH']; intros Hno; simpl; [reflexivity|].
    destruct (p b) eqn:Eb.
    - exfalso. apply (Hno b); [left; reflexivity|exact Eb].
    - apply IH'. intros y Hy. apply Hno. right. exact Hy. }
  simpl. destruct Hin as [Heq|Hin].
  - subst a. rewrite Hpx. f_equal. apply Hnone.
    intros y Hy Hpy. apply Hna. rewrite <- (Hkey y (or_intror Hy) Hpy).
    apply in_map. exact Hy.
  - destruct (p a) eqn:Ea.
    + exfalso. apply Hna. rewrite (Hkey a (or_introl eq_refl) Ea).
      apply in_map. exact Hin.
    + apply IH; auto. intros y Hy. apply Hkey. right. exact Hy.
Qed.

Lemma keyed_same_row {A K} (f : A -> K) (l : list A) (x y : A) :
  NoDup (map f l) -> In x l -> In y l -> f y = f x -> y = x.
Proof.
  induction l as [|a l IH]; intros Hnd Hx Hy Hf; [destruct Hx|].
  simpl in Hnd. apply NoDup_cons_iff in Hnd. destruct Hnd as [Hna Hnd].
  destruct Hx as [Hx|Hx], Hy as [Hy|Hy]; subst.
  - reflexivity.
  - exfalso. apply Hna. rewrite <- Hf. apply in_map. exact Hy.
  - exfalso. apply Hna. rewrite Hf. apply in_map. exact Hx.
  - apply IH; assumption.
Qed.

(** With tokens as keys, a dead row means a dead token. *)
Lemma keyed_dead (w : World) (s : session_row) :
  token_keyed w -> In s (sessions (db w)) ->
  expired_or_invalid (clock w) s -> dead (s_token s) w.
Proof.
  intros Hk Hin Hd s' Hin' Htok.
  rewrite (keyed_same_row s_token _ s s' Hk Hin Hin' Htok). exact Hd.
Qed.

(** The one row the query of [validateSession] returns for a live row. *)
Lemma select_live (w : World) (s : session_row) (u : user_row) :
  token_keyed w -> users_keyed w ->
  In s (sessions (db w)) -> In u (users (db w)) ->
  u_id u = s_user_id s ->
  s_is_valid s = true -> clock w < s_expires_at s ->
  sql_select_session (s_token s) (clock w) (db w) = [(s, u)].
Proof.
  intros Hk Hu Hs Hin Hid Hv Hlt. unfold sql_select_session.
  rewrite (filter_keyed s_token _ (sessions (db w)) s Hk Hs).
  - simpl. rewrite (filter_keyed u_id _ (users (db w)) u Hu Hin).
    + reflexivity.
    + apply Z.eqb_eq. symmetry. exact Hid.
    + intros y _ Hy. apply Z.eqb_eq in Hy. congruence.
  - rewrite String.eqb_refl, Hv. simpl. apply Z.ltb_lt. exact Hlt.
  - intros y _ Hy. apply andb_prop in Hy. destruct Hy as [Hy _].
    apply andb_prop in Hy. destruct Hy as [Hy _].
    apply String.eqb_eq. exact Hy.
Qed.

(** The outcome of [validateSession] in terms of the tables. *)
Lemma validateSession_result (tok : string) (w : World) :
  fst (validateSession tok w) =
  match find (down w) [Sessions; Users] with
  | Some t => Throw (DbError t)
  | None =>
      match sql_select_session tok (clock w) (db w) with
      | [] => Ok None
      | (s, u) :: _ =>
          if negb (u_is_active u) then
            match find (down w) [Sessions] with
            | Some t => Throw (DbError t)
            | None => Ok None
            end
          else Ok (Some (mkInfo (s_id s) (s_user_id s) (u_username u)
                                (s_expires_at s)))
      end
  end.
Proof.
  unfold validateSession, bind. rewrite pool_query_eq.
  destruct (find (down w) [Sessions; Users]); [reflexivity|].
  destruct (sql_select_session tok (clock w) (db w)) as [|[s u] rows];
    [reflexivity|].
  simpl. destruct (negb (u_is_active u)); [|reflexivity].
  unfold invalidateSession. rewrite pool_query_eq. simpl.
  destruct (down w Sessions); reflexivity.
Qed.

Lemma filter_filter_implied {A} (p q : A -> bool) (l : list A) :
  (forall x, p x = true -> q x = true) ->
  filter p (filter q l) = filter p l.
Proof.
  intros H. induction l as [|a l IH]; simpl; [reflexivity|].
  destruct (q a) eqn:Eq; simpl.
  - rewrite IH. reflexivity.
  - destruct (p a) eqn:Ep; [|exact IH].
    rewrite (H a Ep) in Eq. discriminate.
Qed.

(** The rows the sweep deletes are rows the query never returns. *)
Lemma select_after_sweep (tok : string) (now : Z) (d : Db) :
  sql_select_session tok now (snd (sql_delete_stale_sessions now d)) =
  sql_select_session tok now d.
Proof.
  unfold sql_select_session, sql_delete_stale_sessions. simpl.
  rewrite filter_filter_implied; [reflexivity|].
  intros s Hs. apply andb_prop in Hs. destruct Hs as [Hs Hlt].
  apply andb_prop in Hs. destruct Hs as [_ Hv].
  rewrite Hv. simpl. rewrite orb_false_r. apply negb_true_iff.
  apply Z.ltb_lt in Hlt. apply Z.ltb_ge. lia.
Qed.

Lemma sweep_keeps_outcome (tok : string) (w : World) :
  fst (validateSession tok (snd (cleanupSessions w))) =
  fst (validateSession tok w).
Proof.
  rewrite !validateSession_result.
  unfold cleanupSessions. rewrite pool_query_eq. simpl.
  destruct (down w Sessions) eqn:Ed; simpl.
  - rewrite Ed. reflexivity.
  - pose proof (select_after_sweep tok (clock w) (db w)) as Hs.
    simpl in Hs. rewrite Ed, Hs. reflexivity.
Qed.

(** ** [createSession] *)

Lemma createSession_up (w : World) (userId : Z) (ip stored ua : string) :
  down w Sessions = false -> down w Users = false ->
  varchar 45 ip = Some stored ->
  (exists u, In u (users (db w)) /\ u_id u = userId) ->
  exists w1,
    createSession userId ip ua w =
      (Ok (mkHandle (uuidv4 (libs w) (uuid_ctr w)) (clock w + SESSION_TTL)),
       w1)
    /\ sessions (db w1)
       = sessions (db w) ++ [new_session_row w userId stored ua]
    /\ users (db w1) = users (db w)
    /\ clock w1 = clock w /\ down w1 = down w /\ libs w1 = libs w
    /\ uuid_ctr w1 = S (uuid_ctr w).
Proof.
  intros HupS HupU Hip [u [Hin Hid]].
  unfold createSession, bind, uuidv4_call, date_now. simpl.
  rewrite pool_query_eq. simpl. rewrite HupS, HupU.
  assert (He : existsb (fun u0 => u_id u0 =? userId) (users (db w)) = true).
  { apply existsb_exists. exists u. split; [exact Hin|].
    apply Z.eqb_eq. exact Hid. }
  rewrite (insert_session_stored _ _ _ _ _ _ _ _ _ Hip He).
  eexists. split; [reflexivity|].
  simpl. repeat split; reflexivity.
Qed.

Lemma validateSession_live (w : World) (s : session_row) (u : user_row) :
  db_up w -> token_keyed w -> users_keyed w ->
  In s (sessions (db w)) -> In u (users (db w)) ->
  u_id u = s_user_id s ->
  s_is_valid s = true -> clock w < s_expires_at s ->
  u_is_active u = true ->
  fst (validateSession (s_token s) w) =
  Ok (Some (mkInfo (s_id s) (s_user_id s) (u_username u) (s_expires_at s))).
Proof.
  intros Hup Hk Hu Hs Hin Hid Hv Hlt Ha.
  rewrite validateSession_result, (find_down_up w _ Hup).
  rewrite (select_live w s u Hk Hu Hs Hin Hid Hv Hlt).
  rewrite Ha. reflexivity.
Qed.

(** ** Logout *)

Lemma invalidateSession_ok (tok : string) (w0 w : World) :
  invalidateSession tok w0 = (Ok tt, w) ->
  w = set_db (sql_invalidate_session tok (db w0))
             (log (PoolQuery UpdateSessionInvalid) w0).
Proof.
  unfold invalidateSession. rewrite pool_query_eq. simpl.
  destruct (down w0 Sessions); intros E; [discriminate|].
  injection E as <-. reflexivity.
Qed.

Lemma invalidated_rows (tok : string) (d : Db) (s : session_row) :
  In s (sessions (sql_invalidate_session tok d)) -> s_token s = tok ->
  s_is_valid s = false.
Proof.
  simpl. intros Hin Htok. apply in_map_iff in Hin.
  destruct Hin as [s0 [Heq Hin]].
  destruct (String.eqb_spec (s_token s0) tok) as [E|E]; subst s.
  - reflexivity.
  - contradiction.
Qed.

Lemma invalidateSession_dead (tok : string) (w0 w : World) :
  invalidateSession tok w0 = (Ok tt, w) -> dead tok w.
Proof.
  intros E. rewrite (invalidateSession_ok tok w0 w E).
  intros s Hin Htok. left. apply (invalidated_rows tok (db w0)); assumption.
Qed.

Lemma quarantined_rejects (tok : string) (w : World) (acts : list action) :
  quarantined tok w ->
  rejects tok (run_actions acts w) /\
  (db_up (run_actions acts w) ->
   fst (validateSession tok (run_actions acts w)) = Ok None).
Proof.
  intros H. destruct (run_actions_quarantined tok acts w H) as [_ Hd].
  split; [apply dead_rejects; exact Hd|apply dead_up_null; exact Hd].
Qed.

(** C1.  A session that is expired (the clock has reached its expiry time)
    or marked invalid never validates again: whatever the service and its
    surroundings do afterwards -- new sessions and logins, sweeps by
    [cleanupSessions] or none, users deactivated or reactivated, time
    passing, outages -- [validateSession] on its token resolves to [null]
    (or rejects while a table is down), and to [null] whenever the tables
    are up.  In particular this holds from the moment
    [invalidateSession], the logout, has returned for the token.  Tokens
    are the keys of the session table, and [uuidv4] does not draw the same
    token again. *)
Theorem dead_session_never_validates :
  (forall (w : World) (s : session_row) (acts : list action),
      token_keyed w -> In s (sessions (db w)) ->
      expired_or_invalid (clock w) s ->
      never_reissued (s_token s) w ->
      rejects (s_token s) (run_actions acts w) /\
      (db_up (run_actions acts w) ->
       fst (validateSession (s_token s) (run_actions acts w)) = Ok None))
  /\
  (forall (w0 w : World) (tok : string) (acts : list action),
      invalidateSession tok w0 = (Ok tt, w) ->
      never_reissued tok w ->
      rejects tok (run_actions acts w) /\
      (db_up (run_actions acts w) ->
       fst (validateSession tok (run_actions acts w)) = Ok None)).
Proof.
  split.
  - intros w s acts Hk Hin Hd Hn. apply quarantined_rejects.
    split; [exact Hn|]. apply keyed_dead; assumption.
  - intros w0 w tok acts E Hn. apply quarantined_rejects.
    split; [exact Hn|]. apply (invalidateSession_dead tok w0). exact E.
Qed.


(** ** Expiry at read time *)

Lemma NoDup_snoc {A} (l : list A) (x : A) :
  NoDup l -> ~ In x l -> NoDup (l ++ [x]).
Proof.
  induction l as [|a l IH]; intros Hnd Hx; simpl.
  - constructor; [intros []|constructor].
  - apply NoDup_cons_iff in Hnd. destruct Hnd as [Ha Hnd].
    constructor.
    + intros Hin. apply in_app_or in Hin. destruct Hin as [Hin|[Heq|[]]].
      * contradiction.
      * apply Hx. left. symmetry. exact Heq.
    + apply IH; [exact Hnd|]. intros Hin. apply Hx. right. exact Hin.
Qed.

(** A stored, valid row of an active user validates one millisecond before
    its expiry and not one millisecond after it. *)
Lemma validateSession_boundary (w : World) (s : session_row) (u : user_row) :
  db_up w -> token_keyed w -> users_keyed w ->
  In s (sessions (db w)) -> In u (users (db w)) ->
  u_id u = s_user_id s -> s_is_valid s = true -> u_is_active u = true ->
  fst (validateSession (s_token s) (set_clock (s_expires_at s + 1) w))
    = Ok None
  /\ In s (sessions (db (snd (validateSession (s_token s)
                                (set_clock (s_expires_at s + 1) w)))))
  /\ fst (validateSession (s_token s) (set_clock (s_expires_at s - 1) w))
     = Ok (Some (mkInfo (s_id s) (s_user_id s) (u_username u)
                        (s_expires_at s))).
Proof.
  intros Hup Hk Hu Hs Hin Hid Hv Ha.
  assert (Hd : dead (s_token s) (set_clock (s_expires_at s + 1) w)).
  { apply keyed_dead; [exact Hk|exact Hs|]. right. simpl. lia. }
  split; [|split].
  - apply dead_up_null; [exact Hd|exact Hup].
  - rewrite (validateSession_dead _ _ Hd).
    rewrite (find_down_up (set_clock (s_expires_at s + 1) w) _ Hup).
    exact Hs.
  - apply (validateSession_live (set_clock (s_expires_at s - 1) w) s u);
      try assumption.
    simpl. lia.
Qed.


(** ** Deactivated users *)

Lemma validateSession_inactive (tok : string) (w : World)
    (s : session_row) (u : user_row) (rows : list (session_row * user_row)) :
  db_up w ->
  sql_select_session tok (clock w) (db w) = (s, u) :: rows ->
  u_is_active u = false ->
  validateSession tok w =
  (Ok None,
   set_db (sql_invalidate_session tok (db w))
          (log (PoolQuery UpdateSessionInvalid)
               (log (PoolQuery SelectSessionJoinUser) w))).
Proof.
  intros Hup Hsel Ha. unfold validateSession, bind.
  rewrite pool_query_eq, (find_down_up w _ Hup), Hsel. simpl.
  rewrite Ha. simpl. unfold invalidateSession. rewrite pool_query_eq.
  simpl. rewrite (Hup Sessions). reflexivity.
Qed.

(** C10.  When the owner of a session is inactive, [validateSession] on
    the session's token resolves to [null]; if the row was live (valid
    flag set, not expired) the call also clears its valid flag; if the row
    was expired or invalid already the query returns nothing and the tables
    are left as they were, so an expired row keeps the valid flag it had;
    and from then on the token is rejected by every later call, whatever
    happens in between, in particular after the owner's [is_active] is set
    back to true. *)
Theorem inactive_owner_invalidates_session :
  forall (w : World) (s : session_row) (u : user_row),
    db_up w -> token_keyed w -> users_keyed w ->
    In s (sessions (db w)) -> In u (users (db w)) ->
    u_id u = s_user_id s -> u_is_active u = false ->
    never_reissued (s_token s) w ->
    exists w1 : World,
      validateSession (s_token s) w = (Ok None, w1)
      /\ (s_is_valid s = true -> clock w < s_expires_at s ->
          In (set_session_valid false s) (sessions (db w1)) /\
          forall s', In s' (sessions (db w1)) -> s_token s' = s_token s ->
                     s_is_valid s' = false)
      /\ (s_is_valid s = false \/ s_expires_at s <= clock w ->
          db w1 = db w /\ In s (sessions (db w1)))
      /\ (forall acts : list action,
             rejects (s_token s) (run_actions acts w1))
      /\ (forall acts : list action,
             rejects (s_token s)
               (run_actions
                  (AdminSetUsers (reactivated (u_id u) (users (db w1)))
                     :: acts) w1)).
Proof.
  intros w s u Hup Hk Hu Hs Hin Hid Ha Hn.
  assert (Hq : forall w1,
             quarantined (s_token s) w1 ->
             (forall acts, rejects (s_token s) (run_actions acts w1)) /\
             (forall acts, rejects (s_token s)
                (run_actions
                   (AdminSetUsers (reactivated (u_id u) (users (db w1)))
                      :: acts) w1))).
  { intros w1 H1. split; intros acts;
      apply (quarantined_rejects (s_token s) w1 _ H1). }
  destruct (s_is_valid s) eqn:Hv;
    [destruct (Z_lt_dec (clock w) (s_expires_at s)) as [Hlt|Hge]|].
  - (* the row is live: the query returns it and the owner is inactive *)
    pose proof (select_live w s u Hk Hu Hs Hin Hid Hv Hlt) as Hsel.
    rewrite (validateSession_inactive _ w s u [] Hup Hsel Ha).
    eexists. split; [reflexivity|]. split.
    + intros _ _. split.
      * simpl. apply in_map_iff. exists s. split; [|exact Hs].
        rewrite String.eqb_refl. reflexivity.
      * intros s' Hin' Htok.
        apply (invalidated_rows (s_token s) (db w)); assumption.
    + split; [intros [Hf|Hge]; [discriminate Hf|lia]|].
      apply Hq. split; [exact Hn|].
      intros s' Hin' Htok. left.
      apply (invalidated_rows (s_token s) (db w)); assumption.
  - (* expired already: the query returns nothing *)
    assert (Hd : dead (s_token s) w).
    { apply keyed_dead; [exact Hk|exact Hs|]. right. lia. }
    rewrite (validateSession_dead _ _ Hd), (find_down_up w _ Hup).
    eexists. split; [reflexivity|]. split.
    + intros _ Hlt. exfalso. apply Hge. exact Hlt.
    + split; [intros _; split; [reflexivity|exact Hs]|].
      apply Hq. apply quarantined_log. split; assumption.
  - (* invalid already *)
    assert (Hd : dead (s_token s) w).
    { apply keyed_dead; [exact Hk|exact Hs|]. left. exact Hv. }
    rewrite (validateSession_dead _ _ Hd), (find_down_up w _ Hup).
    eexists. split; [reflexivity|]. split.
    + intros Hf. discriminate Hf.
    + split; [intros _; split; [reflexivity|exact Hs]|].
      apply Hq. apply quarantined_log. split; assumption.
Qed.

(** ** The login flow *)

Lemma verifyUser_run (email password : string) (w : World) :
  down w Users = false ->
  verifyUser email password w =
  match sql_select_user_by_email email (db w) with
  | [] => (Ok None, log (PoolQuery SelectUserByEmail) w)
  | u :: _ =>
      (Ok (if negb (bcrypt_compare (libs w) password (u_password_hash u))
           then None
           else Some (mkPublic (u_id u) (u_username u))),
       log (BcryptCompare password (u_password_hash u))
           (log (PoolQuery SelectUserByEmail) w))
  end.
Proof.
  intros Hup. unfold verifyUser, bind. rewrite pool_query_eq. simpl.
  rewrite Hup.
  destruct (sql_select_user_by_email email (db w)) as [|u rows];
    [reflexivity|].
  simpl. destruct (bcrypt_compare (libs w) password (u_password_hash u));
    reflexivity.
Qed.

Lemma logAuthEvent_run (userId : option Z) (ev ip ua : string)
    (details : list (string * string)) (w : World) :
  logAuthEvent userId ev ip ua details w =
  if down w AuthLogs
  then (Throw (DbError AuthLogs), log (PoolQuery InsertAuthLog) w)
  else match sql_insert_auth_log userId ev ip ua details (clock w) (db w)
       with
       | inl e => (Throw e, log (PoolQuery InsertAuthLog) w)
       | inr (a, d) => (Ok a, set_db d (log (PoolQuery InsertAuthLog) w))
       end.
Proof.
  unfold logAuthEvent. rewrite pool_query_eq. simpl.
  destruct (down w AuthLogs); reflexivity.
Qed.

Lemma outage_pool_query f {A} (q : stmt) (touches : list table)
    (run : Z -> Db -> exn + (A * Db)) :
  stable (outage_is f) (pool_query q touches run).
Proof.
  intros w H. rewrite pool_query_eq.
  destruct (find (down w) touches); [exact H|].
  destruct (run (clock w) (db w)) as [e|[a d]]; exact H.
Qed.

Lemma outage_verifyUser f email password :
  stable (outage_is f) (verifyUser email password).
Proof.
  unfold verifyUser. apply stable_bind; [apply outage_pool_query|].
  intros [|u rows]; [apply stable_ret|].
  apply stable_bind; [intros w H; exact H|].
  intros b. destruct (negb b); apply stable_ret.
Qed.

Lemma outage_getUserWithRoles f userId :
  stable (outage_is f) (getUserWithRoles userId).
Proof.
  unfold getUserWithRoles. apply stable_bind.
  - intros w. apply outage_pool_query.
  - intros rows. apply stable_ret.
Qed.

Lemma outage_generateToken f u :
  stable (outage_is f) (generateToken u).
Proof. destruct u as [u|]; intros w H; exact H. Qed.

Lemma outage_createSession f userId ip ua :
  stable (outage_is f) (createSession userId ip ua).
Proof.
  unfold createSession.
  apply stable_bind; [intros w H; exact H|]. intros tok.
  apply stable_bind; [intros w H; exact H|]. intros now.
  apply stable_bind; [|intros _; apply stable_ret].
  intros w H. apply (outage_pool_query f); exact H.
Qed.

Lemma rejecting_bind (P : World -> Prop) {A B} (m : Async A)
    (k : A -> Async B) :
  stable P m -> (forall a, rejecting P (k a)) -> rejecting P (bind m k).
Proof.
  intros Hm Hk w H. unfold bind. specialize (Hm w H).
  destruct (m w) as [[a|e] w']; simpl in *.
  - apply Hk. exact Hm.
  - eexists. reflexivity.
Qed.

Lemma rejecting_first (P : World -> Prop) {A B} (m : Async A)
    (k : A -> Async B) :
  rejecting P m -> rejecting P (bind m k).
Proof.
  intros Hm w H. unfold bind. destruct (Hm w H) as [e He].
  destruct (m w) as [[a|e'] w']; simpl in *; [discriminate|].
  eexists. reflexivity.
Qed.

Lemma rejecting_logAuthEvent f userId ev ip ua details :
  f AuthLogs = true ->
  rejecting (outage_is f) (logAuthEvent userId ev ip ua details).
Proof.
  intros Hf w H. rewrite logAuthEvent_run. unfold outage_is in H.
  rewrite H, Hf. eexists. reflexivity.
Qed.

Lemma login_rejects_without_audit f email password ip ua :
  f AuthLogs = true ->
  rejecting (outage_is f) (login email password ip ua).
Proof.
  intros Hf. unfold login.
  apply rejecting_bind; [apply outage_verifyUser|]. intros [u|].
  - apply rejecting_bind; [apply outage_getUserWithRoles|]. intros uw.
    apply rejecting_bind; [apply outage_generateToken|]. intros jwt.
    apply rejecting_bind; [apply outage_createSession|]. intros sess.
    apply rejecting_bind; [apply outage_pool_query|]. intros _.
    apply rejecting_first. apply rejecting_logAuthEvent. exact Hf.
  - apply rejecting_first. apply rejecting_logAuthEvent. exact Hf.
Qed.

Lemma select_by_email_in (email : string) (d : Db) (u : user_row)
    (rows : list user_row) :
  sql_select_user_by_email email d = u :: rows -> In u (users d).
Proof.
  intros E. assert (H : In u (sql_select_user_by_email email d)).
  { rewrite E. left. reflexivity. }
  apply filter_In in H. tauto.
Qed.

Lemma stored_id (u : user_row) (us : list user_row) :
  In u us -> existsb (fun u0 => u_id u0 =? u_id u) us = true.
Proof.
  intros Hin. apply existsb_exists. exists u. split; [exact Hin|].
  apply Z.eqb_refl.
Qed.

Lemma getUserWithRoles_run (userId : Z) (w : World) :
  down w Users = false -> down w UserRoles = false ->
  down w Roles = false ->
  getUserWithRoles userId w =
  if user_id_binds userId (db w) then
    (Ok (hd_error (sql_select_user_with_roles (json_agg (libs w)) userId
                                              (db w))),
     log (PoolQuery SelectUserWithRoles) w)
  else (Throw IntegerOutOfRange, log (PoolQuery SelectUserWithRoles) w).
Proof.
  intros H1 H2 H3. unfold getUserWithRoles, bind. rewrite pool_query_eq.
  simpl. rewrite H1, H2, H3.
  destruct (user_id_binds userId (db w)); reflexivity.
Qed.

(** The user object [login] hands back for the row [u]. *)
Lemma user_with_roles_keyed (w : World) (u : user_row) :
  users_keyed w -> In u (users (db w)) ->
  hd_error (sql_select_user_with_roles (json_agg (libs w)) (u_id u) (db w))
  = Some (mkUserWithRoles (u_id u) (u_username u) (u_email u)
            (u_created_at u) (u_last_login u) (u_is_active u)
            (arranged (json_agg (libs w)) (role_names (u_id u) (db w)))).
Proof.
  intros Hk Hin. unfold sql_select_user_with_roles.
  rewrite (filter_keyed u_id _ (users (db w)) u Hk Hin).
  - reflexivity.
  - apply Z.eqb_refl.
  - intros y _ Hy. apply Z.eqb_eq. exact Hy.
Qed.

Lemma varchar_login : varchar 50 "login" = Some "login".
Proof. reflexivity. Qed.

Lemma varchar_failed_login : varchar 50 "failed_login" = Some "failed_login".
Proof. reflexivity. Qed.

(** A login that passed [verifyUser], up to its audit row. *)
Lemma login_verified_run (w : World) (email password ip stored ua : string)
    (u : user_row) (rows : list user_row) :
  down w Users = false -> down w UserRoles = false ->
  down w Roles = false -> down w Sessions = false ->
  users_keyed w ->
  sql_select_user_by_email email (db w) = u :: rows ->
  bcrypt_compare (libs w) password (u_password_hash u) = true ->
  varchar 45 ip = Some stored ->
  login email password ip ua w =
  (logAuthEvent (Some (u_id u)) "login" ip ua [] ;;;
   ret (LoginSuccess (Some (login_user w u))
          (jwt_sign (libs w) (login_claims w u) (clock w))
          (mkHandle (uuidv4 (libs w) (uuid_ctr w)) (clock w + SESSION_TTL))))
    (mkWorld (libs w) (logged_in_db w u stored ua) (clock w) (down w)
       (S (uuid_ctr w))
       (calls w ++ [PoolQuery SelectUserByEmail;
                    BcryptCompare password (u_password_hash u);
                    PoolQuery SelectUserWithRoles;
                    JwtSign (login_claims w u);
                    Uuidv4; PoolQuery InsertSession;
                    PoolQuery UpdateLastLogin])).
Proof.
  intros HU HUR HR HS Hk Hsel Hcmp Hip.
  assert (Hin : In u (users (db w))).
  { apply (select_by_email_in email (db w) u rows). exact Hsel. }
  unfold login. unfold bind at 1.
  rewrite (verifyUser_run _ _ _ HU), Hsel, Hcmp.
  cbn [negb]. cbv beta iota. cbn [id].
  unfold bind at 1. rewrite getUserWithRoles_run by assumption.
  cbn [db log]. rewrite (user_id_binds_stored _ _ (stored_id u _ Hin)).
  cbn [libs log]. rewrite (user_with_roles_keyed w u Hk Hin).
  unfold bind at 1. simpl generateToken. cbv beta iota.
  unfold bind at 1.
  match goal with
  | |- context [createSession (u_id u) ip ua ?w0] =>
      destruct (createSession_up w0 (u_id u) ip stored ua HS HU Hip)
        as [w3 [Hc _]];
      [exists u; split; [exact Hin|reflexivity]|]
  end.
  clear w3 Hc.
  unfold createSession, bind at 1, uuidv4_call, date_now.
  cbv beta iota. unfold bind at 1. cbv beta iota. unfold bind at 1.
  rewrite pool_query_eq. cbn [down find log db clock libs uuid_ctr calls].
  rewrite HS, HU.
  rewrite (insert_session_stored _ _ _ _ _ _ _ _ _ Hip (stored_id u _ Hin)).
  cbv beta iota. unfold ret at 1. cbv beta iota.
  unfold bind at 1. rewrite pool_query_eq.
  cbn [down find log db clock libs uuid_ctr calls set_db]. rewrite HU.
  cbv beta iota.
  f_equal. clear.
  destruct w as [L d c dn ctr cs]. cbn.
  unfold logged_in_db, new_session_row, login_claims; cbn.
  unfold log; cbn. unfold set_db; cbn.
  unfold sql_update_last_login, set_users; cbn.
  rewrite <- !app_assoc. reflexivity.
Qed.

(** The audit row of a login of a stored user can be written. *)
Lemma logged_in_audit (w : World) (u : user_row) (stored ua : string) :
  In u (users (db w)) ->
  audit_user_id (Some (u_id u)) (logged_in_db w u stored ua) = None.
Proof.
  intros Hin. unfold audit_user_id, logged_in_db. cbn [users].
  assert (H : existsb (fun u0 => u_id u0 =? u_id u)
                (map (fun x => if u_id x =? u_id u
                               then set_user_last_login (clock w) x else x)
                     (users (db w))) = true).
  { apply existsb_exists. exists (set_user_last_login (clock w) u). split.
    - apply in_map_iff. exists u. rewrite Z.eqb_refl. auto.
    - apply Z.eqb_refl. }
  rewrite H. reflexivity.
Qed.


(** A login whose credentials [verifyUser] turned down, with the users
    and audit tables available: the generic failure and one audit row
    when the address fits its column, the column's error otherwise. *)
Lemma login_unverified_run (w : World) (email password ip ua : string) :
  down w Users = false -> down w AuthLogs = false ->
  fst (verifyUser email password w) = Ok None ->
  login email password ip ua w =
  let w1 := log (PoolQuery InsertAuthLog)
              (match sql_select_user_by_email email (db w) with
               | [] => log (PoolQuery SelectUserByEmail) w
               | u :: _ =>
                   log (BcryptCompare password (u_password_hash u))
                       (log (PoolQuery SelectUserByEmail) w)
               end) in
  match varchar 45 ip with
  | Some stored =>
      (Ok (LoginFailure "Invalid credentials"),
       set_db (set_auth_logs
                 (auth_logs (db w)
                    ++ [mkAuthLog None "failed_login" stored ua (clock w)
                                  [("email", email)]]) (db w)) w1)
  | None => (Throw (StringTooLong 45), w1)
  end.
Proof.
  intros HU HA Hv. unfold login. unfold bind at 1.
  rewrite (verifyUser_run _ _ _ HU) in *.
  assert (Hrun : forall w0 : World,
             down w0 = down w -> db w0 = db w -> clock w0 = clock w ->
             (logAuthEvent None "failed_login" ip ua [("email", email)] ;;;
              ret (LoginFailure "Invalid credentials")) w0
             = match varchar 45 ip with
               | Some stored =>
                   (Ok (LoginFailure "Invalid credentials"),
                    set_db (set_auth_logs
                              (auth_logs (db w)
                                 ++ [mkAuthLog None "failed_login" stored ua
                                               (clock w) [("email", email)]])
                              (db w))
                           (log (PoolQuery InsertAuthLog) w0))
               | None => (Throw (StringTooLong 45),
                          log (PoolQuery InsertAuthLog) w0)
               end).
  { intros w0 Hdn Hdb Hcl. unfold bind. rewrite logAuthEvent_run.
    rewrite Hdn, HA, Hdb, Hcl. unfold sql_insert_auth_log.
    cbn [audit_user_id]. rewrite varchar_failed_login.
    destruct (varchar 45 ip); reflexivity. }
  destruct (sql_select_user_by_email email (db w)) as [|u rows];
    simpl in Hv.
  - cbv beta iota zeta. apply Hrun; reflexivity.
  - injection Hv as Hv. rewrite Hv. cbv beta iota zeta.
    apply Hrun; reflexivity.
Qed.


(** ** Role checks *)

Lemma includes_In (rs : list string) (role : string) :
  includes rs role = true <-> In role rs.
Proof.
  unfold includes. rewrite existsb_exists. split.
  - intros [x [Hin Heq]]. apply String.eqb_eq in Heq. subst x. exact Hin.
  - intros Hin. exists role. split; [exact Hin|apply String.eqb_refl].
Qed.

(** C2, as the code has it.  [authorize(requiredRoles)] lets a request
    through exactly when it carries a user one of whose role names is one
    of the required names: any one of them suffices, and names are compared
    with names, there being no table from roles to permissions.  A request
    without a user is answered 401; a user without roles, with an empty
    role list or with only other names is answered 403, and so is every
    user when nothing is required.  A user with roles {viewer} is denied
    for [write] and admitted for [viewer].  [hasRole(role)] of the session
    middleware admits a logged-in session whose role is [role] or
    [admin].  These are all the answers: [authorize] answers 401 to every
    request without a user and 403 to every user none of whose role names is
    required; [hasRole] answers 401 to a request that is not logged in and
    403 to a logged-in session whose role is neither [role] nor [admin]. *)
Theorem authorize_any_required_role :
  (forall (requiredRoles : list string) (req : PgAuth.request),
      authorize requiredRoles req = Next <->
      exists (u : principal) (rs : list string) (role : string),
        PgAuth.user req = Some u /\ p_roles u = Some rs /\
        In role requiredRoles /\ In role rs)
  /\ (forall requiredRoles : list string,
         authorize requiredRoles (PgAuth.mkRequest None)
         = Respond 401 "Authentication required")
  /\ (forall (requiredRoles : list string) (n : Z) (name : string),
         authorize requiredRoles
           (PgAuth.mkRequest (Some (mkPrincipal n name None)))
         = Respond 403 "Insufficient permissions"
         /\ authorize requiredRoles
              (PgAuth.mkRequest (Some (mkPrincipal n name (Some []))))
            = Respond 403 "Insufficient permissions")
  /\ (forall u : principal,
         authorize [] (PgAuth.mkRequest (Some u))
         = Respond 403 "Insufficient permissions")
  /\ (forall (n : Z) (name : string),
         authorize ["write"]
           (PgAuth.mkRequest (Some (mkPrincipal n name (Some ["viewer"]))))
         = Respond 403 "Insufficient permissions"
         /\ authorize ["viewer"]
              (PgAuth.mkRequest (Some (mkPrincipal n name (Some ["viewer"]))))
            = Next)
  /\ (forall (role : string) (req : SessionAuth.request),
         SessionAuth.hasRole role req = Next <->
         exists sd : SessionAuth.session_data,
           SessionAuth.session req = Some sd /\
           (exists n, SessionAuth.userId sd = Some n /\ n <> 0) /\
           (SessionAuth.session_role sd = Some role \/
            SessionAuth.session_role sd = Some "admin"))
  /\ (forall (requiredRoles : list string) (req : PgAuth.request),
         PgAuth.user req = None ->
         authorize requiredRoles req = Respond 401 "Authentication required")
  /\ (forall (requiredRoles : list string) (req : PgAuth.request)
             (u : principal),
         PgAuth.user req = Some u ->
         (forall (rs : list string) (role : string),
             p_roles u = Some rs -> In role requiredRoles -> ~ In role rs) ->
         authorize requiredRoles req
         = Respond 403 "Insufficient permissions")
  /\ (forall (role : string) (req : SessionAuth.request),
         SessionAuth.no_session_user req = true ->
         SessionAuth.hasRole role req
         = Respond 401 "Authentication required")
  /\ (forall (role : string) (req : SessionAuth.request)
             (sd : SessionAuth.session_data),
         SessionAuth.session req = Some sd ->
         SessionAuth.no_session_user req = false ->
         SessionAuth.session_role sd <> Some role ->
         SessionAuth.session_role sd <> Some "admin" ->
         SessionAuth.hasRole role req
         = Respond 403 "Insufficient permissions").
Proof.
  split; [|split; [|split; [|split; [|split; [|split; [|split; [|split;
    [|split]]]]]]]].
  - intros requiredRoles req. unfold authorize.
    destruct (PgAuth.user req) as [u|]; [|split].
    + destruct (existsb _ requiredRoles) eqn:E; simpl.
      * split; [intros _|reflexivity].
        apply existsb_exists in E. destruct E as [role [Hin Hr]].
        destruct (p_roles u) as [rs|] eqn:Er; [|discriminate].
        exists u, rs, role. apply includes_In in Hr. auto.
      * split; [discriminate|].
        intros [u' [rs [role [Hu [Hrs [Hin Hin']]]]]].
        injection Hu as <-. exfalso.
        assert (Ht : existsb
                       (fun role0 => match p_roles u with
                                     | Some rs0 => includes rs0 role0
                                     | None => false
                                     end) requiredRoles = true).
        { apply existsb_exists. exists role. split; [exact Hin|].
          rewrite Hrs. apply includes_In. exact Hin'. }
        rewrite Ht in E. discriminate.
    + discriminate.
    + intros [u [rs [role [Hu _]]]]. discriminate.
  - reflexivity.
  - intros requiredRoles n name. unfold authorize. simpl.
    assert (H : forall l : list string,
               existsb (fun _ : string => false) l = false).
    { induction l; simpl; auto. }
    unfold includes. simpl. rewrite H. split; reflexivity.
  - reflexivity.
  - intros n name. split; reflexivity.
  - intros role req. unfold SessionAuth.hasRole, SessionAuth.no_session_user.
    destruct (SessionAuth.session req) as [sd|].
    + destruct (SessionAuth.userId sd) as [n|] eqn:En.
      * destruct (Z.eqb_spec n 0) as [E0|E0].
        -- split; [discriminate|].
           intros [sd' [Hs [[n' [Hn Hnz]] _]]]. injection Hs as <-.
           rewrite En in Hn. injection Hn as <-. contradiction.
        -- unfold SessionAuth.role_differs.
           destruct (SessionAuth.session_role sd) as [r|] eqn:Er; simpl.
           ++ destruct (String.eqb_spec r role) as [E|E]; simpl.
              ** split; [intros _|reflexivity].
                 exists sd. split; [reflexivity|]. split.
                 { exists n. split; [exact En|exact E0]. }
                 left. rewrite Er, E. reflexivity.
              ** destruct (String.eqb_spec r "admin") as [E'|E']; simpl.
                 --- split; [intros _|reflexivity].
                     exists sd. split; [reflexivity|]. split.
                     { exists n. split; [exact En|exact E0]. }
                     right. rewrite Er, E'. reflexivity.
                 --- split; [discriminate|].
                     intros [sd' [Hs [_ [H|H]]]]; injection Hs as <-;
                       rewrite Er in H; injection H as H; contradiction.
           ++ split; [discriminate|].
              intros [sd' [Hs [_ [H|H]]]]; injection Hs as <-;
                rewrite Er in H; discriminate.
      * split; [discriminate|].
        intros [sd' [Hs [[n' [Hn _]] _]]]. injection Hs as <-.
        rewrite En in Hn. discriminate.
    + split; [discriminate|]. intros [sd [Hs _]]. discriminate.
  - intros requiredRoles req Hu. unfold authorize. rewrite Hu. reflexivity.
  - intros requiredRoles req u Hu Hnone. unfold authorize. rewrite Hu.
    destruct (existsb _ requiredRoles) eqn:E; [|reflexivity].
    apply existsb_exists in E. destruct E as [role [Hin Hr]].
    destruct (p_roles u) as [rs|] eqn:Er; [|discriminate].
    apply includes_In in Hr. exfalso. exact (Hnone rs role eq_refl Hin Hr).
  - intros role req Hn. unfold SessionAuth.hasRole. rewrite Hn. reflexivity.
  - intros role req sd Hs Hn Hr Ha. unfold SessionAuth.hasRole.
    rewrite Hn, Hs. unfold SessionAuth.role_differs.
    destruct (SessionAuth.session_role sd) as [r|]; [|reflexivity].
    destruct (String.eqb_spec r role) as [E|E]; [subst r; contradiction|].
    destruct (String.eqb_spec r "admin") as [E'|E'];
      [subst r; contradiction|]. reflexivity.
Qed.

(** ** The rate limiter *)

Import RateLimit.

Lemma store_set_same (st : store) (key : string) (wd : window) :
  store_set st key wd key = Some wd.
Proof. unfold store_set. rewrite String.eqb_refl. reflexivity. Qed.

Lemma store_set_other (st : store) (key key' : string) (wd : window) :
  key <> key' -> store_set st key' wd key = st key.
Proof.
  intros Hne. unfold store_set.
  destruct (String.eqb_spec key key') as [E|E]; [contradiction|reflexivity].
Qed.

(** An attempt while the identity's window is running. *)
Lemma checkAndRecord_running (o : options) (key : string) (now : Z)
    (st : store) (c r : Z) :
  st key = Some (mkWindow c r) -> now < r ->
  checkAndRecord o key now st =
  (if max o <? c + 1 then Throttled (r - now) else Allowed,
   store_set st key (mkWindow (c + 1) r)).
Proof.
  intros Hst Hlt. unfold checkAndRecord. rewrite Hst. simpl.
  destruct (Z.ltb_spec now r); [reflexivity|lia].
Qed.

(** An attempt when the identity has no running window. *)
Lemma checkAndRecord_opens (o : options) (key : string) (now : Z)
    (st : store) :
  match st key with
  | Some wd => resetTime wd <= now
  | None => True
  end ->
  checkAndRecord o key now st =
  (if max o <? 1 then Throttled (now + windowMs o - now) else Allowed,
   store_set st key (mkWindow 1 (now + windowMs o))).
Proof.
  intros Hst. unfold checkAndRecord.
  destruct (st key) as [wd|]; [|reflexivity].
  destruct (Z.ltb_spec now (resetTime wd)); [lia|reflexivity].
Qed.

Lemma attempts_app (o : options) (key : string) (l1 l2 : list Z)
    (st : store) :
  attempts o key (l1 ++ l2) st =
  (fst (attempts o key l1 st)
     ++ fst (attempts o key l2 (snd (attempts o key l1 st))),
   snd (attempts o key l2 (snd (attempts o key l1 st)))).
Proof.
  revert st. induction l1 as [|t l1 IH]; intros st.
  - cbn [app attempts fst snd]. destruct (attempts o key l2 st).
    reflexivity.
  - cbn [app attempts]. destruct (checkAndRecord o key t st) as [d st1].
    rewrite IH. destruct (attempts o key l1 st1) as [ds st2]. reflexivity.
Qed.

(** Attempts inside the running window are admitted while the count stays
    within the threshold. *)
Lemma attempts_running (o : options) (key : string) (r : Z) :
  forall (ts : list Z) (c : Z) (st : store),
    st key = Some (mkWindow c r) ->
    Forall (fun t => t < r) ts ->
    c + Z.of_nat (length ts) <= max o ->
    fst (attempts o key ts st) = repeat Allowed (length ts)
    /\ snd (attempts o key ts st) key
       = Some (mkWindow (c + Z.of_nat (length ts)) r).
Proof.
  induction ts as [|t ts IH]; intros c st Hst Hall Hle.
  - simpl. rewrite Z.add_0_r. split; [reflexivity|exact Hst].
  - apply Forall_cons_iff in Hall. destruct Hall as [Ht Hall].
    cbn [attempts]. rewrite (checkAndRecord_running o key t st c r Hst Ht).
    cbn [length] in Hle. rewrite Nat2Z.inj_succ in Hle.
    destruct (IH (c + 1) (store_set st key (mkWindow (c + 1) r))
                 (store_set_same _ _ _) Hall) as [IH1 IH2]; [lia|].
    destruct (attempts o key ts _) as [ds st2]. simpl in *.
    destruct (Z.ltb_spec (max o) (c + 1)); [lia|].
    split; [f_equal; exact IH1|].
    rewrite IH2. f_equal. f_equal. lia.
Qed.

(** The route behind the limiter answers each request as the limiter
    decides, and its counters are those of the decisions. *)
Lemma app_post_rateLimit {Req Res : Type} (o : options)
    (keyGenerator : Req -> string) (handler : Req -> World -> Res * World)
    (req : Req) (app : App) :
  app_post (rateLimit o keyGenerator) handler req app =
  match checkAndRecord o (keyGenerator req) (clock (world app))
                       (limiter_store app) with
  | (Allowed, st) =>
      (Handled (fst (handler req (world app))),
       mkApp st (snd (handler req (world app))))
  | (Throttled _, st) =>
      (Rejected 429 (match message o with
                     | Some m => m
                     | None => "Too many requests, please try again later."
                     end),
       mkApp st (world app))
  end.
Proof.
  unfold app_post, rateLimit.
  destruct (checkAndRecord o (keyGenerator req) (clock (world app))
                           (limiter_store app)) as [[|retry] st];
    cbn [world limiter_store]; [|reflexivity].
  destruct (handler req (world app)); reflexivity.
Qed.

Lemma posts_attempts {Req Res : Type} (o : options)
    (keyGenerator : Req -> string) (handler : Req -> World -> Res * World)
    (key : string) (arrivals : list (Z * Req)) :
  Forall (fun a => keyGenerator (snd a) = key) arrivals ->
  forall app : App,
    Forall2 answered
      (fst (attempts o key (map fst arrivals) (limiter_store app)))
      (fst (posts (rateLimit o keyGenerator) handler arrivals app))
    /\ limiter_store
         (snd (posts (rateLimit o keyGenerator) handler arrivals app))
       = snd (attempts o key (map fst arrivals) (limiter_store app)).
Proof.
  induction arrivals as [|[t req] rest IH]; intros Hall app.
  - simpl. split; [constructor|reflexivity].
  - apply Forall_cons_iff in Hall. destruct Hall as [Hk Hall].
    simpl in Hk. cbn [posts map fst attempts].
    rewrite app_post_rateLimit. cbn [limiter_store world].
    replace (clock (set_clock t (world app))) with t by reflexivity.
    rewrite Hk.
    destruct (checkAndRecord o key t (limiter_store app)) as [d st1].
    destruct d as [|retry].
    + set (x := fst (handler req (set_clock t (world app)))).
      set (w1 := snd (handler req (set_clock t (world app)))).
      destruct (IH Hall (mkApp st1 w1)) as [IH1 IH2].
      cbn [limiter_store] in IH1, IH2.
      destruct (posts (rateLimit o keyGenerator) handler rest (mkApp st1 w1))
        as [rs app2].
      destruct (attempts o key (map fst rest) st1) as [ds st2].
      cbn [fst snd] in *. split; [|exact IH2].
      constructor; [exists x; reflexivity|exact IH1].
    + destruct (IH Hall (mkApp st1 (set_clock t (world app)))) as [IH1 IH2].
      cbn [limiter_store] in IH1, IH2.
      destruct (posts (rateLimit o keyGenerator) handler rest
                      (mkApp st1 (set_clock t (world app)))) as [rs app2].
      destruct (attempts o key (map fst rest) st1) as [ds st2].
      cbn [fst snd] in *. split; [|exact IH2].
      constructor; [eexists; reflexivity|exact IH1].
Qed.

Lemma answered_admitted_then_throttled {Res : Type} (n : nat) (retry : Z)
    (l : list (served Res)) :
  Forall2 answered (repeat Allowed n ++ [Throttled retry]) l ->
  exists (results : list Res) (msg : string),
    l = map Handled results ++ [Rejected 429 msg] /\ length results = n.
Proof.
  revert l. induction n as [|n IH]; intros l H; simpl in H.
  - inversion H as [|d r ds rs Hd Hrest]; subst.
    inversion Hrest; subst. destruct Hd as [msg ->].
    exists [], msg. split; reflexivity.
  - inversion H as [|d r ds rs Hd Hrest]; subst.
    destruct Hd as [x ->]. destruct (IH rs Hrest) as [results [msg [-> Hl]]].
    exists (x :: results), msg. split; [reflexivity|]. simpl. f_equal.
    exact Hl.
Qed.


(* ================================================================== *)
(** * The statements at concrete data *)
(* ================================================================== *)

Import Demo.

Lemma demo_up : db_up demo.
Proof. intros t. reflexivity. Qed.

Lemma demo_token_keyed : token_keyed demo.
Proof.
  unfold token_keyed. simpl.
  repeat (constructor; [simpl; intuition discriminate|]). constructor.
Qed.

Lemma demo_users_keyed : users_keyed demo.
Proof.
  unfold users_keyed. simpl.
  repeat (constructor; [simpl; intuition discriminate|]). constructor.
Qed.

Lemma demo_never_reissues (tok : string) (w : World) :
  libs w = demo_libs -> String.get 0 tok = Some "t"%char ->
  never_reissued tok w.
Proof.
  intros Hl Ht n _ Heq. rewrite Hl in Heq. subst tok. simpl in Ht.
  discriminate Ht.
Qed.

(** C1 at the demo world: the expired session [s_old], and [s_alice] once
    logged out, through a sweep, a login, a reactivation and a later
    validation of another token. *)
Lemma dead_session_never_validates_witness :
  (token_keyed demo /\ In s_old (sessions (db demo)) /\
   expired_or_invalid (clock demo) s_old /\
   never_reissued (s_token s_old) demo /\
   rejects (s_token s_old) (run_actions demo_acts demo) /\
   (db_up (run_actions demo_acts demo) ->
    fst (validateSession (s_token s_old) (run_actions demo_acts demo))
    = Ok None))
  /\
  (invalidateSession "tok-alice" demo
   = (Ok tt, snd (invalidateSession "tok-alice" demo)) /\
   never_reissued "tok-alice" (snd (invalidateSession "tok-alice" demo)) /\
   rejects "tok-alice"
     (run_actions demo_acts (snd (invalidateSession "tok-alice" demo))) /\
   (db_up (run_actions demo_acts (snd (invalidateSession "tok-alice" demo)))
    -> fst (validateSession "tok-alice"
              (run_actions demo_acts
                 (snd (invalidateSession "tok-alice" demo))))
       = Ok None)).
Proof.
  assert (Hin : In s_old (sessions (db demo))).
  { simpl. right. right. left. reflexivity. }
  assert (Hex : expired_or_invalid (clock demo) s_old).
  { right. simpl. lia. }
  assert (Hn : never_reissued (s_token s_old) demo).
  { apply demo_never_reissues; reflexivity. }
  assert (Hlo : invalidateSession "tok-alice" demo
                = (Ok tt, snd (invalidateSession "tok-alice" demo))).
  { reflexivity. }
  assert (Hn' : never_reissued "tok-alice"
                  (snd (invalidateSession "tok-alice" demo))).
  { apply demo_never_reissues; reflexivity. }
  split.
  - split; [exact demo_token_keyed|]. split; [exact Hin|].
    split; [exact Hex|]. split; [exact Hn|].
    exact (proj1 dead_session_never_validates demo s_old demo_acts
             demo_token_keyed Hin Hex Hn).
  - split; [exact Hlo|]. split; [exact Hn'|].
    exact (proj2 dead_session_never_validates demo _ "tok-alice" demo_acts
             Hlo Hn').
Defined.




(** C10 at the demo world: bob is inactive and owns the live [s_bob]. *)
Lemma inactive_owner_invalidates_session_witness :
  db_up demo /\ token_keyed demo /\ users_keyed demo /\
  In s_bob (sessions (db demo)) /\ In bob (users (db demo)) /\
  u_id bob = s_user_id s_bob /\ u_is_active bob = false /\
  never_reissued (s_token s_bob) demo /\
  exists w1 : World,
    validateSession (s_token s_bob) demo = (Ok None, w1)
    /\ (s_is_valid s_bob = true -> clock demo < s_expires_at s_bob ->
        In (set_session_valid false s_bob) (sessions (db w1)) /\
        forall s', In s' (sessions (db w1)) -> s_token s' = s_token s_bob ->
                   s_is_valid s' = false)
    /\ (s_is_valid s_bob = false \/ s_expires_at s_bob <= clock demo ->
        db w1 = db demo /\ In s_bob (sessions (db w1)))
    /\ (forall acts : list action,
           rejects (s_token s_bob) (run_actions acts w1))
    /\ (forall acts : list action,
           rejects (s_token s_bob)
             (run_actions
                (AdminSetUsers (reactivated (u_id bob) (users (db w1)))
                   :: acts) w1)).
Proof.
  assert (Hs : In s_bob (sessions (db demo))).
  { simpl. right. left. reflexivity. }
  assert (Hu : In bob (users (db demo))).
  { simpl. right. left. reflexivity. }
  assert (Hn : never_reissued (s_token s_bob) demo).
  { apply demo_never_reissues; reflexivity. }
  split; [exact demo_up|]. split; [exact demo_token_keyed|].
  split; [exact demo_users_keyed|]. split; [exact Hs|]. split; [exact Hu|].
  split; [reflexivity|]. split; [reflexivity|]. split; [exact Hn|].
  exact (inactive_owner_invalidates_session demo s_bob bob demo_up
           demo_token_keyed demo_users_keyed Hs Hu eq_refl eq_refl Hn).
Defined.

(** C10: once [s_bob] is past its expiry, validating the token of the
    inactive bob answers [null] and leaves the row with its valid flag
    set. *)
Lemma expired_session_of_inactive_owner_stays_valid :
  In s_bob (sessions (db demo_later)) /\ In bob (users (db demo_later))
  /\ u_id bob = s_user_id s_bob /\ u_is_active bob = false
  /\ s_is_valid s_bob = true
  /\ (s_expires_at s_bob <=? clock demo_later) = true
  /\ fst (validateSession (s_token s_bob) demo_later) = Ok None
  /\ sessions (db (snd (validateSession (s_token s_bob) demo_later)))
     = [s_alice; s_bob; s_old]
  /\ existsb (fun s => (s_token s =? "tok-bob")%string && s_is_valid s)
       (sessions (db (snd (validateSession (s_token s_bob) demo_later))))
     = true.
Proof.
  split; [right; left; reflexivity|]. split; [right; left; reflexivity|].
  repeat split; vm_compute; reflexivity.
Qed.





(** C2: the code compares the required names with role names and is
    content with one match.  Where the specification's rule allows -- a
    viewer, whose role grants [read], asking for [read]; anyone asking for
    nothing -- [authorize] answers 403; where each role grants itself and
    the rule denies -- an editor asked for [admin] and [editor] -- it lets
    the request through. *)
Lemma authorize_is_not_permission_superset :
  (spec_authorize viewer_grants ["viewer"] ["read"] = true /\
   authorize ["read"] vera = Respond 403 "Insufficient permissions")
  /\ (spec_authorize viewer_grants ["viewer"] [] = true /\
      authorize [] vera = Respond 403 "Insufficient permissions")
  /\ (spec_authorize (fun r => [r]) ["editor"] ["admin"; "editor"] = false /\
      authorize ["admin"; "editor"] ed = Next).
Proof. repeat split; reflexivity. Qed.

(** C2 as amended, at the demo data: vera, a viewer, asked for [write] or
    [admin]; a request without a user; carol's session asked for [editor];
    a session that is not logged in. *)
Lemma authorize_any_required_role_witness :
  (PgAuth.user vera = Some (mkPrincipal 7 "vera" (Some ["viewer"]))
   /\ authorize ["write"; "admin"] vera
      = Respond 403 "Insufficient permissions")
  /\ authorize ["viewer"] (PgAuth.mkRequest None)
     = Respond 401 "Authentication required"
  /\ (SessionAuth.no_session_user carol_session = false
      /\ SessionAuth.hasRole "editor" carol_session
         = Respond 403 "Insufficient permissions")
  /\ (SessionAuth.no_session_user (login_request "a" "b") = true
      /\ SessionAuth.hasRole "user" (login_request "a" "b")
         = Respond 401 "Authentication required").
Proof.
  destruct authorize_any_required_role
    as [_ [_ [_ [_ [_ [_ [H7 [H8 [H9 H10]]]]]]]]].
  split; [|split; [|split]].
  - split; [reflexivity|].
    apply (H8 ["write"; "admin"] vera (mkPrincipal 7 "vera" (Some ["viewer"]))
              eq_refl).
    intros rs role E Hin. injection E as <-.
    destruct Hin as [<-|[<-|[]]]; intros [H|[]]; discriminate H.
  - apply H7. reflexivity.
  - split; [reflexivity|].
    apply (H10 "editor" carol_session
               (SessionAuth.mkSessionData (Some 3) (Some "user")) eq_refl
               eq_refl); discriminate.
  - split; [reflexivity|]. apply H9. reflexivity.
Defined.


(* ================================================================== *)
(** * Further properties of the code *)
(* ================================================================== *)

Import Steps.

(** ** Every run is made of steps *)

Lemma reach_trans (R : World -> World -> Prop) (w1 w2 w3 : World) :
  reach R w1 w2 -> reach R w2 w3 -> reach R w1 w3.
Proof.
  intros H12 H23. induction H23 as [|w2 w3 w4 _ IH Hs].
  - exact H12.
  - eapply reach_then; [apply IH; exact H12|exact Hs].
Qed.

Lemma reach_one (R : World -> World -> Prop) (w w' : World) :
  R w w' -> reach R w w'.
Proof. intros H. eapply reach_then; [apply reach_refl|exact H]. Qed.

Lemma reach_mono (R R' : World -> World -> Prop) (w w' : World) :
  (forall a b, R a b -> R' a b) -> reach R w w' -> reach R' w w'.
Proof.
  intros Hsub H. induction H as [|w1 w2 w3 _ IH Hs].
  - apply reach_refl.
  - eapply reach_then; [exact IH|apply Hsub; exact Hs].
Qed.

Section Stepwise.

Variable R : World -> World -> Prop.
Hypothesis issue_in_R : forall w w', issue_step w w' -> R w w'.

Lemma stepwise_ret {A} (a : A) : stepwise R (ret a).
Proof. intros w. apply reach_refl. Qed.

Lemma stepwise_throw {A} (e : exn) : stepwise R (@throw A e).
Proof. intros w. apply reach_refl. Qed.

Lemma stepwise_bind {A B} (m : Async A) (k : A -> Async B) :
  stepwise R m -> (forall a, stepwise R (k a)) -> stepwise R (bind m k).
Proof.
  intros Hm Hk w. unfold bind. specialize (Hm w).
  destruct (m w) as [[a|e] w']; simpl in *.
  - eapply reach_trans; [exact Hm|apply Hk].
  - exact Hm.
Qed.

Lemma stepwise_pool_query {A} (q : stmt) (touches : list table)
    (run : Z -> Db -> exn + (A * Db)) :
  (forall w a d', run (clock w) (db w) = inr (a, d') ->
                  R w (set_db d' w)) ->
  stepwise R (pool_query q touches run).
Proof.
  intros Hrun w. rewrite pool_query_eq.
  assert (Hl : reach R w (log (PoolQuery q) w)).
  { apply reach_one. apply issue_in_R. apply step_log. }
  destruct (find (down w) touches); [exact Hl|].
  destruct (run (clock w) (db w)) as [e|[a d]] eqn:E; [exact Hl|].
  simpl. eapply reach_then; [exact Hl|].
  apply (Hrun (log (PoolQuery q) w) a d). exact E.
Qed.

Lemma stepwise_bcrypt (p h : string) :
  stepwise R (bcrypt_compare_call p h).
Proof. intros w. apply reach_one. apply issue_in_R. apply step_log. Qed.

Lemma stepwise_verifyUser (email password : string) :
  stepwise R (verifyUser email password).
Proof.
  unfold verifyUser. apply stepwise_bind.
  - apply stepwise_pool_query. intros w a d' E. injection E as _ <-.
    apply issue_in_R. apply step_read.
  - intros [|u rows]; [apply stepwise_ret|].
    apply stepwise_bind; [apply stepwise_bcrypt|].
    intros b. destruct (negb b); apply stepwise_ret.
Qed.

Lemma stepwise_getUserWithRoles (userId : Z) :
  stepwise R (getUserWithRoles userId).
Proof.
  unfold getUserWithRoles. apply stepwise_bind.
  - intros w. apply stepwise_pool_query. intros w0 a d' E.
    destruct (user_id_binds userId (db w0)); [|discriminate E].
    injection E as _ <-. apply issue_in_R. apply step_read.
  - intros rows. apply stepwise_ret.
Qed.

Lemma stepwise_generateToken (u : option user_with_roles) :
  stepwise R (generateToken u).
Proof.
  destruct u as [u|]; simpl.
  - intros w. apply reach_one. apply issue_in_R. apply step_log.
  - apply stepwise_throw.
Qed.

Lemma stepwise_logAuthEvent (userId : option Z) (ev ip ua : string)
    (details : list (string * string)) :
  stepwise R (logAuthEvent userId ev ip ua details).
Proof.
  apply stepwise_pool_query. intros w a d' E. destruct a.
  apply issue_in_R. apply (step_audit userId ev ip ua details). exact E.
Qed.

Lemma stepwise_createSession (userId : Z) (ip ua : string) :
  stepwise R (createSession userId ip ua).
Proof.
  intros w. unfold createSession, bind, uuidv4_call, date_now.
  cbv beta iota. fold (drawn w). rewrite pool_query_eq.
  assert (Hl : reach R w (log (PoolQuery InsertSession) (drawn w))).
  { eapply reach_then; [apply reach_one|]; apply issue_in_R;
      [apply step_draw|apply step_log]. }
  destruct (find (down (drawn w)) [Sessions; Users]); [exact Hl|].
  destruct (sql_insert_session _ _ _ _ _ _ _ _) as [e|[[] d]] eqn:E;
    [exact Hl|].
  simpl. apply reach_one. apply issue_in_R.
  apply (step_session userId ip ua). exact E.
Qed.

Lemma stepwise_login (email password ip ua : string) :
  stepwise R (login email password ip ua).
Proof.
  unfold login. apply stepwise_bind; [apply stepwise_verifyUser|].
  intros [u|].
  - apply stepwise_bind; [apply stepwise_getUserWithRoles|]. intros uw.
    apply stepwise_bind; [apply stepwise_generateToken|]. intros jwt.
    apply stepwise_bind; [apply stepwise_createSession|]. intros sess.
    apply stepwise_bind.
    { apply stepwise_pool_query. intros w a d' E. injection E as _ <-.
      apply issue_in_R. apply step_last_login. }
    intros _. apply stepwise_bind; [apply stepwise_logAuthEvent|].
    intros _. apply stepwise_ret.
  - apply stepwise_bind; [apply stepwise_logAuthEvent|].
    intros _. apply stepwise_ret.
Qed.

End Stepwise.

Lemma issue_in_service (w w' : World) : issue_step w w' -> service_step w w'.
Proof. intros H. left. exact H. Qed.

Lemma stepwise_deactivateUser (userId : Z) :
  stepwise service_step (deactivateUser userId).
Proof.
  apply (stepwise_pool_query service_step issue_in_service).
  intros w a d' E. injection E as _ <-. right. apply step_deactivate.
Qed.

Lemma stepwise_invalidateSession (tok : string) :
  stepwise service_step (invalidateSession tok).
Proof.
  apply (stepwise_pool_query service_step issue_in_service).
  intros w a d' E. injection E as _ <-. right. apply step_invalidate.
Qed.

Lemma stepwise_cleanupSessions : stepwise service_step cleanupSessions.
Proof.
  apply (stepwise_pool_query service_step issue_in_service).
  intros w a d' E.
  assert (Hd : d' = snd (sql_delete_stale_sessions (clock w) (db w))).
  { rewrite (surjective_pairing (sql_delete_stale_sessions _ _)) in E.
    injection E as _ <-. reflexivity. }
  rewrite Hd. right. apply step_sweep.
Qed.

Lemma stepwise_validateSession (tok : string) :
  stepwise service_step (validateSession tok).
Proof.
  unfold validateSession. apply stepwise_bind.
  - apply (stepwise_pool_query service_step issue_in_service).
    intros w a d' E. injection E as _ <-. left. apply step_read.
  - intros [|[s u] rows]; [apply stepwise_ret|].
    destruct (negb (u_is_active u)); [|apply stepwise_ret].
    apply stepwise_bind; [apply stepwise_invalidateSession|].
    intros _. apply stepwise_ret.
Qed.

Lemma run_action_reach (a : action) (w : World) :
  reach any_step w (run_action a w)
  /\ (own_action a -> reach own_step w (run_action a w)).
Proof.
  assert (Hs : forall w', reach service_step w w' ->
                          reach any_step w w' /\
                          (own_action a -> reach own_step w w')).
  { intros w' H. split; [|intros _].
    - apply (reach_mono service_step); [|exact H].
      intros x y Hxy. left. left. exact Hxy.
    - apply (reach_mono service_step); [|exact H].
      intros x y Hxy. left. exact Hxy. }
  destruct a; simpl.
  - apply Hs. apply (stepwise_createSession _ issue_in_service).
  - apply Hs. apply stepwise_validateSession.
  - apply Hs. apply stepwise_invalidateSession.
  - apply Hs. apply stepwise_cleanupSessions.
  - apply Hs. apply stepwise_deactivateUser.
  - apply Hs. apply (stepwise_login _ issue_in_service).
  - split; [|intros []]. apply reach_one. right. apply step_admin.
  - split; [|intros _]; apply reach_one.
    + left. right. apply step_elapse.
    + right. apply step_elapse.
  - split; [|intros _]; apply reach_one.
    + left. right. apply step_outage.
    + right. apply step_outage.
Qed.

Lemma run_actions_reach (acts : list action) (w : World) :
  reach any_step w (run_actions acts w)
  /\ (Forall own_action acts -> reach own_step w (run_actions acts w)).
Proof.
  revert w. induction acts as [|a acts IH]; intros w; simpl.
  - split; [|intros _]; apply reach_refl.
  - destruct (run_action_reach a w) as [Ha Ha'].
    destruct (IH (run_action a w)) as [Hr Hr']. split.
    + eapply reach_trans; eassumption.
    + intros Hall. apply Forall_cons_iff in Hall. destruct Hall as [H1 H2].
      eapply reach_trans; [apply Ha'; exact H1|apply Hr'; exact H2].
Qed.

(** An invariant of the steps is an invariant of the runs. *)
Lemma reach_invariant (R : World -> World -> Prop)
    (I : World -> World -> Prop) (w0 w : World) :
  I w0 w0 ->
  (forall w1 w2, I w0 w1 -> R w1 w2 -> I w0 w2) ->
  reach R w0 w -> I w0 w.
Proof.
  intros H0 Hstep H. induction H as [|w1 w2 w3 _ IH Hs].
  - exact H0.
  - eapply Hstep; [apply IH; assumption|exact Hs].
Qed.

Ltac step_cases Hs :=
  destruct Hs as [[[Hs|Hs]|Hs]|Hs]; inversion Hs; subst; clear Hs;
  insert_cases; simpl in *.

(** The libraries stay, the clock and the draw counter do not go back. *)
Lemma reach_base (w0 w : World) :
  reach any_step w0 w ->
  libs w = libs w0 /\ clock w0 <= clock w /\ (uuid_ctr w0 <= uuid_ctr w)%nat.
Proof.
  apply (reach_invariant any_step
           (fun w0 w => libs w = libs w0 /\ clock w0 <= clock w /\
                        (uuid_ctr w0 <= uuid_ctr w)%nat)).
  - repeat split; lia.
  - intros w1 w2 [Hl [Hc Hu]] Hs. step_cases Hs; repeat split; auto; lia.
Qed.

(** The audit log is append-only: whatever the service does, while time
    passes and tables go down and come back, the rows of [auth_logs] stay
    as they are, in place, and rows are only added behind them, stamped
    with the time of their writing.  (Users deleted from outside would
    have their rows' [user_id] set to NULL by the foreign key; the
    service itself deletes no user.) *)
Theorem audit_log_append_only :
  forall (acts : list action) (w : World),
    Forall own_action acts ->
    exists added : list auth_log_row,
      auth_logs (db (run_actions acts w)) = auth_logs (db w) ++ added
      /\ Forall (fun l => clock w <= l_created_at l) added.
Proof.
  intros acts w Hown.
  pose proof (proj2 (run_actions_reach acts w) Hown) as Hr.
  apply (reach_mono own_step any_step) in Hr;
    [|intros a b H; left; exact H].
  revert Hr. generalize (run_actions acts w). intros w' Hr.
  assert (H : clock w <= clock w' /\
              exists added, auth_logs (db w') = auth_logs (db w) ++ added
                            /\ Forall (fun l => clock w <= l_created_at l)
                                      added).
  { revert Hr.
    apply (reach_invariant any_step
             (fun w0 w1 =>
                clock w0 <= clock w1 /\
                exists added, auth_logs (db w1) = auth_logs (db w0) ++ added
                              /\ Forall (fun l => clock w0 <= l_created_at l)
                                        added)).
    - split; [lia|]. exists []. rewrite app_nil_r. split; constructor.
    - intros w1 w2 [Hc [added [Ha Hf]]] Hs.
      step_cases Hs; try (split; [lia|exists added; split; assumption]).
      split; [lia|]. eexists.
      split; [rewrite Ha, <- app_assoc; reflexivity|].
      apply Forall_app. split; [exact Hf|]. constructor; [exact Hc|].
      constructor. }
  exact (proj2 H).
Qed.

Lemma same_session_refl (s : session_row) : same_session s s.
Proof. left. reflexivity. Qed.

Lemma same_session_cleared (s s' : session_row) :
  same_session s s' -> same_session s (set_session_valid false s').
Proof.
  intros [H|H]; subst; right; reflexivity.
Qed.

(** Stored sessions only ever lose their validity: after any run of the
    service, every row of [sessions] is either a row that was there at
    the start, as it was or with [is_valid] cleared -- never with another
    owner, token or expiry, never made valid again -- or a row
    [createSession] inserted during the run, whose token is the draw of
    [uuidv4] made for it and whose expiry is 24 hours after its
    creation. *)
Theorem sessions_only_lose_validity :
  forall (acts : list action) (w : World) (s' : session_row),
    Forall own_action acts ->
    In s' (sessions (db (run_actions acts w))) ->
    (exists s, In s (sessions (db w)) /\ same_session s s')
    \/ issued_since w (run_actions acts w) s'.
Proof.
  intros acts w s0 Hown. revert s0.
  pose proof (proj2 (run_actions_reach acts w) Hown) as Hr.
  apply (reach_mono own_step any_step) in Hr;
    [|intros a b H; left; exact H].
  revert Hr. generalize (run_actions acts w). intros w' Hr.
  assert (Inv : (libs w' = libs w /\ clock w <= clock w' /\
                 (uuid_ctr w <= uuid_ctr w')%nat) /\
                forall s', In s' (sessions (db w')) ->
                  (exists s, In s (sessions (db w)) /\ same_session s s')
                  \/ issued_since w w' s').
  { revert Hr.
    apply (reach_invariant any_step
             (fun w0 w1 =>
                (libs w1 = libs w0 /\ clock w0 <= clock w1 /\
                 (uuid_ctr w0 <= uuid_ctr w1)%nat) /\
                forall s', In s' (sessions (db w1)) ->
                  (exists s, In s (sessions (db w0)) /\ same_session s s')
                  \/ issued_since w0 w1 s')).
    - split; [repeat split; lia|]. intros s' Hin. left. exists s'.
      split; [exact Hin|apply same_session_refl].
    - intros w1 w2 [[Hl [Hc Hu]] Hrows] Hs.
      assert (Hwiden : forall (k : nat) s',
                 (uuid_ctr w1 <= k)%nat ->
                 (exists s, In s (sessions (db w)) /\ same_session s s')
                 \/ issued_since w w1 s' ->
                 (exists s, In s (sessions (db w)) /\ same_session s s')
                 \/ ((exists n, (uuid_ctr w <= n < k)%nat /\
                                s_token s' = uuidv4 (libs w) n) /\
                     clock w <= s_created_at s' /\
                     s_expires_at s' = s_created_at s' + SESSION_TTL)).
      { intros k s' Hk [H|[[n [Hn Ht]] Hrest]]; [left; exact H|].
        right. split; [|exact Hrest]. exists n. split; [lia|exact Ht]. }
      step_cases Hs; (split; [repeat split; auto; lia|]); intros s' Hin;
        unfold issued_since; simpl;
        try (apply (Hwiden _ s'); [lia|apply Hrows; exact Hin]).
      + (* createSession's insert *)
        apply in_app_or in Hin. destruct Hin as [Hin|[Heq|[]]].
        * apply (Hwiden _ s'); [lia|apply Hrows; exact Hin].
        * right. subst s'. simpl. split; [|split; [lia|reflexivity]].
          exists (uuid_ctr w1). split; [lia|]. rewrite Hl. reflexivity.
      + (* invalidateSession *)
        apply in_map_iff in Hin. destruct Hin as [s0 [Heq Hin]].
        destruct (Hwiden (uuid_ctr w1) s0 (Nat.le_refl _) (Hrows s0 Hin))
          as [[s [Hs0 Hsame]]|Hiss].
        * left. exists s. split; [exact Hs0|].
          destruct (s_token s0 =? tok)%string; subst s';
            [apply same_session_cleared|]; exact Hsame.
        * right. destruct (s_token s0 =? tok)%string; subst s'; exact Hiss.
      + (* cleanupSessions *)
        apply filter_In in Hin. destruct Hin as [Hin _].
        apply (Hwiden _ s'); [lia|apply Hrows; exact Hin]. }
  exact (proj2 Inv).
Qed.

Lemma same_credentials_refl (u : user_row) : same_credentials u u.
Proof. unfold same_credentials. tauto. Qed.

Lemma same_credentials_trans (u1 u2 u3 : user_row) :
  same_credentials u1 u2 -> same_credentials u2 u3 ->
  same_credentials u1 u3.
Proof.
  unfold same_credentials. intros [A1 [A2 [A3 [A4 [A5 A6]]]]]
                                  [B1 [B2 [B3 [B4 [B5 B6]]]]].
  repeat split; try congruence. auto.
Qed.

Lemma Forall2_map_right {A B} (R : A -> B -> Prop) (f : B -> B)
    (l : list A) (l' : list B) :
  (forall a b, R a b -> R a (f b)) ->
  Forall2 R l l' -> Forall2 R l (map f l').
Proof.
  intros Hf H. induction H; simpl; constructor; auto.
Qed.

Lemma Forall2_refl {A} (R : A -> A -> Prop) (l : list A) :
  (forall a, R a a) -> Forall2 R l l.
Proof. intros H. induction l; constructor; auto. Qed.

(** The session service never adds, deletes or reorders users and never
    touches their credentials: without outside administration, after any
    run the users table holds the same users in the same order with the
    same id, username, email, password hash and creation time; the only
    changes are [last_login] and [is_active], which is only ever cleared.
    The roles and their assignments are left as they were. *)
Theorem service_keeps_credentials :
  forall (acts : list action) (w : World),
    Forall own_action acts ->
    Forall2 same_credentials (users (db w))
            (users (db (run_actions acts w)))
    /\ roles (db (run_actions acts w)) = roles (db w)
    /\ user_roles (db (run_actions acts w)) = user_roles (db w).
Proof.
  intros acts w Hown. destruct (run_actions_reach acts w) as [_ Hr].
  specialize (Hr Hown). revert Hr. generalize (run_actions acts w).
  intros w'.
  apply (reach_invariant own_step
           (fun w0 w1 =>
              Forall2 same_credentials (users (db w0)) (users (db w1))
              /\ roles (db w1) = roles (db w0)
              /\ user_roles (db w1) = user_roles (db w0))).
  - split; [|split; reflexivity].
    apply Forall2_refl. apply same_credentials_refl.
  - intros w1 w2 [Hu [Hr Hur]] Hs.
    destruct Hs as [[Hs|Hs]|Hs]; inversion Hs; subst; clear Hs;
      insert_cases; simpl; (split; [|split; assumption]); try exact Hu.
    + (* the last_login stamp *)
      apply Forall2_map_right; [|exact Hu].
      intros a b Hab. destruct (u_id b =? userId); [|exact Hab].
      apply (same_credentials_trans a b); [exact Hab|].
      unfold same_credentials. simpl. repeat split; try reflexivity. auto.
    + (* deactivateUser *)
      apply Forall2_map_right; [|exact Hu].
      intros a b Hab. destruct (u_id b =? userId); [|exact Hab].
      apply (same_credentials_trans a b); [exact Hab|].
      unfold same_credentials. simpl. repeat split; try reflexivity.
      discriminate.
Qed.

(** ** The sweep *)

Lemma filter_split_length {A} (p : A -> bool) (l : list A) :
  (length (filter p l) + length (filter (fun x => negb (p x)) l))%nat
  = length l.
Proof.
  induction l as [|a l IH]; simpl; [reflexivity|].
  destruct (p a); simpl; lia.
Qed.

Lemma cleanupSessions_run (w : World) :
  down w Sessions = false ->
  cleanupSessions w =
  (Ok (fst (sql_delete_stale_sessions (clock w) (db w))),
   set_db (snd (sql_delete_stale_sessions (clock w) (db w)))
          (log (PoolQuery DeleteStaleSessions) w)).
Proof.
  intros Hup. unfold cleanupSessions. rewrite pool_query_eq. simpl.
  rewrite Hup. reflexivity.
Qed.

(** [cleanupSessions] deletes exactly the stale rows and counts them: the
    rows left are those that were valid and whose expiry was not before
    the time of the sweep, the count returned is the number of rows that
    went, and no other table is touched.  A row that expires at the very
    time of the sweep stays. *)
Theorem sweep_deletes_exactly_the_stale :
  forall w : World,
    down w Sessions = false ->
    exists (n : Z) (w1 : World),
      cleanupSessions w = (Ok n, w1)
      /\ n + Z.of_nat (length (sessions (db w1)))
         = Z.of_nat (length (sessions (db w)))
      /\ (forall s, In s (sessions (db w1)) <->
                    In s (sessions (db w)) /\ s_is_valid s = true /\
                    clock w <= s_expires_at s)
      /\ users (db w1) = users (db w)
      /\ auth_logs (db w1) = auth_logs (db w).
Proof.
  intros w Hup. rewrite (cleanupSessions_run w Hup).
  eexists. eexists. split; [reflexivity|]. simpl.
  split; [|split; [|split; reflexivity]].
  - rewrite <- (filter_split_length
                  (fun s => (s_expires_at s <? clock w) || negb (s_is_valid s))
                  (sessions (db w))).
    lia.
  - intros s. rewrite filter_In. split.
    + intros [Hin Hk]. split; [exact Hin|].
      apply negb_true_iff, orb_false_iff in Hk. destruct Hk as [Hlt Hv].
      apply negb_false_iff in Hv. apply Z.ltb_ge in Hlt. tauto.
    + intros [Hin [Hv Hle]]. split; [exact Hin|].
      rewrite Hv. simpl. rewrite orb_false_r. apply negb_true_iff.
      apply Z.ltb_ge. exact Hle.
Qed.

Lemma filter_idem {A} (p : A -> bool) (l : list A) :
  filter p (filter p l) = filter p l.
Proof.
  induction l as [|a l IH]; simpl; [reflexivity|].
  destruct (p a) eqn:E; simpl; [rewrite E, IH|]; auto.
Qed.

Lemma filter_none {A} (p : A -> bool) (l : list A) :
  filter p (filter (fun x => negb (p x)) l) = [].
Proof.
  induction l as [|a l IH]; simpl; [reflexivity|].
  destruct (p a) eqn:E; simpl; [|rewrite E]; auto.
Qed.

(** A second sweep at the same time finds nothing: it returns 0 and
    leaves the tables as the first sweep left them. *)
Lemma sweep_twice_deletes_nothing :
  forall w : World,
    down w Sessions = false ->
    fst (cleanupSessions (snd (cleanupSessions w))) = Ok 0
    /\ db (snd (cleanupSessions (snd (cleanupSessions w))))
       = db (snd (cleanupSessions w)).
Proof.
  intros w Hup. rewrite (cleanupSessions_run w Hup).
  rewrite cleanupSessions_run by exact Hup. simpl.
  rewrite filter_none, filter_idem. split; reflexivity.
Qed.

(** ** Sessions *)

Lemma select_session_rows (tok : string) (now : Z) (d : Db)
    (s : session_row) (u : user_row) :
  In (s, u) (sql_select_session tok now d) ->
  In s (sessions d) /\ In u (users d) /\ s_token s = tok /\
  s_is_valid s = true /\ now < s_expires_at s /\ u_id u = s_user_id s.
Proof.
  unfold sql_select_session. intros Hin. apply in_flat_map in Hin.
  destruct Hin as [s0 [Hs0 Hin]]. apply in_map_iff in Hin.
  destruct Hin as [u0 [Heq Hu0]]. injection Heq as <- <-.
  apply filter_In in Hs0. destruct Hs0 as [Hs0 Hp].
  apply filter_In in Hu0. destruct Hu0 as [Hu0 Hq].
  apply andb_prop in Hp. destruct Hp as [Hp Hlt].
  apply andb_prop in Hp. destruct Hp as [Ht Hv].
  apply String.eqb_eq in Ht. apply Z.ltb_lt in Hlt. apply Z.eqb_eq in Hq.
  repeat split; auto.
Qed.

(** [validateSession] is sound: a session it hands out is stored under
    the token, has its valid flag set, expires later than now and belongs
    to a stored, active user, and the fields returned are those of the
    two rows.  No assumption on the tables is needed. *)
Theorem validateSession_sound :
  forall (tok : string) (w : World) (i : session_info),
    fst (validateSession tok w) = Ok (Some i) ->
    exists (s : session_row) (u : user_row),
      In s (sessions (db w)) /\ In u (users (db w))
      /\ s_token s = tok /\ s_is_valid s = true
      /\ clock w < s_expires_at s
      /\ u_id u = s_user_id s /\ u_is_active u = true
      /\ i = mkInfo (s_id s) (s_user_id s) (u_username u) (s_expires_at s).
Proof.
  intros tok w i. rewrite validateSession_result.
  destruct (find (down w) [Sessions; Users]); [discriminate|].
  destruct (sql_select_session tok (clock w) (db w)) as [|[s u] rows] eqn:E;
    [discriminate|].
  destruct (u_is_active u) eqn:Ha; simpl.
  - intros H. injection H as <-.
    destruct (select_session_rows tok (clock w) (db w) s u)
      as [H1 [H2 [H3 [H4 [H5 H6]]]]].
    { rewrite E. left. reflexivity. }
    exists s, u. repeat split; assumption.
  - destruct (down w Sessions); discriminate.
Qed.

Lemma Forall2_map_self {A} (R : A -> A -> Prop) (f : A -> A) (l : list A) :
  (forall a, R a (f a)) -> Forall2 R l (map f l).
Proof. intros H. induction l; simpl; constructor; auto. Qed.

(** [validateSession] never extends or records anything: the only write
    it can make is to clear [is_valid] on rows of the token it was asked
    about.  The users, roles and audit tables stay; row by row, in place,
    each session row is as it was or is a row of that token changed in
    [is_valid] alone, which is cleared; so the rows of other tokens stay
    and no row is added or removed; and when it hands out a session the
    tables are exactly as before. *)
Theorem validateSession_only_invalidates :
  forall (tok : string) (w : World),
    users (db (snd (validateSession tok w))) = users (db w)
    /\ roles (db (snd (validateSession tok w))) = roles (db w)
    /\ user_roles (db (snd (validateSession tok w))) = user_roles (db w)
    /\ auth_logs (db (snd (validateSession tok w))) = auth_logs (db w)
    /\ length (sessions (db (snd (validateSession tok w))))
       = length (sessions (db w))
    /\ (forall s, In s (sessions (db w)) -> s_token s <> tok ->
                  In s (sessions (db (snd (validateSession tok w)))))
    /\ (forall i, fst (validateSession tok w) = Ok (Some i) ->
                  db (snd (validateSession tok w)) = db w)
    /\ Forall2 (fun s s' =>
                  s' = s
                  \/ (s_token s = tok /\
                      s' = mkSession (s_id s) (s_user_id s) (s_token s)
                                     (s_ip_address s) (s_user_agent s)
                                     (s_created_at s) (s_expires_at s)
                                     false))
               (sessions (db w))
               (sessions (db (snd (validateSession tok w))))
    /\ sessions_seq (db (snd (validateSession tok w)))
       = sessions_seq (db w).
Proof.
  intros tok w.
  assert (Hsame : forall l : list session_row,
             Forall2 (fun s s' =>
                        s' = s
                        \/ (s_token s = tok /\
                            s' = mkSession (s_id s) (s_user_id s)
                                   (s_token s) (s_ip_address s)
                                   (s_user_agent s) (s_created_at s)
                                   (s_expires_at s) false)) l l).
  { intros l. apply Forall2_refl. intros a. left. reflexivity. }
  unfold validateSession, bind. rewrite pool_query_eq.
  destruct (find (down w) [Sessions; Users]).
  { simpl. repeat split; auto; intros; discriminate. }
  destruct (sql_select_session tok (clock w) (db w)) as [|[s u] rows].
  { simpl. repeat split; auto. }
  simpl. destruct (u_is_active u); simpl.
  { repeat split; auto. }
  unfold invalidateSession. rewrite pool_query_eq. simpl.
  destruct (down w Sessions); simpl.
  { repeat split; auto; intros; discriminate. }
  repeat split; auto; try (intros; discriminate).
  - apply length_map.
  - intros s0 Hin Hne. apply in_map_iff. exists s0. split; [|exact Hin].
    destruct (String.eqb_spec (s_token s0) tok); [contradiction|reflexivity].
  - apply Forall2_map_self. intros s0.
    destruct (String.eqb_spec (s_token s0) tok) as [E|E];
      [right; split; [exact E|reflexivity]|left; reflexivity].
Qed.

(** ** What a login does to the sessions already there *)

Lemma validate_outcome_view (tok : string) (w w' : World) :
  down w' = down w ->
  map session_view (sql_select_session tok (clock w') (db w'))
  = map session_view (sql_select_session tok (clock w) (db w)) ->
  fst (validateSession tok w') = fst (validateSession tok w).
Proof.
  intros Hd Hv. rewrite !validateSession_result, Hd.
  destruct (find (down w) [Sessions; Users]); [reflexivity|].
  destruct (sql_select_session tok (clock w') (db w')) as [|[s' u'] r'];
    destruct (sql_select_session tok (clock w) (db w)) as [|[s u] r];
    simpl in Hv; try discriminate; [reflexivity|].
  injection Hv as Hs Hn Ha _. simpl in *. subst s'.
  rewrite Ha, Hn. reflexivity.
Qed.

Lemma select_snoc_other (tok : string) (now : Z) (d d' : Db)
    (s : session_row) :
  sessions d' = sessions d ++ [s] -> users d' = users d ->
  s_token s <> tok ->
  sql_select_session tok now d' = sql_select_session tok now d.
Proof.
  intros Hs Hu Hne. unfold sql_select_session. rewrite Hs, Hu.
  rewrite filter_app. simpl.
  destruct (String.eqb_spec (s_token s) tok) as [E|E]; [contradiction|].
  simpl. rewrite app_nil_r. reflexivity.
Qed.

Lemma joined_view_users_map (s : session_row) (g : user_row -> user_row)
    (us : list user_row) :
  (forall u, u_id (g u) = u_id u /\ u_username (g u) = u_username u /\
             u_is_active (g u) = u_is_active u) ->
  map session_view
      (map (pair s) (filter (fun u => s_user_id s =? u_id u) (map g us)))
  = map session_view
        (map (pair s) (filter (fun u => s_user_id s =? u_id u) us)).
Proof.
  intros Hg. induction us as [|u us IHu]; simpl; [reflexivity|].
  destruct (Hg u) as [G1 [G2 G3]]. rewrite G1.
  destruct (s_user_id s =? u_id u); simpl; [|exact IHu].
  rewrite IHu. unfold session_view. simpl. rewrite G2, G3. reflexivity.
Qed.

Lemma select_view_users_map (tok : string) (now : Z) (d d' : Db)
    (g : user_row -> user_row) :
  sessions d' = sessions d -> users d' = map g (users d) ->
  (forall u, u_id (g u) = u_id u /\ u_username (g u) = u_username u /\
             u_is_active (g u) = u_is_active u) ->
  map session_view (sql_select_session tok now d')
  = map session_view (sql_select_session tok now d).
Proof.
  intros Hs Hu Hg. unfold sql_select_session. rewrite Hs, Hu.
  induction (filter _ (sessions d)) as [|s ss IH]; simpl; [reflexivity|].
  rewrite !map_app, IH. f_equal. apply joined_view_users_map. exact Hg.
Qed.

(** Along the steps of the issuing functions, what [validateSession]
    reads for a token that is not drawn anew does not change. *)
Lemma issue_keeps_view (tok : string) (w0 w : World) :
  never_reissued tok w0 ->
  reach issue_step w0 w ->
  down w = down w0 /\ clock w = clock w0 /\ libs w = libs w0 /\
  (uuid_ctr w0 <= uuid_ctr w)%nat /\
  map session_view (sql_select_session tok (clock w) (db w))
  = map session_view (sql_select_session tok (clock w0) (db w0)).
Proof.
  intros Hn.
  apply (reach_invariant issue_step
           (fun w0 w =>
              down w = down w0 /\ clock w = clock w0 /\ libs w = libs w0 /\
              (uuid_ctr w0 <= uuid_ctr w)%nat /\
              map session_view (sql_select_session tok (clock w) (db w))
              = map session_view (sql_select_session tok (clock w0) (db w0)))).
  - repeat split; auto.
  - intros w1 w2 [Hd [Hc [Hl [Hu Hv]]]] Hs.
    inversion Hs; subst; clear Hs; insert_cases; simpl;
      (repeat (split; [auto; lia|])); try exact Hv.
    + (* the last_login stamp *)
      rewrite <- Hv.
      apply (select_view_users_map tok (clock w1) (db w1) _
               (fun u => if u_id u =? userId
                         then set_user_last_login (clock w1) u else u));
        try reflexivity.
      intros u. destruct (u_id u =? userId); simpl; auto.
    + (* the insert of createSession *)
      rewrite <- Hv. f_equal.
      eapply select_snoc_other; simpl; try reflexivity.
      rewrite Hl. apply Hn. exact Hu.
Qed.

(** Logging in, or creating a session, neither revokes nor revives the
    sessions already stored: for any token other than the one being
    drawn, [validateSession] answers after the call as it would have
    answered before it.  The code has no one-session-per-user rule. *)
Theorem login_leaves_other_sessions :
  forall (w : World) (email password ip ua : string) (userId : Z)
         (tok : string),
    never_reissued tok w ->
    fst (validateSession tok (snd (login email password ip ua w)))
      = fst (validateSession tok w)
    /\ fst (validateSession tok (snd (createSession userId ip ua w)))
       = fst (validateSession tok w).
Proof.
  intros w email password ip ua userId tok Hn.
  assert (Hid : forall a b, issue_step a b -> issue_step a b) by auto.
  split.
  - destruct (issue_keeps_view tok w _ Hn
                (stepwise_login issue_step Hid email password ip ua w))
      as [Hd [_ [_ [_ Hv]]]].
    apply validate_outcome_view; assumption.
  - destruct (issue_keeps_view tok w _ Hn
                (stepwise_createSession issue_step Hid userId ip ua w))
      as [Hd [_ [_ [_ Hv]]]].
    apply validate_outcome_view; assumption.
Qed.

(** ** Deactivation *)

Lemma deactivateUser_run (userId : Z) (w : World) :
  down w Users = false ->
  deactivateUser userId w =
  (Ok tt, set_db (sql_deactivate_user userId (db w))
                 (log (PoolQuery UpdateUserInactive) w)).
Proof.
  intros Hup. unfold deactivateUser. rewrite pool_query_eq. simpl.
  rewrite Hup. reflexivity.
Qed.

Lemma joined_after_deactivate (s : session_row) (userId : Z)
    (us : list user_row) :
  map (pair s)
      (filter (fun u => s_user_id s =? u_id u)
              (map (fun u => if u_id u =? userId
                             then set_user_active false u else u) us))
  = map (fun r => (fst r, if u_id (snd r) =? userId
                          then set_user_active false (snd r) else snd r))
        (map (pair s) (filter (fun u => s_user_id s =? u_id u) us)).
Proof.
  induction us as [|u us IHu]; simpl; [reflexivity|].
  assert (Hid : u_id (if u_id u =? userId then set_user_active false u else u)
                = u_id u).
  { destruct (u_id u =? userId); reflexivity. }
  rewrite Hid. destruct (s_user_id s =? u_id u); simpl; [|exact IHu].
  rewrite IHu. reflexivity.
Qed.

Lemma select_after_deactivate (tok : string) (now : Z) (userId : Z)
    (d : Db) :
  sql_select_session tok now (sql_deactivate_user userId d)
  = map (fun r => (fst r, if u_id (snd r) =? userId
                          then set_user_active false (snd r) else snd r))
        (sql_select_session tok now d).
Proof.
  unfold sql_select_session, sql_deactivate_user. simpl.
  induction (filter _ (sessions d)) as [|s ss IH]; simpl; [reflexivity|].
  rewrite map_app, IH. f_equal. apply joined_after_deactivate.
Qed.


(** ** A successful login *)

Lemma remove_one_In (x y : string) (l l' : list string) :
  remove_one x l = Some l' -> In y l <-> (y = x \/ In y l').
Proof.
  revert l'. induction l as [|z l IH]; intros l'; simpl; [discriminate|].
  destruct (String.eqb_spec x z) as [E|E].
  - intros H. injection H as <-. subst z. split; intros [H|H]; auto.
  - destruct (remove_one x l) as [r|]; [|discriminate].
    intros H. injection H as <-. specialize (IH r eq_refl). simpl.
    rewrite IH. tauto.
Qed.

Lemma rearranges_In (a b : list string) (x : string) :
  rearranges a b = true -> In x a <-> In x b.
Proof.
  revert b. induction a as [|y a IH]; intros b; simpl.
  - destruct b; [tauto|discriminate].
  - destruct (remove_one y b) as [b'|] eqn:E; [|discriminate].
    intros H. rewrite (remove_one_In y x b b' E), (IH b' H).
    split; intros [H'|H']; auto.
Qed.

Lemma rearranges_refl (a : list string) : rearranges a a = true.
Proof.
  induction a as [|x a IH]; simpl; [reflexivity|].
  rewrite String.eqb_refl. exact IH.
Qed.

Lemma arranged_rearranges (order : list string -> list string)
    (names : list string) :
  rearranges (arranged order names) names = true.
Proof.
  unfold arranged. destruct (rearranges (order names) names) eqn:E;
    [exact E|apply rearranges_refl].
Qed.

Lemma createSession_run (userId : Z) (ip stored ua : string) (w : World) :
  down w Sessions = false -> down w Users = false ->
  varchar 45 ip = Some stored ->
  (exists u, In u (users (db w)) /\ u_id u = userId) ->
  createSession userId ip ua w =
  (Ok (mkHandle (uuidv4 (libs w) (uuid_ctr w)) (clock w + SESSION_TTL)),
   set_db (mkDb (users (db w)) (roles (db w)) (user_roles (db w))
                (sessions (db w) ++ [new_session_row w userId stored ua])
                (auth_logs (db w)) (S (sessions_seq (db w))))
          (log (PoolQuery InsertSession) (drawn w))).
Proof.
  intros HS HU Hip [u [Hin Hid]].
  unfold createSession, bind, uuidv4_call, date_now. simpl.
  rewrite pool_query_eq. simpl. rewrite HS, HU.
  assert (He : existsb (fun u0 => u_id u0 =? userId) (users (db w)) = true).
  { apply existsb_exists. exists u. split; [exact Hin|].
    apply Z.eqb_eq. exact Hid. }
  rewrite (insert_session_stored _ _ _ _ _ _ _ _ _ Hip He). reflexivity.
Qed.

(** A call of [createSession] that the insert turns down: nothing is
    stored, the token drawn for it is spent. *)
Lemma createSession_refused (userId : Z) (ip ua : string) (w : World)
    (e : exn) :
  down w Sessions = false -> down w Users = false ->
  sql_insert_session (gen_random_uuid (libs w)) userId
    (uuidv4 (libs w) (uuid_ctr w)) ip ua (clock w + SESSION_TTL) (clock w)
    (db w) = inl e ->
  fst (createSession userId ip ua w) = Throw e
  /\ db (snd (createSession userId ip ua w)) = db w
  /\ uuid_ctr (snd (createSession userId ip ua w)) = S (uuid_ctr w).
Proof.
  intros HS HU He.
  unfold createSession, bind, uuidv4_call, date_now. simpl.
  rewrite pool_query_eq. simpl. rewrite HS, HU, He.
  repeat split; reflexivity.
Qed.

Lemma no_user_no_id (userId : Z) (us : list user_row) :
  (forall u, In u us -> u_id u <> userId) ->
  existsb (fun u => u_id u =? userId) us = false.
Proof.
  intros Hno. destruct (existsb _ _) eqn:E; [|reflexivity].
  apply existsb_exists in E. destruct E as [u [Hin Heq]].
  apply Z.eqb_eq in Heq. exfalso. exact (Hno u Hin Heq).
Qed.


Lemma login_success_run (w : World) (email password ip stored ua : string)
    (u : user_row) (rows : list user_row) :
  db_up w -> users_keyed w ->
  sql_select_user_by_email email (db w) = u :: rows ->
  bcrypt_compare (libs w) password (u_password_hash u) = true ->
  varchar 45 ip = Some stored ->
  login email password ip ua w =
  (Ok (LoginSuccess
         (Some (login_user w u))
         (jwt_sign (libs w) (login_claims w u) (clock w))
         (mkHandle (uuidv4 (libs w) (uuid_ctr w)) (clock w + SESSION_TTL))),
   mkWorld (libs w)
     (mkDb (map (fun x => if u_id x =? u_id u
                          then set_user_last_login (clock w) x else x)
                (users (db w)))
           (roles (db w)) (user_roles (db w))
           (sessions (db w) ++ [new_session_row w (u_id u) stored ua])
           (auth_logs (db w)
              ++ [mkAuthLog (Some (u_id u)) "login" stored ua (clock w) []])
           (S (sessions_seq (db w))))
     (clock w) (down w) (S (uuid_ctr w))
     (calls w ++ [PoolQuery SelectUserByEmail;
                  BcryptCompare password (u_password_hash u);
                  PoolQuery SelectUserWithRoles;
                  JwtSign (login_claims w u);
                  Uuidv4; PoolQuery InsertSession;
                  PoolQuery UpdateLastLogin; PoolQuery InsertAuthLog])).
Proof.
  intros Hup Hk Hsel Hcmp Hip.
  assert (Hin : In u (users (db w))).
  { apply (select_by_email_in email (db w) u rows). exact Hsel. }
  rewrite (login_verified_run w email password ip stored ua u rows
             (Hup Users) (Hup UserRoles) (Hup Roles) (Hup Sessions)
             Hk Hsel Hcmp Hip).
  unfold bind. rewrite logAuthEvent_run. cbn [down].
  rewrite (Hup AuthLogs). cbn [db clock].
  rewrite (insert_auth_log_stored _ _ _ _ _ _ _ _ _ varchar_login Hip
             (logged_in_audit w u stored ua Hin)).
  unfold ret. f_equal.
  unfold set_db, log, set_auth_logs, logged_in_db. cbn.
  rewrite <- app_assoc. reflexivity.
Qed.

Lemma users_keyed_stamped (w : World) (userId now : Z) :
  users_keyed w ->
  NoDup (map u_id
           (map (fun x => if u_id x =? userId
                          then set_user_last_login now x else x)
                (users (db w)))).
Proof.
  unfold users_keyed. intros H. rewrite map_map.
  erewrite map_ext; [exact H|].
  intros x. simpl. destruct (u_id x =? userId); reflexivity.
Qed.

(** The world a successful login leaves, and what the session functions
    need to know of it. *)
Lemma login_success_world (w : World) (ip ua : string) (u : user_row)
    (cs : list call) :
  db_up w -> users_keyed w -> token_keyed w ->
  In u (users (db w)) ->
  ~ In (uuidv4 (libs w) (uuid_ctr w)) (map s_token (sessions (db w))) ->
  let w' :=
    mkWorld (libs w)
      (mkDb (map (fun x => if u_id x =? u_id u
                           then set_user_last_login (clock w) x else x)
                 (users (db w)))
            (roles (db w)) (user_roles (db w))
            (sessions (db w) ++ [new_session_row w (u_id u) ip ua])
            (auth_logs (db w)
               ++ [mkAuthLog (Some (u_id u)) "login" ip ua (clock w) []])
            (S (sessions_seq (db w))))
      (clock w) (down w) (S (uuid_ctr w)) cs in
  db_up w' /\ token_keyed w' /\ users_keyed w'
  /\ In (new_session_row w (u_id u) ip ua) (sessions (db w'))
  /\ In (set_user_last_login (clock w) u) (users (db w')).
Proof.
  intros Hup Hu Hk Hin Hfresh w'. split; [exact Hup|].
  split; [|split; [|split]].
  - unfold token_keyed. simpl. rewrite map_app. simpl.
    apply NoDup_snoc; assumption.
  - apply users_keyed_stamped. exact Hu.
  - simpl. apply in_or_app. right. left. reflexivity.
  - simpl. apply in_map_iff. exists u. rewrite Z.eqb_refl.
    split; [reflexivity|exact Hin].
Qed.



(** ** No TypeError *)

Lemma no_type_error_bind {A B} (m : Async A) (k : A -> Async B) :
  no_type_error m -> (forall a, no_type_error (k a)) ->
  no_type_error (bind m k).
Proof.
  intros Hm Hk w msg. unfold bind. specialize (Hm w msg).
  destruct (m w) as [[a|e] w']; simpl in *.
  - apply Hk.
  - intros H. apply Hm. injection H as ->. reflexivity.
Qed.

Lemma no_type_error_ret {A} (a : A) : no_type_error (ret a).
Proof. intros w msg. discriminate. Qed.

Lemma no_type_error_pool_query {A} (q : stmt) (touches : list table)
    (run : Z -> Db -> exn + (A * Db)) :
  (forall now d msg, run now d <> inl (TypeError msg)) ->
  no_type_error (pool_query q touches run).
Proof.
  intros Hrun w msg. rewrite pool_query_eq.
  destruct (find (down w) touches); [discriminate|].
  destruct (run (clock w) (db w)) as [e|[a d]] eqn:E; [|discriminate].
  simpl. intros H. injection H as ->. exact (Hrun _ _ _ E).
Qed.

Lemma no_type_error_logAuthEvent userId ev ip ua details :
  no_type_error (logAuthEvent userId ev ip ua details).
Proof.
  apply no_type_error_pool_query. intros now d msg.
  unfold sql_insert_auth_log, audit_user_id.
  destruct userId as [z|];
    [destruct (existsb _ _); [|destruct (int4 z)]|];
    destruct (varchar 50 ev); try discriminate;
    destruct (varchar 45 ip); discriminate.
Qed.

Lemma no_type_error_createSession userId ip ua :
  no_type_error (createSession userId ip ua).
Proof.
  unfold createSession.
  apply no_type_error_bind; [intros w msg; discriminate|]. intros tok.
  apply no_type_error_bind; [intros w msg; discriminate|]. intros now.
  apply no_type_error_bind; [|intros _; apply no_type_error_ret].
  intros w. apply no_type_error_pool_query.
  intros now' d msg. unfold sql_insert_session.
  destruct (negb _); [discriminate|].
  destruct (varchar 45 ip); [|discriminate].
  destruct (existsb _ _); discriminate.
Qed.

(** [login] never fails on an undefined user row: whatever the tables
    hold and whichever of them are down, it does not reject with a
    TypeError.  [generateToken] reads [user.id] of the row
    [getUserWithRoles] returns, and that row exists for the id
    [verifyUser] has just found. *)
Theorem login_never_type_error :
  forall (w : World) (email password ip ua msg : string),
    fst (login email password ip ua w) <> Throw (TypeError msg).
Proof.
  intros w email password ip ua msg.
  assert (Hfail : forall w0, fst ((logAuthEvent None "failed_login" ip ua
                                     [("email", email)] ;;;
                                   ret (LoginFailure "Invalid credentials"))
                                    w0)
                             <> Throw (TypeError msg)).
  { intros w0. apply no_type_error_bind;
      [apply no_type_error_logAuthEvent|intros _; apply no_type_error_ret]. }
  unfold login. unfold bind at 1.
  destruct (down w Users) eqn:HU.
  { unfold verifyUser, bind. rewrite pool_query_eq. simpl. rewrite HU.
    simpl. discriminate. }
  rewrite (verifyUser_run _ _ _ HU).
  destruct (sql_select_user_by_email email (db w)) as [|u rows] eqn:Es;
    [apply Hfail|].
  destruct (negb (bcrypt_compare (libs w) password (u_password_hash u)));
    [apply Hfail|].
  cbn [id]. unfold bind at 1.
  set (w1 := log (BcryptCompare _ _) _).
  unfold getUserWithRoles. unfold bind at 1. rewrite pool_query_eq.
  destruct (find (down w1) [Users; UserRoles; Roles]); [discriminate|].
  destruct (user_id_binds (u_id u) (db w1)); [|discriminate].
  cbv beta iota. unfold ret at 1.
  assert (Hsome : exists uw, hd_error (sql_select_user_with_roles
                                         (json_agg (libs w1)) (u_id u)
                                         (db w1)) = Some uw).
  { unfold sql_select_user_with_roles.
    destruct (filter (fun u0 => u_id u0 =? u_id u) (users (db w1)))
      as [|u0 us] eqn:Ef.
    - exfalso.
      assert (Hf : In u (filter (fun u0 => u_id u0 =? u_id u)
                                (users (db w1)))).
      { apply filter_In. split; [|apply Z.eqb_refl].
        apply (select_by_email_in email (db w) u rows). exact Es. }
      rewrite Ef in Hf. destruct Hf.
    - eexists. reflexivity. }
  destruct Hsome as [uw ->].
  apply no_type_error_bind; [intros w2 m; simpl; discriminate|].
  intros jwt. apply no_type_error_bind;
    [apply no_type_error_createSession|].
  intros sess. apply no_type_error_bind;
    [apply no_type_error_pool_query; discriminate|].
  intros _. apply no_type_error_bind;
    [apply no_type_error_logAuthEvent|intros _; apply no_type_error_ret].
Qed.

(** ** What a login result tells *)

Lemma bind_ok {A B} (m : Async A) (k : A -> Async B) (w w' : World) (b : B) :
  bind m k w = (Ok b, w') ->
  exists a w1, m w = (Ok a, w1) /\ k a w1 = (Ok b, w').
Proof.
  unfold bind. destruct (m w) as [[a|e] w1]; intros H.
  - exists a, w1. split; [reflexivity|exact H].
  - discriminate.
Qed.

Lemma pool_query_ok {A} (q : stmt) (touches : list table)
    (run : Z -> Db -> exn + (A * Db)) (w w' : World) (a : A) :
  pool_query q touches run w = (Ok a, w') ->
  exists d, run (clock w) (db w) = inr (a, d)
            /\ w' = set_db d (log (PoolQuery q) w).
Proof.
  rewrite pool_query_eq. destruct (find (down w) touches); [discriminate|].
  destruct (run (clock w) (db w)) as [e|[a0 d]]; [discriminate|].
  intros H. injection H as <- <-. exists d. split; reflexivity.
Qed.

Lemma verifyUser_reads (w : World) (email password : string) :
  db (snd (verifyUser email password w)) = db w.
Proof.
  unfold verifyUser, bind. rewrite pool_query_eq.
  simpl. destruct (down w Users); [reflexivity|].
  destruct (sql_select_user_by_email email (db w)) as [|u rows];
    [reflexivity|].
  simpl. destruct (bcrypt_compare (libs w) password (u_password_hash u));
    reflexivity.
Qed.

Lemma verifyUser_some (w : World) (email password : string)
    (p : user_public) :
  fst (verifyUser email password w) = Ok (Some p) ->
  exists u : user_row,
    In u (users (db w)) /\ u_email u = email
    /\ bcrypt_compare (libs w) password (u_password_hash u) = true
    /\ p = mkPublic (u_id u) (u_username u).
Proof.
  unfold verifyUser, bind. rewrite pool_query_eq.
  simpl. destruct (down w Users); [discriminate|].
  destruct (sql_select_user_by_email email (db w)) as [|u rows] eqn:E;
    [discriminate|].
  simpl.
  destruct (bcrypt_compare (libs w) password (u_password_hash u)) eqn:Hc;
    simpl; [|discriminate].
  intros H. injection H as <-.
  assert (Hin : In u (sql_select_user_by_email email (db w))).
  { rewrite E. left. reflexivity. }
  apply filter_In in Hin. destruct Hin as [Hin He].
  apply String.eqb_eq in He. exists u. auto.
Qed.

(** [verifyUser] is sound and reads only: it returns a user only when a
    user is stored under the email and [bcrypt.compare] accepted the
    password against that user's stored hash; what it returns is that
    user's id and username; and it leaves the tables as they were. *)
Theorem verifyUser_sound :
  forall (w : World) (email password : string),
    db (snd (verifyUser email password w)) = db w
    /\ forall p : user_public,
         fst (verifyUser email password w) = Ok (Some p) ->
         exists u : user_row,
           In u (users (db w)) /\ u_email u = email
           /\ bcrypt_compare (libs w) password (u_password_hash u) = true
           /\ p = mkPublic (u_id u) (u_username u).
Proof.
  intros w email password. split.
  - apply verifyUser_reads.
  - intros p. apply verifyUser_some.
Qed.

(** [login] resolves in two ways only.  Either it is the generic failure,
    or it is a success, and then a user is stored under the email whose
    hash [bcrypt.compare] accepted for the password, the user object
    returned has that user's id, and the session returned carries the
    token drawn by this call and expires 24 hours from now.  No
    assumption on the tables is needed. *)
Theorem login_sound :
  forall (w : World) (email password ip ua : string) (r : login_result),
    fst (login email password ip ua w) = Ok r ->
    r = LoginFailure "Invalid credentials"
    \/ exists (u : user_row) (uw : user_with_roles) (jwt : string)
              (session : session_handle),
         r = LoginSuccess (Some uw) jwt session
         /\ In u (users (db w)) /\ u_email u = email
         /\ bcrypt_compare (libs w) password (u_password_hash u) = true
         /\ uw_id uw = u_id u
         /\ token session = uuidv4 (libs w) (uuid_ctr w)
         /\ expiresAt session = clock w + SESSION_TTL.
Proof.
  intros w email password ip ua r H.
  destruct (login email password ip ua w) as [o w'] eqn:E. simpl in H.
  subst o. unfold login in E.
  apply bind_ok in E. destruct E as [user [w1 [Hv E]]].
  pose proof (verifyUser_reads w email password) as Hdb.
  pose proof (verifyUser_some w email password) as Hsound.
  rewrite Hv in Hdb, Hsound. simpl in Hdb, Hsound.
  assert (Hbase : libs w1 = libs w /\ clock w1 = clock w /\
                  uuid_ctr w1 = uuid_ctr w).
  { revert Hv. unfold verifyUser, bind. rewrite pool_query_eq. simpl.
    destruct (down w Users); [discriminate|].
    destruct (sql_select_user_by_email email (db w)) as [|u0 rows0];
      simpl.
    - intros Hv. injection Hv as _ <-. auto.
    - destruct (negb _); intros Hv; injection Hv as _ <-; auto. }
  destruct Hbase as [Hl [Hc Hu]].
  destruct user as [p|].
  - right. destruct (Hsound p eq_refl) as [u [Hin [He [Hcmp Hp]]]].
    apply bind_ok in E. destruct E as [uwo [w2 [Hg E]]].
    apply bind_ok in E. destruct E as [jwt [w3 [Ht E]]].
    apply bind_ok in E. destruct E as [session [w4 [Hs E]]].
    apply bind_ok in E. destruct E as [x1 [w5 [_ E]]].
    apply bind_ok in E. destruct E as [x2 [w6 [_ E]]].
    injection E as <- _.
    destruct uwo as [uw|]; [|discriminate Ht].
    exists u, uw, jwt, session. split; [reflexivity|].
    split; [exact Hin|]. split; [exact He|]. split; [exact Hcmp|].
    (* the user object is a row of the id verifyUser returned *)
    unfold getUserWithRoles in Hg. apply bind_ok in Hg.
    destruct Hg as [rows' [w2' [Hq Hr]]].
    unfold ret in Hr. injection Hr as Hhd Hw22.
    apply pool_query_ok in Hq. destruct Hq as [d [Hrun Hw2]].
    destruct (user_id_binds (id p) (db w1)); [|discriminate Hrun].
    injection Hrun as Hrows Hd.
    assert (Huw : uw_id uw = id p).
    { rewrite <- Hrows in Hhd. unfold sql_select_user_with_roles in Hhd.
      destruct (filter _ (users (db w1))) as [|u0 us] eqn:Ef;
        [discriminate|].
      simpl in Hhd. injection Hhd as <-. simpl.
      assert (Hf : In u0 (filter (fun u1 => u_id u1 =? id p)
                                 (users (db w1)))).
      { rewrite Ef. left. reflexivity. }
      apply filter_In in Hf. apply Z.eqb_eq. tauto. }
    split; [rewrite Huw, Hp; reflexivity|].
    (* the session is the one createSession makes in this call *)
    assert (Hb3 : libs w3 = libs w /\ clock w3 = clock w /\
                  uuid_ctr w3 = uuid_ctr w).
    { simpl in Ht. injection Ht as _ <-. subst w2 w2'. simpl. auto. }
    destruct Hb3 as [Hl3 [Hc3 Hu3]].
    unfold createSession in Hs.
    apply bind_ok in Hs. destruct Hs as [tok [w3' [Hd' Hs]]].
    apply bind_ok in Hs. destruct Hs as [now [w3'' [Hn Hs]]].
    apply bind_ok in Hs. destruct Hs as [x0 [w4' [_ Hs]]].
    injection Hs as <- _.
    unfold uuidv4_call in Hd'. injection Hd' as <- <-.
    unfold date_now in Hn. injection Hn as <- <-. simpl.
    rewrite Hl3, Hu3, Hc3. split; reflexivity.
  - left. apply bind_ok in E. destruct E as [x [w2 [_ E]]].
    injection E as <- _. reflexivity.
Qed.

(** ** Roles *)

Lemma role_names_In (userId : Z) (d : Db) (name : string) :
  In name (role_names userId d) <->
  exists (ur : user_role_row) (r : role_row),
    In ur (user_roles d) /\ ur_user_id ur = userId /\
    In r (roles d) /\ r_id r = ur_role_id ur /\ r_name r = name.
Proof.
  unfold role_names. rewrite in_flat_map. split.
  - intros [ur [Hur Hin]]. apply filter_In in Hur. destruct Hur as [Hur Hu].
    apply in_map_iff in Hin. destruct Hin as [r [Hn Hr]].
    apply filter_In in Hr. destruct Hr as [Hr Hid].
    apply Z.eqb_eq in Hu. apply Z.eqb_eq in Hid. exists ur, r. auto.
  - intros [ur [r [Hur [Hu [Hr [Hid Hn]]]]]]. exists ur. split.
    + apply filter_In. split; [exact Hur|]. apply Z.eqb_eq. exact Hu.
    + apply in_map_iff. exists r. split; [exact Hn|].
      apply filter_In. split; [exact Hr|]. apply Z.eqb_eq. exact Hid.
Qed.

(** [getUserWithRoles] with the tables available: for an id no user has
    it resolves to undefined, without an error, when the id is in the
    range of INTEGER, and rejects with the range error when it is not;
    otherwise it resolves to a row of that id whose roles are exactly the
    names of the roles assigned to the id through [user_roles] -- an
    assignment to a role id that no row of [roles] has contributes
    nothing -- and nothing is written. *)
Theorem getUserWithRoles_roles :
  forall (w : World) (userId : Z),
    down w Users = false -> down w UserRoles = false ->
    down w Roles = false ->
    db (snd (getUserWithRoles userId w)) = db w
    /\ ((forall u, In u (users (db w)) -> u_id u <> userId) ->
        (int4 userId = true ->
         fst (getUserWithRoles userId w) = Ok None)
        /\ (int4 userId = false ->
            fst (getUserWithRoles userId w) = Throw IntegerOutOfRange))
    /\ ((exists u, In u (users (db w)) /\ u_id u = userId) ->
        exists uw : user_with_roles,
          fst (getUserWithRoles userId w) = Ok (Some uw)
          /\ uw_id uw = userId
          /\ forall name : string,
               In name (uw_roles uw) <->
               exists (ur : user_role_row) (r : role_row),
                 In ur (user_roles (db w)) /\ ur_user_id ur = userId /\
                 In r (roles (db w)) /\ r_id r = ur_role_id ur /\
                 r_name r = name).
Proof.
  intros w userId H1 H2 H3. rewrite (getUserWithRoles_run _ _ H1 H2 H3).
  split; [destruct (user_id_binds userId (db w)); reflexivity|].
  unfold sql_select_user_with_roles. split.
  - intros Hno. unfold user_id_binds.
    rewrite (no_user_no_id userId _ Hno), orb_false_r.
    split; intros Hr; rewrite Hr; [|reflexivity]. simpl.
    destruct (filter (fun u => u_id u =? userId) (users (db w)))
      as [|u0 us] eqn:Ef; [reflexivity|].
    exfalso.
    assert (Hf : In u0 (filter (fun u => u_id u =? userId) (users (db w)))).
    { rewrite Ef. left. reflexivity. }
    apply filter_In in Hf. destruct Hf as [Hin Hid].
    apply Z.eqb_eq in Hid. exact (Hno u0 Hin Hid).
  - intros [u [Hin Hid]].
    assert (He : existsb (fun u0 => u_id u0 =? userId) (users (db w))
                 = true).
    { apply existsb_exists. exists u. split; [exact Hin|].
      apply Z.eqb_eq. exact Hid. }
    rewrite (user_id_binds_stored _ _ He).
    destruct (filter (fun u => u_id u =? userId) (users (db w)))
      as [|u0 us] eqn:Ef.
    + exfalso.
      assert (Hf : In u (filter (fun u => u_id u =? userId) (users (db w)))).
      { apply filter_In. split; [exact Hin|]. apply Z.eqb_eq. exact Hid. }
      rewrite Ef in Hf. destruct Hf.
    + simpl. eexists. split; [reflexivity|]. simpl. split.
      * assert (Hf : In u0 (filter (fun u => u_id u =? userId)
                                   (users (db w)))).
        { rewrite Ef. left. reflexivity. }
        apply filter_In in Hf. apply Z.eqb_eq. tauto.
      * intros name.
        rewrite (rearranges_In _ _ name (arranged_rearranges _ _)).
        apply role_names_In.
Qed.

Lemma authorize_Next_iff (requiredRoles : list string) (req : PgAuth.request) :
  authorize requiredRoles req = Next <->
  exists (u : principal) (rs : list string) (role : string),
    PgAuth.user req = Some u /\ p_roles u = Some rs /\
    In role requiredRoles /\ In role rs.
Proof.
  unfold authorize. destruct (PgAuth.user req) as [u|].
  - destruct (existsb _ requiredRoles) eqn:E; simpl.
    + split; [intros _|reflexivity].
      apply existsb_exists in E. destruct E as [role [Hin Hr]].
      destruct (p_roles u) as [rs|] eqn:Er; [|discriminate].
      exists u, rs, role. apply includes_In in Hr. auto.
    + split; [discriminate|].
      intros [u' [rs [role [Hu [Hrs [Hin Hin']]]]]].
      injection Hu as <-. exfalso.
      assert (Ht : existsb
                     (fun role0 => match p_roles u with
                                   | Some rs0 => includes rs0 role0
                                   | None => false
                                   end) requiredRoles = true).
      { apply existsb_exists. exists role. split; [exact Hin|].
        rewrite Hrs. apply includes_In. exact Hin'. }
      rewrite Ht in E. discriminate.
  - split; [discriminate|]. intros [u [rs [role [Hu _]]]]. discriminate.
Qed.

(** [authorize] treats the required roles as alternatives and only looks
    at which names occur: requiring the names of two lists lets a request
    through exactly when one of the two lists would; a user who passes
    still passes with more roles; and the order and the repetitions of
    the names, required or held, make no difference. *)
Lemma authorize_alternatives :
  (forall (r1 r2 : list string) (req : PgAuth.request),
      authorize (r1 ++ r2) req = Next <->
      authorize r1 req = Next \/ authorize r2 req = Next)
  /\ (forall (required rs rs' : list string) (n : Z) (name : string),
         (forall x, In x rs -> In x rs') ->
         authorize required
           (PgAuth.mkRequest (Some (mkPrincipal n name (Some rs)))) = Next ->
         authorize required
           (PgAuth.mkRequest (Some (mkPrincipal n name (Some rs')))) = Next)
  /\ (forall (required required' rs rs' : list string) (n : Z)
             (name : string),
         (forall x, In x required <-> In x required') ->
         (forall x, In x rs <-> In x rs') ->
         authorize required
           (PgAuth.mkRequest (Some (mkPrincipal n name (Some rs))))
         = authorize required'
             (PgAuth.mkRequest (Some (mkPrincipal n name (Some rs'))))).
Proof.
  split; [|split].
  - intros r1 r2 req. rewrite !authorize_Next_iff. split.
    + intros [u [rs [role [Hu [Hrs [Hin Hin']]]]]].
      apply in_app_or in Hin. destruct Hin as [Hin|Hin]; [left|right];
        exists u, rs, role; auto.
    + intros [[u [rs [role [Hu [Hrs [Hin Hin']]]]]]
             |[u [rs [role [Hu [Hrs [Hin Hin']]]]]]];
        exists u, rs, role; repeat split; auto; apply in_or_app; auto.
  - intros required rs rs' n name Hsub. rewrite !authorize_Next_iff.
    intros [u [rs0 [role [Hu [Hrs [Hin Hin']]]]]].
    simpl in Hu. injection Hu as <-. simpl in Hrs. injection Hrs as <-.
    eexists. exists rs', role. simpl. repeat split; auto.
  - intros required required' rs rs' n name Hreq Hrs.
    assert (Hiff : authorize required
                     (PgAuth.mkRequest (Some (mkPrincipal n name (Some rs))))
                   = Next <->
                   authorize required'
                     (PgAuth.mkRequest (Some (mkPrincipal n name (Some rs'))))
                   = Next).
    { rewrite !authorize_Next_iff. split;
        intros [u [rs0 [role [Hu [Hr [Hin Hin']]]]]];
        simpl in Hu; injection Hu as <-; simpl in Hr; injection Hr as <-;
        eexists; eexists; exists role; simpl;
        (split; [reflexivity|]); (split; [reflexivity|]);
        split; try (apply Hreq; exact Hin); try (apply Hrs; exact Hin'). }
    unfold authorize in *. simpl in *.
    destruct (existsb _ required); destruct (existsb _ required');
      simpl in *; try reflexivity.
    + destruct Hiff as [Hf _]. specialize (Hf eq_refl). discriminate.
    + destruct Hiff as [_ Hf]. specialize (Hf eq_refl). discriminate.
Qed.

(** ** The session controller *)

(** The controller's [login] always answers: whatever [findByEmail] does
    -- resolve, find nothing, reject -- the handler resolves with a
    response of status 200, 400, 401 or 500 and lets no exception out.
    Unless the status is 200 the session is left as it was and no user
    data is sent.  Status 200 is given only when [findByEmail] found an
    active account for the email of the body and [bcrypt.compare]
    accepted the password against its hash; the session then holds that
    account's id and role, and the body the account without its hash. *)
Theorem controller_login_always_answers :
  forall (findByEmail : string -> Async (option SessionAuth.account))
         (req : SessionAuth.request) (w : World),
    exists (resp : SessionAuth.response)
           (sess : option SessionAuth.session_data) (w' : World),
      SessionAuth.login findByEmail req w = (Ok (resp, sess), w')
      /\ In (SessionAuth.status resp) [200; 400; 401; 500]
      /\ (SessionAuth.status resp <> 200 ->
          sess = SessionAuth.session req /\
          SessionAuth.body_user resp = None)
      /\ (SessionAuth.status resp = 200 ->
          exists (a : SessionAuth.account) (email password : string)
                 (w1 : World),
            SessionAuth.body_email req = Some email
            /\ SessionAuth.body_password req = Some password
            /\ findByEmail email w = (Ok (Some a), w1)
            /\ SessionAuth.is_active a = true
            /\ bcrypt_compare (libs w1) password (SessionAuth.password_hash a)
               = true
            /\ SessionAuth.body_user resp
               = Some (SessionAuth.without_password a)
            /\ sess = Some (SessionAuth.mkSessionData
                              (Some (SessionAuth.id a))
                              (Some (SessionAuth.role a)))).
Proof.
  intros f req w.
  assert (Hbad : forall (st : Z) (m : string) (w' : World),
             In st [400; 401; 500] ->
             exists resp sess w0,
               (Ok (SessionAuth.mkResponse st m None, SessionAuth.session req),
                w')
               = (Ok (resp, sess), w0)
               /\ In (SessionAuth.status resp) [200; 400; 401; 500]
               /\ (SessionAuth.status resp <> 200 ->
                   sess = SessionAuth.session req /\
                   SessionAuth.body_user resp = None)
               /\ (SessionAuth.status resp = 200 ->
                   exists a email password w1,
                     SessionAuth.body_email req = Some email
                     /\ SessionAuth.body_password req = Some password
                     /\ f email w = (Ok (Some a), w1)
                     /\ SessionAuth.is_active a = true
                     /\ bcrypt_compare (libs w1) password
                          (SessionAuth.password_hash a) = true
                     /\ SessionAuth.body_user resp
                        = Some (SessionAuth.without_password a)
                     /\ sess = Some (SessionAuth.mkSessionData
                                       (Some (SessionAuth.id a))
                                       (Some (SessionAuth.role a))))).
  { intros st m w' Hst. eexists. eexists. eexists.
    split; [reflexivity|]. simpl. split; [right; exact Hst|].
    split; [intros _; split; reflexivity|].
    intros H200. subst st. simpl in Hst.
    destruct Hst as [H|[H|[H|[]]]]; discriminate H. }
  unfold SessionAuth.login, catch, bind, ret, throw.
  destruct (SessionAuth.body_email req) as [email|] eqn:He;
    [|apply Hbad; simpl; auto].
  destruct (SessionAuth.body_password req) as [password|] eqn:Hp;
    [|apply Hbad; simpl; auto].
  destruct (SessionAuth.falsy (Some email)
            || SessionAuth.falsy (Some password));
    [apply Hbad; simpl; auto|].
  destruct (f email w) as [[[a|]|e] w1] eqn:Hf;
    [|apply Hbad; simpl; auto|apply Hbad; simpl; auto].
  destruct (SessionAuth.is_active a) eqn:Ha; simpl;
    [|apply Hbad; simpl; auto].
  destruct (bcrypt_compare (libs w1) password (SessionAuth.password_hash a))
    eqn:Hc; simpl; [|apply Hbad; simpl; auto].
  destruct (SessionAuth.session req) as [sd|] eqn:Hs;
    [|apply Hbad; simpl; auto].
  eexists. eexists. eexists. split; [reflexivity|]. simpl.
  split; [left; reflexivity|]. split; [intros H; contradiction|].
  intros _. exists a, email, password, w1. repeat split; auto.
Qed.

(** The early exits of the controller's [login].  When the body lacks the
    email or the password, or one of them is the empty string, the answer
    is 400 and [findByEmail] is not called: the world stays as it was.
    When the account found is inactive, the answer is 401 "Account is
    inactive" whatever the password is, and [bcrypt.compare] is not
    called: the world is what [findByEmail] left. *)
Lemma controller_login_early_exits :
  forall (findByEmail : string -> Async (option SessionAuth.account))
         (req : SessionAuth.request) (w : World),
    (SessionAuth.falsy (SessionAuth.body_email req)
     || SessionAuth.falsy (SessionAuth.body_password req) = true ->
     SessionAuth.login findByEmail req w
     = (Ok (SessionAuth.mkResponse 400 "Email and password are required"
                                   None,
            SessionAuth.session req), w))
    /\
    (forall (email password : string) (a : SessionAuth.account)
            (w1 : World),
        SessionAuth.body_email req = Some email ->
        SessionAuth.body_password req = Some password ->
        email <> "" -> password <> "" ->
        findByEmail email w = (Ok (Some a), w1) ->
        SessionAuth.is_active a = false ->
        SessionAuth.login findByEmail req w
        = (Ok (SessionAuth.mkResponse 401 "Account is inactive" None,
               SessionAuth.session req), w1)).
Proof.
  intros f req w. split.
  - intros Hfalsy. unfold SessionAuth.login, catch, ret.
    destruct (SessionAuth.body_email req) as [email|];
      [|reflexivity].
    destruct (SessionAuth.body_password req) as [password|];
      [|reflexivity].
    rewrite Hfalsy. reflexivity.
  - intros email password a w1 He Hp Hne Hnp Hf Ha.
    assert (Hok : SessionAuth.falsy (Some email)
                  || SessionAuth.falsy (Some password) = false).
    { simpl. destruct (String.eqb_spec email "") as [E|E]; [contradiction|].
      destruct (String.eqb_spec password "") as [E'|E']; [contradiction|].
      reflexivity. }
    unfold SessionAuth.login, catch, bind. rewrite He, Hp, Hok, Hf, Ha.
    reflexivity.
Qed.

(** After a successful login the session the controller leaves passes the
    middleware of the same service: [isAuthenticated] lets it through and
    so does [hasRole] for the account's own role; if that role is admin,
    [hasRole] lets it through for every role, and otherwise it answers
    403 for every other role.  The one exception is an account whose id
    is 0, which JavaScript takes for no id: its session is answered 401 by
    both. *)
Theorem controller_login_then_middleware :
  forall (a : SessionAuth.account) (req : SessionAuth.request),
    SessionAuth.session req
    = Some (SessionAuth.mkSessionData (Some (SessionAuth.id a))
                                      (Some (SessionAuth.role a))) ->
    (SessionAuth.id a <> 0 ->
     SessionAuth.isAuthenticated req = Next
     /\ SessionAuth.hasRole (SessionAuth.role a) req = Next
     /\ (SessionAuth.role a = "admin" ->
         forall r, SessionAuth.hasRole r req = Next)
     /\ (forall r, r <> SessionAuth.role a ->
                   SessionAuth.role a <> "admin" ->
                   SessionAuth.hasRole r req
                   = Respond 403 "Insufficient permissions"))
    /\
    (SessionAuth.id a = 0 ->
     SessionAuth.isAuthenticated req
     = Respond 401 "Authentication required"
     /\ forall r, SessionAuth.hasRole r req
                  = Respond 401 "Authentication required").
Proof.
  intros a req Hs. unfold SessionAuth.isAuthenticated, SessionAuth.hasRole,
                     SessionAuth.no_session_user.
  rewrite Hs. simpl. split.
  - intros Hid. destruct (Z.eqb_spec (SessionAuth.id a) 0) as [E|E];
      [contradiction|].
    split; [reflexivity|]. split; [|split].
    + rewrite String.eqb_refl. reflexivity.
    + intros Hadmin r. rewrite Hadmin.
      destruct ("admin" =? r)%string; reflexivity.
    + intros r Hr Hna.
      destruct (String.eqb_spec (SessionAuth.role a) r) as [E1|E1];
        [congruence|].
      destruct (String.eqb_spec (SessionAuth.role a) "admin") as [E2|E2];
        [contradiction|].
      reflexivity.
  - intros Hid. rewrite Hid. simpl. split; [reflexivity|].
    intros r. reflexivity.
Qed.

(** ** The password policy *)

Import Password.

Lemma dots_to_end_iff (n : nat) (s : jsstring) :
  dots_to_end n s = true <-> (n <= length s)%nat /\ forallb dot s = true.
Proof.
  revert n. induction s as [|c r IH]; intros n; simpl.
  - destruct n; split; intros H; try discriminate.
    + split; [lia|reflexivity].
    + reflexivity.
    + destruct H as [H _]. lia.
  - rewrite andb_true_iff, IH, andb_true_iff. split.
    + intros [Hd [Hn Hr]]. repeat split; auto. lia.
    + intros [Hn [Hd Hr]]. repeat split; auto. lia.
Qed.

Lemma lookahead_all_dots (class : Z -> bool) (s : jsstring) :
  forallb dot s = true -> lookahead class s = existsb class s.
Proof.
  induction s as [|c r IH]; simpl; [reflexivity|].
  intros H. apply andb_prop in H. destruct H as [Hc Hr].
  rewrite Hc, (IH Hr). reflexivity.
Qed.

Lemma dot_iff (c : Z) :
  dot c = true <-> c <> 10 /\ c <> 13 /\ c <> 8232 /\ c <> 8233.
Proof.
  unfold dot. rewrite negb_true_iff, !orb_false_iff, !Z.eqb_neq. tauto.
Qed.

Lemma range_iff (lo hi c : Z) :
  (lo <=? c) && (c <=? hi) = true <-> lo <= c <= hi.
Proof. rewrite andb_true_iff, !Z.leb_le. tauto. Qed.

Lemma existsb_range (lo hi : Z) (s : jsstring) :
  existsb (fun c => (lo <=? c) && (c <=? hi)) s = true <->
  exists c, In c s /\ lo <= c <= hi.
Proof.
  rewrite existsb_exists. split; intros [c [Hin Hc]]; exists c;
    (split; [exact Hin|]); apply range_iff; exact Hc.
Qed.

(** What [validatePassword] accepts: exactly the strings of at least 8
    code units, none of them a line terminator (code 10, 13, 8232 or
    8233), that hold a letter a-z, a letter A-Z and a digit 0-9.  Nothing
    else is asked: no special character, no upper bound on the length,
    so a password once accepted stays accepted when characters other
    than line terminators are put before or after it. *)
Theorem validatePassword_accepts :
  (forall p : jsstring,
      validatePassword p = true <->
      (8 <= length p)%nat
      /\ (forall c, In c p ->
                    c <> 10 /\ c <> 13 /\ c <> 8232 /\ c <> 8233)
      /\ (exists c, In c p /\ 97 <= c <= 122)
      /\ (exists c, In c p /\ 65 <= c <= 90)
      /\ (exists c, In c p /\ 48 <= c <= 57))
  /\
  (forall p before after : jsstring,
      validatePassword p = true ->
      forallb dot before = true -> forallb dot after = true ->
      validatePassword (before ++ p ++ after) = true).
Proof.
  assert (Hiff : forall p : jsstring,
             validatePassword p = true <->
             (8 <= length p)%nat /\ forallb dot p = true
             /\ existsb lower p = true /\ existsb upper p = true
             /\ existsb digit p = true).
  { intros p. unfold validatePassword.
    rewrite !andb_true_iff, dots_to_end_iff. split.
    - intros [[[Hl Hu] Hd] [Hn Hdots]].
      rewrite (lookahead_all_dots lower _ Hdots) in Hl.
      rewrite (lookahead_all_dots upper _ Hdots) in Hu.
      rewrite (lookahead_all_dots digit _ Hdots) in Hd. tauto.
    - intros [Hn [Hdots [Hl [Hu Hd]]]].
      rewrite (lookahead_all_dots lower _ Hdots),
        (lookahead_all_dots upper _ Hdots),
        (lookahead_all_dots digit _ Hdots). tauto. }
  split.
  - intros p. rewrite Hiff. unfold lower, upper, digit.
    rewrite !existsb_range, forallb_forall.
    split; intros [Hn [Hdots Hrest]]; (split; [exact Hn|]);
      (split; [|exact Hrest]); intros c Hin; apply dot_iff; auto.
  - intros p before after Hp Hb Ha. apply Hiff in Hp. apply Hiff.
    destruct Hp as [Hn [Hdots [Hl [Hu Hd]]]].
    rewrite !length_app, !forallb_app, !existsb_app, Hb, Ha, Hdots, Hl, Hu,
      Hd. simpl. rewrite !orb_true_r. repeat split; auto. lia.
Qed.

(** ** The token middleware *)

Import Bearer.

Lemma split_space_head (s : string) :
  exists pieces, split_space s = until_space s :: pieces.
Proof.
  induction s as [|c r [pieces IH]]; simpl.
  - exists []. reflexivity.
  - rewrite IH. destruct (Ascii.eqb c " "); eexists; reflexivity.
Qed.

Lemma split_after_word (word rest : string) :
  until_space word = word ->
  split_space (word ++ String " " rest) = word :: split_space rest.
Proof.
  induction word as [|c r IH]; simpl.
  - intros _. destruct (split_space_head rest) as [pieces ->]. reflexivity.
  - destruct (Ascii.eqb c " ") eqn:E; [discriminate|].
    intros H. injection H as H. rewrite (IH H). reflexivity.
Qed.

Lemma second_piece (word rest : string) :
  until_space word = word ->
  nth_error (split_space (word ++ String " " rest)) 1
  = Some (until_space rest).
Proof.
  intros H. rewrite (split_after_word word rest H).
  destruct (split_space_head rest) as [pieces ->]. reflexivity.
Qed.

Lemma prefix_iff (p s : string) :
  String.prefix p s = true <-> exists rest, s = (p ++ rest)%string.
Proof.
  revert s. induction p as [|c p IH]; intros s.
  - split; [intros _; exists s; reflexivity|].
    intros _. destruct s; reflexivity.
  - destruct s as [|c' s]; simpl;
      [split; [discriminate|intros [r Hr]; discriminate]|].
    destruct (Ascii.ascii_dec c c') as [->|Hne].
    + rewrite IH. split; intros [rest Hr]; exists rest; congruence.
    + split; [discriminate|]. intros [rest Hr]. congruence.
Qed.

Lemma authenticate_bearer (verify : option string -> option principal)
    (req : Bearer.request) (rest : string) :
  authorization req = Some ("Bearer " ++ rest)%string ->
  authenticate verify req =
  match verify (Some (until_space rest)) with
  | None => (Respond 401 "Invalid or expired token", req)
  | Some payload => (Next, set_user payload req)
  end.
Proof.
  intros Hh. unfold authenticate. rewrite Hh.
  assert (Hp : startsWith ("Bearer " ++ rest) "Bearer " = true).
  { apply prefix_iff. exists rest. reflexivity. }
  rewrite Hp. simpl orb. cbv iota.
  change ("Bearer " ++ rest)%string with ("Bearer" ++ String " " rest)%string.
  rewrite (second_piece "Bearer" rest eq_refl). reflexivity.
Qed.

Lemma authenticate_Next_iff (verify : option string -> option principal)
    (req req' : Bearer.request) :
  authenticate verify req = (Next, req') <->
  exists (rest : string) (payload : principal),
    authorization req = Some ("Bearer " ++ rest)%string
    /\ verify (Some (until_space rest)) = Some payload
    /\ req' = set_user payload req.
Proof.
  split.
  - unfold authenticate.
    destruct (authorization req) as [h|] eqn:Hh; [|discriminate].
    destruct (h =? "")%string; [discriminate|]. simpl orb.
    destruct (startsWith h "Bearer ") eqn:Hp; [|discriminate].
    apply prefix_iff in Hp. destruct Hp as [rest ->]. simpl negb.
    cbv iota.
    change ("Bearer " ++ rest)%string
      with ("Bearer" ++ String " " rest)%string.
    rewrite (second_piece "Bearer" rest eq_refl).
    destruct (verify (Some (until_space rest))) as [p|] eqn:Hv;
      [|discriminate].
    intros H. injection H as <-. exists rest, p. auto.
  - intros [rest [p [Hh [Hv ->]]]].
    rewrite (authenticate_bearer verify req rest Hh), Hv. reflexivity.
Qed.

Lemma authenticate_answers_401 (verify : option string -> option principal)
    (req : Bearer.request) :
  fst (authenticate verify req) <> Next ->
  exists msg : string, authenticate verify req = (Respond 401 msg, req).
Proof.
  unfold authenticate.
  destruct (authorization req) as [h|]; [|eexists; reflexivity].
  destruct ((h =? "")%string || negb (startsWith h "Bearer "));
    [eexists; reflexivity|].
  destruct (verify _); simpl; intros H;
    [contradiction|eexists; reflexivity].
Qed.

Lemma bearer_rest_inj (a b : string) :
  Some ("Bearer " ++ a)%string = Some ("Bearer " ++ b)%string -> a = b.
Proof. intros H. injection H as H. exact H. Qed.

(** [authenticate] lets a request through exactly when its authorization
    header is ["Bearer "] followed by a token that verifies, the token
    being what follows up to the next space or the end (the empty string
    when nothing or a second space follows); [req.user] is then the
    verified payload.  Every other request -- no header, another scheme
    or another spelling of it, a token that does not verify -- is
    answered 401 and left as it was. *)
Theorem authenticate_accepts :
  forall (verify : option string -> option principal)
         (req : Bearer.request),
    (forall req' : Bearer.request,
        authenticate verify req = (Next, req') <->
        exists (rest : string) (payload : principal),
          authorization req = Some ("Bearer " ++ rest)%string
          /\ verify (Some (until_space rest)) = Some payload
          /\ req' = set_user payload req)
    /\ (fst (authenticate verify req) <> Next ->
        exists msg : string,
          authenticate verify req = (Respond 401 msg, req)).
Proof.
  intros verify req. split.
  - intros req'. apply authenticate_Next_iff.
  - apply authenticate_answers_401.
Qed.

(** The route [/api/users], guarded by [authenticate] and
    [authorize(['admin'])]: its handler runs exactly for a request with a
    well-formed bearer header whose token verifies to a payload holding
    the role admin; the handler sees that payload as [req.user].  Every
    other request is answered 401 or 403 and the handler does not run.
    The route [/api/profile], guarded by [authenticate] alone, runs its
    handler for every payload that verifies, whatever its roles. *)
Theorem api_users_admin_only :
  forall (verify : option string -> option principal)
         (req : Bearer.request),
    (forall req' : Bearer.request,
        api_users verify req = Reached req' <->
        exists (rest : string) (payload : principal) (rs : list string),
          authorization req = Some ("Bearer " ++ rest)%string
          /\ verify (Some (until_space rest)) = Some payload
          /\ p_roles payload = Some rs /\ In "admin" rs
          /\ req' = set_user payload req)
    /\ (forall (st : Z) (msg : string),
           api_users verify req = Answered st msg -> st = 401 \/ st = 403)
    /\ (forall req' : Bearer.request,
           api_users verify req = Reached req' ->
           api_profile verify req = Reached req')
    /\ (forall (rest : string) (payload : principal),
           authorization req = Some ("Bearer " ++ rest)%string ->
           verify (Some (until_space rest)) = Some payload ->
           api_profile verify req = Reached (set_user payload req)).
Proof.
  intros verify req.
  pose proof (authenticate_Next_iff verify req) as Hacc.
  pose proof (authenticate_answers_401 verify req) as Hrej.
  assert (Hprofile : forall rest payload,
             authorization req = Some ("Bearer " ++ rest)%string ->
             verify (Some (until_space rest)) = Some payload ->
             api_profile verify req = Reached (set_user payload req)).
  { intros rest payload Hh Hv. unfold api_profile, through.
    rewrite (authenticate_bearer verify req rest Hh), Hv. reflexivity. }
  assert (Husers : forall req',
             api_users verify req = Reached req' <->
             exists rest payload rs,
               authorization req = Some ("Bearer " ++ rest)%string
               /\ verify (Some (until_space rest)) = Some payload
               /\ p_roles payload = Some rs /\ In "admin" rs
               /\ req' = set_user payload req).
  { intros req'. unfold api_users, through, authorize_mw. split.
    - destruct (authenticate verify req) as [[|st0 msg0] req1] eqn:Ea;
        [|discriminate].
      destruct (proj1 (Hacc req1) eq_refl) as [rest [p [Hh [Hv Hreq]]]].
      destruct (authorize ["admin"] (for_authorize req1)) as [|st1 msg1]
        eqn:Ez; [|discriminate].
      intros H. injection H as <-.
      apply authorize_Next_iff in Ez.
      destruct Ez as [u [rs [role [Hu [Hr [Hin Hin']]]]]].
      destruct Hin as [<-|[]]. subst req1. simpl in Hu.
      injection Hu as <-. exists rest, p, rs. auto.
    - intros [rest [p [rs [Hh [Hv [Hr [Hin ->]]]]]]].
      rewrite (authenticate_bearer verify req rest Hh), Hv.
      assert (Hz : authorize ["admin"] (for_authorize (set_user p req))
                   = Next).
      { apply authorize_Next_iff. exists p, rs, "admin". simpl.
        repeat split; auto. }
      rewrite Hz. reflexivity. }
  split; [exact Husers|]. split; [|split].
  - intros st msg. unfold api_users, through, authorize_mw.
    destruct (authenticate verify req) as [[|st0 msg0] req1] eqn:Ea.
    + unfold authorize. destruct (PgAuth.user (for_authorize req1)).
      * destruct (negb _); [|discriminate]. intros H. injection H as <- _.
        right. reflexivity.
      * intros H. injection H as <- _. left. reflexivity.
    + intros H. injection H as <- _.
      destruct Hrej as [m Hm]; [simpl; discriminate|].
      injection Hm as -> _ _. left. reflexivity.
  - intros req' H. apply Husers in H.
    destruct H as [rest [p [rs [Hh [Hv [_ [_ ->]]]]]]].
    apply (Hprofile rest p Hh Hv).
  - exact Hprofile.
Qed.

(** The two token middleware compared.  A request [authenticate] lets
    through is let through by [authenticateJWT] with the same
    [req.user].  [authenticateJWT] does not look at the scheme: any one
    word before the space will do, and a header without a space hands an
    undefined token to the verifier.  A token that does not verify is
    answered 403 by [authenticateJWT] where [authenticate] answers 401. *)
Theorem authenticateJWT_is_laxer :
  forall (verify : option string -> option principal)
         (req : Bearer.request),
    (fst (authenticate verify req) = Next ->
     authenticateJWT verify req = authenticate verify req)
    /\ (forall (scheme rest : string) (payload : principal),
           scheme <> "" -> until_space scheme = scheme ->
           authorization req = Some (scheme ++ String " " rest)%string ->
           verify (Some (until_space rest)) = Some payload ->
           authenticateJWT verify req = (Next, set_user payload req))
    /\ (forall word : string,
           word <> "" -> until_space word = word ->
           authorization req = Some word ->
           authenticateJWT verify req =
           match verify None with
           | None => (Respond 403 "Invalid token", req)
           | Some u => (Next, set_user u req)
           end)
    /\ (forall rest : string,
           authorization req = Some ("Bearer " ++ rest)%string ->
           verify (Some (until_space rest)) = None ->
           authenticate verify req
           = (Respond 401 "Invalid or expired token", req)
           /\ authenticateJWT verify req
              = (Respond 403 "Invalid token", req)).
Proof.
  intros verify req.
  assert (Hjwt : forall scheme rest,
             scheme <> "" -> until_space scheme = scheme ->
             authorization req = Some (scheme ++ String " " rest)%string ->
             authenticateJWT verify req =
             match verify (Some (until_space rest)) with
             | None => (Respond 403 "Invalid token", req)
             | Some u => (Next, set_user u req)
             end).
  { intros scheme rest Hne Hw Hh. unfold authenticateJWT. rewrite Hh.
    destruct scheme as [|c scheme]; [contradiction|]. simpl String.eqb.
    cbv iota.
    rewrite (second_piece (String c scheme) rest Hw). reflexivity. }
  split; [|split; [|split]].
  - intros Hn.
    destruct (authenticate verify req) as [r req1] eqn:Ea. simpl in Hn.
    subst r.
    destruct (authenticate_Next_iff verify req req1) as [Hfw _].
    destruct (Hfw Ea) as [rest [p [Hh [Hv ->]]]].
    rewrite (Hjwt "Bearer" rest); [rewrite Hv; reflexivity|discriminate
                                  |reflexivity|exact Hh].
  - intros scheme rest payload Hne Hw Hh Hv.
    rewrite (Hjwt scheme rest Hne Hw Hh), Hv. reflexivity.
  - intros word Hne Hw Hh. unfold authenticateJWT. rewrite Hh.
    destruct word as [|c word]; [contradiction|]. simpl String.eqb.
    cbv iota.
    assert (Hs : split_space (String c word) = [String c word]).
    { clear Hh Hne. revert Hw. generalize (String c word). intros s.
      induction s as [|a s IH]; simpl; [reflexivity|].
      destruct (Ascii.eqb a " "); [discriminate|].
      intros H. injection H as H. rewrite (IH H). reflexivity. }
    rewrite Hs. reflexivity.
  - intros rest Hh Hv. split.
    + rewrite (authenticate_bearer verify req rest Hh), Hv. reflexivity.
    + rewrite (Hjwt "Bearer" rest); [rewrite Hv; reflexivity|discriminate
                                    |reflexivity|exact Hh].
Qed.

(** ** Registration *)

Import Accounts.

Lemma existsb_false_iff {A} (p : A -> bool) (l : list A) :
  existsb p l = false <-> forall x, In x l -> p x = false.
Proof.
  split.
  - intros H x Hin. destruct (p x) eqn:E; [|reflexivity].
    assert (Ht : existsb p l = true).
    { apply existsb_exists. exists x. auto. }
    rewrite Ht in H. discriminate.
  - intros H. destruct (existsb p l) eqn:E; [|reflexivity].
    apply existsb_exists in E. destruct E as [x [Hin Hp]].
    rewrite (H x Hin) in Hp. discriminate.
Qed.

Lemma filter_nil_iff {A} (p : A -> bool) (l : list A) :
  (forall x, In x l -> p x = false) -> filter p l = [].
Proof.
  intros H. induction l as [|a l IH]; simpl; [reflexivity|].
  rewrite (H a (or_introl eq_refl)). apply IH.
  intros x Hx. apply H. right. exact Hx.
Qed.

Lemma registerUser_run (username email password : string) (v : Vault) :
  down (world v) Users = false ->
  registerUser username email password v =
  match sql_insert_user username email
          (bcrypt_hash v password 12 (salts_drawn v)) (clock (world v))
          (mkVault (world v) (reset_token v) (reset_token_expires v)
                   (description v) (users_id_seq v) (roles_id_seq v)
                   (bcrypt_hash v) (S (salts_drawn v)) (randomBytes_hex v)
                   (random_drawn v)) with
  | inl (f, v') => (Failed f, v')
  | inr (newId, v') => (Done newId, v')
  end.
Proof.
  intros Hup. unfold registerUser, andThen, bcrypt_hash_call. simpl.
  rewrite Hup. reflexivity.
Qed.



Lemma NoDup_map_snoc {A K} (f : A -> K) (l : list A) (x : A) :
  NoDup (map f l) -> (forall y, In y l -> f y <> f x) ->
  NoDup (map f (l ++ [x])).
Proof.
  intros Hnd Hx. rewrite map_app. simpl. apply NoDup_snoc; [exact Hnd|].
  intros Hin. apply in_map_iff in Hin. destruct Hin as [y [Hy Hin]].
  exact (Hx y Hin Hy).
Qed.

(** [registerUser] keeps the users distinguishable: if no two stored
    users share an id, a username or an email, then the same holds after
    the call, however it ends. *)
Theorem register_keeps_users_unique :
  forall (v : Vault) (username email password : string),
    users_unique v ->
    users_unique (snd (registerUser username email password v)).
Proof.
  intros v username email password [Hi [Hn He]].
  unfold registerUser, andThen, bcrypt_hash_call. simpl.
  destruct (down (world v) Users); [repeat split; assumption|].
  unfold sql_insert_user. cbn [world users_id_seq].
  destruct (varchar 100 username) as [username'|];
    [|repeat split; assumption].
  destruct (varchar 255 email) as [email'|]; [|repeat split; assumption].
  destruct (varchar 255 _) as [hash'|]; [|repeat split; assumption].
  destruct (existsb (fun u0 => u_id u0 =? users_id_seq v + 1) _) eqn:E1;
    [repeat split; assumption|].
  destruct (existsb (fun u0 => (u_username u0 =? username')%string) _)
    eqn:E2; [repeat split; assumption|].
  destruct (existsb (fun u0 => (u_email u0 =? email')%string) _) eqn:E3;
    [repeat split; assumption|].
  rewrite existsb_false_iff in E1, E2, E3.
  unfold users_unique. simpl. split; [|split]; apply NoDup_map_snoc;
    try assumption; intros y Hy; simpl.
  - apply Z.eqb_neq. apply E1. exact Hy.
  - apply String.eqb_neq. apply E2. exact Hy.
  - apply String.eqb_neq. apply E3. exact Hy.
Qed.

(** ** Password reset *)

Lemma keyed_inj {A K} (f : A -> K) (l : list A) (x y : A) :
  NoDup (map f l) -> In x l -> In y l -> f x = f y -> x = y.
Proof.
  induction l as [|a l IH]; intros Hnd Hx Hy Hf; [destruct Hx|].
  simpl in Hnd. apply NoDup_cons_iff in Hnd. destruct Hnd as [Hna Hnd].
  destruct Hx as [->|Hx], Hy as [->|Hy].
  - reflexivity.
  - exfalso. apply Hna. rewrite Hf. apply in_map. exact Hy.
  - exfalso. apply Hna. rewrite <- Hf. apply in_map. exact Hx.
  - apply IH; assumption.
Qed.

Lemma createPasswordReset_run (email : string) (v : Vault) :
  down (world v) Users = false ->
  fits 255 (randomBytes_hex v (random_drawn v)) = true ->
  createPasswordReset email v =
  (Done (randomBytes_hex v (random_drawn v)),
   sql_set_reset_token (randomBytes_hex v (random_drawn v))
     (clock (world v) + RESET_TTL) email
     (mkVault (world v) (reset_token v) (reset_token_expires v)
              (description v) (users_id_seq v) (roles_id_seq v)
              (bcrypt_hash v) (salts_drawn v) (randomBytes_hex v)
              (S (random_drawn v)))).
Proof.
  intros Hup Hfit.
  unfold createPasswordReset, andThen, randomBytes_call, lift, date_now,
    query, done, set_world.
  cbn [world reset_token reset_token_expires description users_id_seq
       roles_id_seq bcrypt_hash salts_drawn randomBytes_hex random_drawn
       find].
  rewrite Hup, (varchar_fits _ _ Hfit). reflexivity.
Qed.

Lemma resetPassword_run (token newPassword : string) (v : Vault) :
  down (world v) Users = false ->
  resetPassword token newPassword v =
  match sql_select_by_reset_token token (clock (world v)) v with
  | [] => (Done (ResetRefused "Invalid or expired token"), v)
  | userId :: _ =>
      let v' := mkVault (world v) (reset_token v) (reset_token_expires v)
                        (description v) (users_id_seq v) (roles_id_seq v)
                        (bcrypt_hash v) (S (salts_drawn v))
                        (randomBytes_hex v) (random_drawn v) in
      match varchar 255 (bcrypt_hash v newPassword 12 (salts_drawn v)) with
      | Some stored =>
          (Done ResetDone, sql_update_password stored userId v')
      | None => (Failed (ValueTooLong 255), v')
      end
  end.
Proof.
  intros Hup. unfold resetPassword, andThen, query at 1.
  cbn [find]. rewrite Hup.
  destruct (sql_select_by_reset_token token (clock (world v)) v)
    as [|userId rows]; [reflexivity|].
  unfold bcrypt_hash_call, query, done.
  cbn [world bcrypt_hash salts_drawn find]. rewrite Hup.
  destruct (varchar 255 _); reflexivity.
Qed.

(** The two ways the token query of [resetPassword] comes out. *)
Lemma select_by_reset_token_none (token : string) (now : Z) (v : Vault) :
  (forall x, In x (users (db (world v))) ->
             reset_token v (u_id x) <> Some token
             \/ (forall e, reset_token_expires v (u_id x) = Some e ->
                           e <= now)) ->
  sql_select_by_reset_token token now v = [].
Proof.
  intros H. unfold sql_select_by_reset_token.
  rewrite filter_nil_iff; [reflexivity|].
  intros x Hx. destruct (reset_token v (u_id x)) as [t|] eqn:Et;
    [|reflexivity].
  destruct (reset_token_expires v (u_id x)) as [e|] eqn:Ee; [|reflexivity].
  destruct (H x Hx) as [Hne|Hexp].
  - rewrite Et in Hne.
    destruct (String.eqb_spec t token) as [->|]; [|reflexivity].
    exfalso. apply Hne. reflexivity.
  - specialize (Hexp e Ee).
    assert (Hlt : (now <? e) = false) by (apply Z.ltb_ge; exact Hexp).
    rewrite Hlt. apply andb_false_r.
Qed.

Lemma select_by_reset_token_one (token : string) (now e : Z) (v : Vault)
    (u : user_row) :
  NoDup (map u_id (users (db (world v)))) ->
  In u (users (db (world v))) ->
  reset_token v (u_id u) = Some token ->
  reset_token_expires v (u_id u) = Some e -> now < e ->
  (forall x, In x (users (db (world v))) ->
             reset_token v (u_id x) = Some token -> u_id x = u_id u) ->
  sql_select_by_reset_token token now v = [u_id u].
Proof.
  intros Hnd Hin Ht He Hlt Honly. unfold sql_select_by_reset_token.
  rewrite (filter_keyed u_id _ (users (db (world v))) u Hnd Hin).
  - reflexivity.
  - rewrite Ht, He, String.eqb_refl.
    apply andb_true_iff. split; [reflexivity|]. apply Z.ltb_lt. exact Hlt.
  - intros y Hy Hp. apply Honly; [exact Hy|].
    destruct (reset_token v (u_id y)) as [t|]; [|discriminate].
    destruct (reset_token_expires v (u_id y)); [|discriminate].
    apply andb_prop in Hp. destruct Hp as [Hp _].
    apply String.eqb_eq in Hp. rewrite Hp. reflexivity.
Qed.

Lemma hit_by_email (us : list user_row) (email : string) (i : Z) :
  existsb (fun u => (u_id u =? i) && (u_email u =? email)%string) us = true
  <-> exists y, In y us /\ u_id y = i /\ u_email y = email.
Proof.
  rewrite existsb_exists. split; intros [y [Hy H]]; exists y.
  - apply andb_prop in H. destruct H as [H1 H2].
    apply Z.eqb_eq in H1. apply String.eqb_eq in H2. auto.
  - destruct H as [H1 H2]. split; [exact Hy|].
    apply andb_true_iff. split; [apply Z.eqb_eq|apply String.eqb_eq]; auto.
Qed.

Lemma hit_by_id (us : list user_row) (i : Z) :
  existsb (fun u => u_id u =? i) us = true
  <-> exists y, In y us /\ u_id y = i.
Proof.
  rewrite existsb_exists. split; intros [y [Hy H]]; exists y;
    (split; [exact Hy|]); apply Z.eqb_eq; exact H.
Qed.

(** The reset columns after [createPasswordReset] for the email of the
    user [u], when ids and emails are keys. *)
Lemma reset_columns_after_create (v : Vault) (u : user_row) (tok : string)
    (expires : Z) (x : user_row) :
  users_unique v -> In u (users (db (world v))) ->
  In x (users (db (world v))) ->
  let v1 := sql_set_reset_token tok expires (u_email u) v in
  (x = u -> reset_token v1 (u_id x) = Some tok
            /\ reset_token_expires v1 (u_id x) = Some expires)
  /\ (x <> u -> reset_token v1 (u_id x) = reset_token v (u_id x)
                /\ reset_token_expires v1 (u_id x)
                   = reset_token_expires v (u_id x)).
Proof.
  intros [Hi [_ He]] Hu Hx v1. unfold v1, sql_set_reset_token.
  cbn [reset_token reset_token_expires]. split.
  - intros ->.
    assert (Hh : existsb (fun y => (u_id y =? u_id u)
                                   && (u_email y =? u_email u)%string)
                         (users (db (world v))) = true).
    { apply hit_by_email. exists u. auto. }
    rewrite Hh. split; reflexivity.
  - intros Hne.
    destruct (existsb (fun y => (u_id y =? u_id x)
                                && (u_email y =? u_email u)%string)
                      (users (db (world v)))) eqn:Hh; [|split; reflexivity].
    exfalso. apply hit_by_email in Hh. destruct Hh as [y [Hy [Hid Hem]]].
    assert (y = x) by (apply (keyed_inj u_id _ y x Hi Hy Hx Hid)).
    subst y. apply Hne. apply (keyed_inj u_email _ x u He Hx Hu Hem).
Qed.

(** The password reset, end to end.  For the user [u] stored under the
    email, with ids and emails keys of the table and a token that is not
    already stored: [createPasswordReset] returns the token it drew.
    Within the hour [resetPassword] with that token succeeds; it replaces
    the hash of [u] and of no other user and clears the token, after
    which [verifyUser] decides by the new hash alone -- and the token is
    spent: a second [resetPassword] with it is refused, at any time.  An
    hour or more after the request the token is refused and nothing is
    written. *)
Theorem password_reset_flow :
  forall (v : Vault) (u : user_row) (newPassword : string) (dt : Z),
    let tok := randomBytes_hex v (random_drawn v) in
    let h := bcrypt_hash v newPassword 12 (salts_drawn v) in
    down (world v) Users = false ->
    users_unique v ->
    In u (users (db (world v))) ->
    fits 255 tok = true -> fits 255 h = true ->
    (forall x, In x (users (db (world v))) ->
               reset_token v (u_id x) <> Some tok) ->
    exists v1 : Vault,
      createPasswordReset (u_email u) v = (Done tok, v1)
      /\ (dt < RESET_TTL ->
          exists v2 : Vault,
            resetPassword tok newPassword (later dt v1) = (Done ResetDone, v2)
            /\ users (db (world v2))
               = map (fun x => if u_id x =? u_id u
                               then set_user_password_hash h x else x)
                     (users (db (world v)))
            /\ reset_token v2 (u_id u) = None
            /\ reset_token_expires v2 (u_id u) = None
            /\ (forall attempt : string,
                   fst (verifyUser (u_email u) attempt (world v2))
                   = Ok (if bcrypt_compare (libs (world v)) attempt h
                         then Some (mkPublic (u_id u) (u_username u))
                         else None))
            /\ (forall (password' : string) (dt' : Z),
                   resetPassword tok password' (later dt' v2)
                   = (Done (ResetRefused "Invalid or expired token"),
                      later dt' v2)))
      /\ (RESET_TTL <= dt ->
          resetPassword tok newPassword (later dt v1)
          = (Done (ResetRefused "Invalid or expired token"), later dt v1)).
Proof.
  intros v u newPassword dt tok h Hup Huniq Hu Hft Hfh Hfresh.
  rewrite (createPasswordReset_run (u_email u) v Hup Hft).
  fold tok. set (v0 := mkVault _ _ _ _ _ _ _ _ _ (S (random_drawn v))).
  set (expires := clock (world v) + RESET_TTL).
  set (v1 := sql_set_reset_token tok expires (u_email u) v0).
  assert (Huniq0 : users_unique v0) by exact Huniq.
  destruct Huniq as [Hi [Hn He]].
  assert (Hcols : forall x, In x (users (db (world v))) ->
             (u_id x = u_id u ->
              reset_token v1 (u_id x) = Some tok
              /\ reset_token_expires v1 (u_id x) = Some expires)
             /\ (u_id x <> u_id u ->
                 reset_token v1 (u_id x) = reset_token v (u_id x))).
  { intros x Hx.
    destruct (reset_columns_after_create v0 u tok expires x Huniq0 Hu Hx)
      as [Ha Hb].
    split.
    - intros Hid. apply Ha. apply (keyed_inj u_id _ x u Hi Hx Hu Hid).
    - intros Hne. apply Hb. intros ->. apply Hne. reflexivity. }
  exists v1. split; [reflexivity|]. split.
  - (* within the hour *)
    intros Hdt.
    assert (Hup1 : down (world (later dt v1)) Users = false) by exact Hup.
    rewrite (resetPassword_run tok newPassword (later dt v1) Hup1).
    assert (Hsel : sql_select_by_reset_token tok
                     (clock (world (later dt v1))) (later dt v1)
                   = [u_id u]).
    { apply (select_by_reset_token_one tok _ expires (later dt v1) u).
      - exact Hi.
      - exact Hu.
      - apply (Hcols u Hu). reflexivity.
      - apply (Hcols u Hu). reflexivity.
      - unfold expires. simpl. lia.
      - intros x Hx Htok.
        destruct (Z.eq_dec (u_id x) (u_id u)) as [E|Hne]; [exact E|].
        exfalso. apply (Hfresh x Hx).
        rewrite <- (proj2 (Hcols x Hx) Hne). exact Htok. }
    rewrite Hsel. cbv zeta.
    change (bcrypt_hash (later dt v1) newPassword 12
              (salts_drawn (later dt v1))) with h.
    rewrite (varchar_fits _ _ Hfh).
    eexists. split; [reflexivity|].
    assert (Hhit : existsb (fun y => u_id y =? u_id u)
                           (users (db (world v))) = true).
    { apply hit_by_id. exists u. auto. }
    split; [reflexivity|].
    split; [cbn; rewrite Hhit, Z.eqb_refl; reflexivity|].
    split; [cbn; rewrite Hhit, Z.eqb_refl; reflexivity|].
    split.
    + (* verifyUser decides by the new hash *)
      intros attempt. rewrite verifyUser_run by exact Hup.
      cbn [world sql_update_password db set_db users set_users libs].
      unfold sql_select_user_by_email. cbn [users].
      rewrite (filter_keyed u_email _ _ (set_user_password_hash h u)).
      * cbn. destruct (bcrypt_compare _ _ _); reflexivity.
      * cbn. rewrite map_map. erewrite map_ext; [exact He|].
        intros x. destruct (u_id x =? u_id u); reflexivity.
      * cbn. apply in_map_iff. exists u. rewrite Z.eqb_refl. auto.
      * cbn. apply String.eqb_refl.
      * intros y Hy Hp. apply String.eqb_eq in Hp. rewrite Hp. reflexivity.
    + (* the token is spent *)
      intros password' dt'.
      rewrite resetPassword_run by exact Hup.
      rewrite select_by_reset_token_none; [reflexivity|].
      intros x' Hx'. left.
      cbn [world later set_world sql_update_password db set_db users
           set_users] in Hx'.
      apply in_map_iff in Hx'. destruct Hx' as [x [Hxx Hx]].
      assert (Hid : u_id x' = u_id x).
      { subst x'. destruct (u_id x =? u_id u); reflexivity. }
      rewrite Hid. cbn.
      destruct (Z.eqb_spec (u_id x) (u_id u)) as [E|E].
      * rewrite <- E in Hhit. rewrite Hhit. discriminate.
      * rewrite andb_false_r.
        change (reset_token v1 (u_id x) <> Some tok).
        rewrite (proj2 (Hcols x Hx) E). apply (Hfresh x Hx).
  - (* an hour or more later *)
    intros Hdt.
    assert (Hup1 : down (world (later dt v1)) Users = false) by exact Hup.
    rewrite (resetPassword_run tok newPassword (later dt v1) Hup1).
    rewrite select_by_reset_token_none; [reflexivity|].
    intros x Hx.
    destruct (Z.eq_dec (u_id x) (u_id u)) as [E|Hne].
    + right. intros e Hexp.
      change (reset_token_expires v1 (u_id x) = Some e) in Hexp.
      rewrite (proj2 (proj1 (Hcols x Hx) E)) in Hexp.
      injection Hexp as <-. unfold expires. simpl. lia.
    + left. change (reset_token v1 (u_id x) <> Some tok).
      rewrite (proj2 (Hcols x Hx) Hne). apply (Hfresh x Hx).
Qed.


(** Resetting a password logs nobody out.  However [resetPassword] ends
    -- refused, done or failed -- the sessions table is as before and
    [validateSession] answers every token as it did: a session opened
    with the old password stays valid after the password was replaced. *)
Theorem resetPassword_keeps_sessions :
  forall (v : Vault) (token newPassword : string),
    sessions (db (world (snd (resetPassword token newPassword v))))
    = sessions (db (world v))
    /\ forall tok : string,
         fst (validateSession tok
                (world (snd (resetPassword token newPassword v))))
         = fst (validateSession tok (world v)).
Proof.
  intros v token newPassword.
  destruct (down (world v) Users) eqn:Hup.
  { assert (E : resetPassword token newPassword v
                 = (Failed (Base (DbError Users)), v)).
    { unfold resetPassword, andThen, query at 1. cbn [find]. rewrite Hup.
      reflexivity. }
    rewrite E. split; [reflexivity|]. intros tok. reflexivity. }
  rewrite (resetPassword_run token newPassword v Hup).
  destruct (sql_select_by_reset_token token (clock (world v)) v)
    as [|userId rows]; [split; [reflexivity|intros tok; reflexivity]|].
  cbv zeta. destruct (varchar 255 _) as [stored|];
    [|split; [reflexivity|intros tok; reflexivity]].
  split; [reflexivity|]. intros tok.
  apply validate_outcome_view; [reflexivity|].
  cbn [snd world sql_update_password clock set_db].
  apply (select_view_users_map tok (clock (world v)) (db (world v)) _
           (fun u => if u_id u =? userId
                     then set_user_password_hash stored u
                     else u)).
  - reflexivity.
  - reflexivity.
  - intros u. destruct (u_id u =? userId); repeat split; reflexivity.
Qed.

(** ** Roles: creation and assignment *)

Lemma assignRole_run (userId : Z) (roleName : string) (v : Vault) :
  down (world v) Roles = false ->
  assignRole userId roleName v =
  match filter (fun r => (r_name r =? roleName)%string)
               (roles (db (world v))) with
  | [] => (Failed (JsError ("Role " ++ roleName ++ " not found")), v)
  | r :: _ =>
      match find (down (world v)) [UserRoles; Users; Roles] with
      | Some t => (Failed (Base (DbError t)), v)
      | None =>
          match sql_insert_user_role userId (r_id r) v with
          | inl f => (Failed f, v)
          | inr (a, v') => (Done a, v')
          end
      end
  end.
Proof.
  intros Hup. unfold assignRole, andThen, query at 1. cbn [find].
  rewrite Hup.
  destruct (filter _ (roles (db (world v)))) as [|r rs]; [reflexivity|].
  cbn [map]. unfold query. cbn [find]. rewrite ?Hup. reflexivity.
Qed.

Lemma role_names_other (other userId roleId : Z) (d : Db) :
  other <> userId ->
  role_names other
    (mkDb (users d) (roles d) (user_roles d ++ [mkUserRole userId roleId])
          (sessions d) (auth_logs d) (sessions_seq d))
  = role_names other d.
Proof.
  intros Hne. unfold role_names. cbn [user_roles roles].
  rewrite filter_app. cbn [filter ur_user_id].
  destruct (Z.eqb_spec userId other) as [E|E]; [congruence|].
  rewrite app_nil_r. reflexivity.
Qed.


(** [assignRole] for a user and a role that exist succeeds; afterwards
    [getUserWithRoles] lists the role name for that user; the roles of
    every other user are as before; and assigning the same role a second
    time succeeds again and changes nothing. *)
Theorem assignRole_grants :
  forall (v : Vault) (userId : Z) (roleName : string),
    db_up (world v) ->
    (exists u, In u (users (db (world v))) /\ u_id u = userId) ->
    (exists r, In r (roles (db (world v))) /\ r_name r = roleName) ->
    exists v1 : Vault,
      assignRole userId roleName v = (Done tt, v1)
      /\ users (db (world v1)) = users (db (world v))
      /\ roles (db (world v1)) = roles (db (world v))
      /\ (exists uw : user_with_roles,
             fst (getUserWithRoles userId (world v1)) = Ok (Some uw)
             /\ uw_id uw = userId /\ In roleName (uw_roles uw))
      /\ (forall other, other <> userId ->
             role_names other (db (world v1))
             = role_names other (db (world v)))
      /\ assignRole userId roleName v1 = (Done tt, v1).
Proof.
  intros v userId roleName Hup [u [Hu Hid]] [r [Hr Hname]].
  rewrite (assignRole_run _ _ _ (Hup Roles)).
  destruct (filter (fun r0 => (r_name r0 =? roleName)%string)
                   (roles (db (world v)))) as [|r0 rs] eqn:Ef.
  { exfalso.
    assert (Hin : In r (filter (fun r0 => (r_name r0 =? roleName)%string)
                               (roles (db (world v))))).
    { apply filter_In. split; [exact Hr|]. apply String.eqb_eq.
      exact Hname. }
    rewrite Ef in Hin. destruct Hin. }
  assert (Hr0 : In r0 (roles (db (world v))) /\ r_name r0 = roleName).
  { assert (Hin : In r0 (filter (fun r1 => (r_name r1 =? roleName)%string)
                                (roles (db (world v))))).
    { rewrite Ef. left. reflexivity. }
    apply filter_In in Hin. destruct Hin as [Hin Hn].
    apply String.eqb_eq in Hn. auto. }
  destruct Hr0 as [Hr0 Hn0].
  cbn [find]. rewrite (Hup UserRoles), (Hup Users), (Hup Roles).
  assert (H2 : existsb (fun u0 => u_id u0 =? userId)
                       (users (db (world v))) = true).
  { apply hit_by_id. exists u. auto. }
  assert (H3 : existsb (fun r1 => r_id r1 =? r_id r0)
                       (roles (db (world v))) = true).
  { apply existsb_exists. exists r0. split; [exact Hr0|apply Z.eqb_refl]. }
  (* what holds of the vault left, whichever branch was taken *)
  assert (Hafter : forall v1 : Vault,
             down (world v1) = down (world v) ->
             users (db (world v1)) = users (db (world v)) ->
             roles (db (world v1)) = roles (db (world v)) ->
             existsb (fun ur => (ur_user_id ur =? userId)
                                && (ur_role_id ur =? r_id r0))
                     (user_roles (db (world v1))) = true ->
             (exists uw : user_with_roles,
                 fst (getUserWithRoles userId (world v1)) = Ok (Some uw)
                 /\ uw_id uw = userId /\ In roleName (uw_roles uw))
             /\ assignRole userId roleName v1 = (Done tt, v1)).
  { intros v1 Hd Hus Hrs Hpair. split.
    - rewrite getUserWithRoles_run by (rewrite Hd; apply Hup).
      rewrite (user_id_binds_stored userId (db (world v1)))
        by (rewrite Hus; exact H2).
      unfold sql_select_user_with_roles. rewrite Hus.
      destruct (filter (fun u0 => u_id u0 =? userId)
                       (users (db (world v)))) as [|u0 us] eqn:Eu.
      { exfalso.
        assert (Hin : In u (filter (fun u0 => u_id u0 =? userId)
                                   (users (db (world v))))).
        { apply filter_In. split; [exact Hu|]. apply Z.eqb_eq. exact Hid. }
        rewrite Eu in Hin. destruct Hin. }
      eexists. split; [reflexivity|]. cbn [uw_id uw_roles]. split.
      + assert (Hin : In u0 (filter (fun u1 => u_id u1 =? userId)
                                    (users (db (world v))))).
        { rewrite Eu. left. reflexivity. }
        apply filter_In in Hin. apply Z.eqb_eq. apply Hin.
      + rewrite (rearranges_In _ _ roleName (arranged_rearranges _ _)).
        apply role_names_In. apply existsb_exists in Hpair.
        destruct Hpair as [ur [Hur Hp]]. apply andb_prop in Hp.
        destruct Hp as [Hp1 Hp2]. apply Z.eqb_eq in Hp1.
        apply Z.eqb_eq in Hp2. exists ur, r0. rewrite Hrs. auto.
    - rewrite assignRole_run by (rewrite Hd; apply Hup).
      rewrite Hrs, Ef. cbn [find]. rewrite Hd.
      rewrite (Hup UserRoles), (Hup Users), (Hup Roles).
      unfold sql_insert_user_role. rewrite Hpair. reflexivity. }
  unfold sql_insert_user_role.
  destruct (existsb (fun ur => (ur_user_id ur =? userId)
                               && (ur_role_id ur =? r_id r0))
                    (user_roles (db (world v)))) eqn:Hpair.
  - (* the pair is there already *)
    exists v. split; [reflexivity|]. split; [reflexivity|].
    split; [reflexivity|].
    destruct (Hafter v eq_refl eq_refl eq_refl Hpair) as [Hg Hagain].
    split; [exact Hg|]. split; [reflexivity|exact Hagain].
  - rewrite H2, H3. cbn [negb]. eexists. split; [reflexivity|].
    split; [reflexivity|]. split; [reflexivity|].
    match goal with
    | |- context [assignRole userId roleName ?v1] =>
        destruct (Hafter v1 eq_refl eq_refl eq_refl) as [Hg Hagain]
    end.
    { cbn. rewrite existsb_app. cbn. rewrite !Z.eqb_refl.
      apply orb_true_r. }
    split; [exact Hg|]. split; [|exact Hagain].
    intros other Hne. cbn [world set_world db set_db].
    apply role_names_other. exact Hne.
Qed.


(* ================================================================== *)
(** * The further properties at concrete data *)
(* ================================================================== *)

Import Samples.

Lemma own_acts_own : Forall own_action own_acts.
Proof. repeat constructor. Qed.

(** A sweep, a login, a deactivation, five milliseconds and a
    validation: the audit log has grown behind what it held. *)
Lemma audit_log_append_only_witness :
  exists added : list auth_log_row,
    auth_logs (db (run_actions own_acts demo)) = auth_logs (db demo) ++ added
    /\ Forall (fun l => clock demo <= l_created_at l) added.
Proof.
  exact (audit_log_append_only own_acts demo own_acts_own).
Defined.

(** After that run the session of alice is still stored, and it is one
    of the rows the run started with. *)
Lemma sessions_only_lose_validity_witness :
  In s_alice (sessions (db (run_actions own_acts demo)))
  /\ ((exists s, In s (sessions (db demo)) /\ same_session s s_alice)
      \/ issued_since demo (run_actions own_acts demo) s_alice).
Proof.
  assert (H : In s_alice (sessions (db (run_actions own_acts demo)))).
  { vm_compute. left. reflexivity. }
  split; [exact H|].
  exact (sessions_only_lose_validity own_acts demo s_alice own_acts_own H).
Defined.

(** In that run the users keep their credentials. *)
Lemma service_keeps_credentials_witness :
  Forall own_action own_acts
  /\ Forall2 same_credentials (users (db demo))
             (users (db (run_actions own_acts demo)))
  /\ roles (db (run_actions own_acts demo)) = roles (db demo)
  /\ user_roles (db (run_actions own_acts demo)) = user_roles (db demo).
Proof.
  assert (H : Forall own_action own_acts).
  { repeat constructor. }
  split; [exact H|].
  exact (service_keeps_credentials own_acts demo H).
Defined.

(** The sweep in the demo world. *)
Lemma sweep_deletes_exactly_the_stale_witness :
  down demo Sessions = false
  /\ exists (n : Z) (w1 : World),
       cleanupSessions demo = (Ok n, w1)
       /\ n + Z.of_nat (length (sessions (db w1)))
          = Z.of_nat (length (sessions (db demo)))
       /\ (forall s, In s (sessions (db w1)) <->
                     In s (sessions (db demo)) /\ s_is_valid s = true /\
                     clock demo <= s_expires_at s)
       /\ users (db w1) = users (db demo)
       /\ auth_logs (db w1) = auth_logs (db demo).
Proof.
  split; [reflexivity|].
  apply (sweep_deletes_exactly_the_stale demo). reflexivity.
Defined.


(** The session of alice validates in the demo world. *)
Lemma validateSession_sound_witness :
  fst (validateSession "tok-alice" demo)
  = Ok (Some (mkInfo "row-a" 1 "alice" 86401000))
  /\ exists (s : session_row) (u : user_row),
       In s (sessions (db demo)) /\ In u (users (db demo))
       /\ s_token s = "tok-alice" /\ s_is_valid s = true
       /\ clock demo < s_expires_at s
       /\ u_id u = s_user_id s /\ u_is_active u = true
       /\ mkInfo "row-a" 1 "alice" 86401000
          = mkInfo (s_id s) (s_user_id s) (u_username u) (s_expires_at s).
Proof.
  assert (H : fst (validateSession "tok-alice" demo)
              = Ok (Some (mkInfo "row-a" 1 "alice" 86401000))).
  { reflexivity. }
  split; [exact H|].
  exact (validateSession_sound "tok-alice" demo _ H).
Defined.

(** Validating the session of bob, who is inactive, clears its flag and
    leaves the session of alice in place; validating the session of alice
    writes nothing. *)
Lemma validateSession_only_invalidates_witness :
  In s_alice (sessions (db demo)) /\ s_token s_alice <> "tok-bob"
  /\ In s_alice (sessions (db (snd (validateSession "tok-bob" demo))))
  /\ db (snd (validateSession "tok-alice" demo)) = db demo
  /\ sessions (db (snd (validateSession "tok-bob" demo)))
     = [s_alice; set_session_valid false s_bob; s_old].
Proof.
  assert (H1 : In s_alice (sessions (db demo))).
  { left. reflexivity. }
  assert (H2 : s_token s_alice <> "tok-bob").
  { discriminate. }
  split; [exact H1|]. split; [exact H2|]. split; [|split].
  - exact (proj1 (proj2 (proj2 (proj2 (proj2 (proj2
             (validateSession_only_invalidates "tok-bob" demo))))))
             s_alice H1 H2).
  - exact (proj1 (proj2 (proj2 (proj2 (proj2 (proj2 (proj2
             (validateSession_only_invalidates "tok-alice" demo)))))))
             (mkInfo "row-a" 1 "alice" 86401000) eq_refl).
  - reflexivity.
Defined.

(** A login of alice leaves the session of alice that is already there
    as it was. *)
Lemma login_leaves_other_sessions_witness :
  never_reissued "tok-alice" demo
  /\ fst (validateSession "tok-alice"
            (snd (login "alice@example.com" "Secret123!" "10.0.0.1" "curl"
                        demo)))
     = fst (validateSession "tok-alice" demo)
  /\ fst (validateSession "tok-alice"
            (snd (createSession 2 "10.0.0.2" "curl" demo)))
     = fst (validateSession "tok-alice" demo).
Proof.
  assert (H : never_reissued "tok-alice" demo).
  { apply demo_never_reissues; reflexivity. }
  split; [exact H|].
  exact (login_leaves_other_sessions demo "alice@example.com" "Secret123!"
           "10.0.0.1" "curl" 2 "tok-alice" H).
Defined.


Lemma demo_draw_is_new :
  ~ In (uuidv4 (libs demo) (uuid_ctr demo))
       (map s_token (sessions (db demo))).
Proof.
  simpl. intros [H|[H|[H|[]]]]; discriminate H.
Qed.

Lemma staffed_draw_is_new :
  ~ In (uuidv4 (libs staffed) (uuid_ctr staffed))
       (map s_token (sessions (db staffed))).
Proof.
  simpl. intros [H|[H|[H|[]]]]; discriminate H.
Qed.



(** Alice is stored under the email and her hash accepts the password. *)
Lemma verifyUser_sound_witness :
  fst (verifyUser "alice@example.com" "Secret123!" demo)
  = Ok (Some (mkPublic 1 "alice"))
  /\ exists u : user_row,
       In u (users (db demo)) /\ u_email u = "alice@example.com"
       /\ bcrypt_compare (libs demo) "Secret123!" (u_password_hash u) = true
       /\ mkPublic 1 "alice" = mkPublic (u_id u) (u_username u).
Proof.
  assert (H : fst (verifyUser "alice@example.com" "Secret123!" demo)
              = Ok (Some (mkPublic 1 "alice"))).
  { reflexivity. }
  split; [exact H|].
  exact (proj2 (verifyUser_sound demo "alice@example.com" "Secret123!")
           (mkPublic 1 "alice") H).
Defined.

(** The login of alice is a success, so it is not the generic failure. *)
Lemma login_sound_witness :
  fst (login "alice@example.com" "Secret123!" "10.0.0.1" "curl" demo)
  = Ok alice_login
  /\ alice_login <> LoginFailure "Invalid credentials"
  /\ (alice_login = LoginFailure "Invalid credentials"
      \/ exists (u : user_row) (uw : user_with_roles) (jwt : string)
                (session : session_handle),
           alice_login = LoginSuccess (Some uw) jwt session
           /\ In u (users (db demo)) /\ u_email u = "alice@example.com"
           /\ bcrypt_compare (libs demo) "Secret123!" (u_password_hash u)
              = true
           /\ uw_id uw = u_id u
           /\ token session = uuidv4 (libs demo) (uuid_ctr demo)
           /\ expiresAt session = clock demo + SESSION_TTL).
Proof.
  assert (H : fst (login "alice@example.com" "Secret123!" "10.0.0.1" "curl"
                         demo) = Ok alice_login).
  { vm_compute. reflexivity. }
  split; [exact H|]. split.
  - vm_compute. discriminate.
  - exact (login_sound demo "alice@example.com" "Secret123!" "10.0.0.1"
             "curl" alice_login H).
Defined.

(** Alice holds the role viewer and no other; no user has the id 9, which
    is answered with undefined, nor the id 2147483648, which is no
    INTEGER. *)
Lemma getUserWithRoles_roles_witness :
  ((exists u, In u (users (db demo)) /\ u_id u = 1)
   /\ exists uw : user_with_roles,
        fst (getUserWithRoles 1 demo) = Ok (Some uw)
        /\ uw_id uw = 1
        /\ forall name : string,
             In name (uw_roles uw) <->
             exists (ur : user_role_row) (r : role_row),
               In ur (user_roles (db demo)) /\ ur_user_id ur = 1 /\
               In r (roles (db demo)) /\ r_id r = ur_role_id ur /\
               r_name r = name)
  /\ (int4 9 = true /\ fst (getUserWithRoles 9 demo) = Ok None)
  /\ (int4 2147483648 = false
      /\ fst (getUserWithRoles 2147483648 demo) = Throw IntegerOutOfRange).
Proof.
  assert (H : exists u, In u (users (db demo)) /\ u_id u = 1).
  { exists alice. split; [left; reflexivity|reflexivity]. }
  assert (Hno : forall z, z <> 1 -> z <> 2 ->
                          forall u, In u (users (db demo)) -> u_id u <> z).
  { intros z H1 H2 u [<-|[<-|[]]]; simpl; congruence. }
  split; [|split].
  - split; [exact H|].
    exact (proj2 (proj2 (getUserWithRoles_roles demo 1 eq_refl eq_refl
                           eq_refl)) H).
  - split; [reflexivity|].
    exact (proj1 (proj1 (proj2 (getUserWithRoles_roles demo 9 eq_refl
                                  eq_refl eq_refl))
                    (Hno 9 ltac:(discriminate) ltac:(discriminate)))
             eq_refl).
  - split; [reflexivity|].
    exact (proj2 (proj1 (proj2 (getUserWithRoles_roles demo 2147483648
                                  eq_refl eq_refl eq_refl))
                    (Hno 2147483648 ltac:(discriminate)
                         ltac:(discriminate)))
             eq_refl).
Defined.

(** The session the controller leaves for carol passes [isAuthenticated]
    and [hasRole] for her role, and is answered 403 for admin. *)
Lemma controller_login_then_middleware_witness :
  SessionAuth.isAuthenticated carol_session = Next
  /\ SessionAuth.hasRole "user" carol_session = Next
  /\ SessionAuth.hasRole "admin" carol_session
     = Respond 403 "Insufficient permissions".
Proof.
  assert (Hid : SessionAuth.id carol <> 0) by discriminate.
  destruct (proj1 (controller_login_then_middleware carol carol_session
                     eq_refl) Hid) as [H1 [H2 [_ H4]]].
  split; [exact H1|]. split; [exact H2|].
  apply H4; discriminate.
Defined.

(** A password the policy accepts, and the same between other
    characters. *)
Lemma validatePassword_accepts_witness :
  validatePassword (units "Secret123") = true
  /\ validatePassword (units "  " ++ units "Secret123" ++ units "!") = true.
Proof.
  assert (H : validatePassword (units "Secret123") = true).
  { reflexivity. }
  split; [exact H|].
  exact (proj2 validatePassword_accepts (units "Secret123") (units "  ")
           (units "!") H eq_refl eq_refl).
Defined.

(** A bearer header with the known token is let through with the payload
    as [req.user]; the same token under another scheme is answered 401. *)
Lemma authenticate_accepts_witness :
  authenticate verify_good bearer_good = (Next, set_user root bearer_good)
  /\ exists msg : string,
       authenticate verify_good basic_good = (Respond 401 msg, basic_good).
Proof.
  split.
  - apply (proj1 (authenticate_accepts verify_good bearer_good)).
    exists "good", root. repeat split.
  - apply (proj2 (authenticate_accepts verify_good basic_good)).
    vm_compute. discriminate.
Defined.

(** The administrator reaches both routes. *)
Lemma api_users_admin_only_witness :
  api_users verify_good bearer_good = Reached (set_user root bearer_good)
  /\ api_profile verify_good bearer_good
     = Reached (set_user root bearer_good).
Proof.
  split.
  - apply (proj1 (api_users_admin_only verify_good bearer_good)).
    exists "good", root, ["admin"]. repeat split. left. reflexivity.
  - apply (proj2 (proj2 (proj2 (api_users_admin_only verify_good
                                   bearer_good))) "good" root);
      reflexivity.
Defined.

(** [authenticateJWT] takes the token under the scheme Basic, and answers
    403 where [authenticate] answers 401. *)
Lemma authenticateJWT_is_laxer_witness :
  authenticateJWT verify_good basic_good = (Next, set_user root basic_good)
  /\ authenticate verify_good bearer_bad
     = (Respond 401 "Invalid or expired token", bearer_bad)
  /\ authenticateJWT verify_good bearer_bad
     = (Respond 403 "Invalid token", bearer_bad).
Proof.
  split.
  - apply (proj1 (proj2 (authenticateJWT_is_laxer verify_good basic_good))
             "Basic" "good" root);
      [discriminate|reflexivity|reflexivity|reflexivity].
  - apply (proj2 (proj2 (proj2 (authenticateJWT_is_laxer verify_good
                                   bearer_bad))) "stale");
      reflexivity.
Defined.

Lemma vault_users_unique : users_unique vault.
Proof.
  unfold users_unique. simpl.
  repeat split;
    repeat (constructor; [simpl; intuition discriminate|]); constructor.
Qed.

Lemma vault_no_dave :
  forall u, In u (users (db (world vault))) ->
            u_id u <> users_id_seq vault + 1 /\ u_username u <> "dave" /\
            u_email u <> "dave@example.com".
Proof.
  intros u [<-|[<-|[]]]; repeat split; discriminate.
Qed.



(** The users of the demo world stay distinguishable when dave
    registers. *)
Lemma register_keeps_users_unique_witness :
  users_unique vault
  /\ users_unique
       (snd (registerUser "dave" "dave@example.com" "Passw0rd" vault)).
Proof.
  split; [exact vault_users_unique|].
  exact (register_keeps_users_unique vault "dave" "dave@example.com"
           "Passw0rd" vault_users_unique).
Defined.

Lemma vault_token_new :
  forall x, In x (users (db (world vault))) ->
            reset_token vault (u_id x)
            <> Some (randomBytes_hex vault (random_drawn vault)).
Proof. intros x _. discriminate. Qed.

(** Alice resets her password ten milliseconds after asking, and is then
    verified with the new password; an hour after asking the token is
    refused. *)
Lemma password_reset_flow_witness :
  (exists v1 v2 : Vault,
      createPasswordReset "alice@example.com" vault = (Done "hex-", v1)
      /\ resetPassword "hex-" "N3wPassw0rd" (later 10 v1)
         = (Done ResetDone, v2)
      /\ fst (verifyUser "alice@example.com" "N3wPassw0rd" (world v2))
         = Ok (Some (mkPublic 1 "alice"))
      /\ fst (verifyUser "alice@example.com" "Secret123!" (world v2))
         = Ok None
      /\ resetPassword "hex-" "Again1234" (later 20 v2)
         = (Done (ResetRefused "Invalid or expired token"), later 20 v2))
  /\ (exists v1 : Vault,
         createPasswordReset "alice@example.com" vault = (Done "hex-", v1)
         /\ resetPassword "hex-" "N3wPassw0rd" (later RESET_TTL v1)
            = (Done (ResetRefused "Invalid or expired token"),
               later RESET_TTL v1)).
Proof.
  split.
  - destruct (password_reset_flow vault alice "N3wPassw0rd" 10 eq_refl
                vault_users_unique (or_introl eq_refl) eq_refl eq_refl
                vault_token_new)
      as [v1 [H1 [Hin _]]].
    destruct (Hin eq_refl) as [v2 [H2 [_ [_ [_ [Hv Hspent]]]]]].
    exists v1, v2. split; [exact H1|]. split; [exact H2|].
    split; [exact (Hv "N3wPassw0rd")|]. split; [exact (Hv "Secret123!")|].
    exact (Hspent "Again1234" 20).
  - destruct (password_reset_flow vault alice "N3wPassw0rd" RESET_TTL
                eq_refl vault_users_unique (or_introl eq_refl) eq_refl
                eq_refl vault_token_new)
      as [v1 [H1 [_ Hout]]].
    exists v1. split; [exact H1|]. apply Hout. apply Z.le_refl.
Defined.

Lemma vault_no_erin :
  forall u, In u (users (db (world vault))) ->
            u_email u <> "erin@example.com".
Proof. intros u [<-|[<-|[]]]; discriminate. Qed.



(** Bob is made an administrator. *)
Lemma assignRole_grants_witness :
  exists v1 : Vault,
    assignRole 2 "admin" vault = (Done tt, v1)
    /\ (exists uw : user_with_roles,
           fst (getUserWithRoles 2 (world v1)) = Ok (Some uw)
           /\ uw_id uw = 2 /\ In "admin" (uw_roles uw))
    /\ role_names 1 (db (world v1)) = role_names 1 (db (world vault))
    /\ assignRole 2 "admin" v1 = (Done tt, v1).
Proof.
  assert (Hu : exists u, In u (users (db (world vault))) /\ u_id u = 2).
  { exists bob. split; [right; left; reflexivity|reflexivity]. }
  assert (Hr : exists r, In r (roles (db (world vault)))
                         /\ r_name r = "admin").
  { exists (mkRole 2 "admin"). split; [right; left; reflexivity|].
    reflexivity. }
  destruct (assignRole_grants vault 2 "admin" demo_up Hu Hr)
    as [v1 [H1 [_ [_ [H4 [H5 H6]]]]]].
  exists v1. split; [exact H1|]. split; [exact H4|].
  split; [|exact H6]. apply H5. discriminate.
Defined.

